(** * ARM connections tool server: dynamic operation binding

  A shallow embedding of the dynamic-tool engine of the server
  (key sanitisation, tool naming, family deduplication, the tool
  registry and its lifecycle, the dynamicInvoke translator and the ARM
  request pipeline), with the properties its specification states.

  JavaScript strings are modelled as [string] (one [ascii] per code
  unit); the functions below only ever inspect the ASCII classes
  [a-z], [A-Z], [0-9] and a few punctuation characters, every other
  code unit is opaque to them. *)

From Stdlib Require Import ZArith String Ascii List Bool Lia.
From stdpp Require Import base option list strings gmap pretty.

Local Open Scope string_scope.
Local Open Scope list_scope.

(** ** Characters *)

Module Char.

Definition code (c : ascii) : nat := nat_of_ascii c.

Definition is_lower (c : ascii) : bool := (97 <=? code c)%nat && (code c <=? 122)%nat.
Definition is_upper (c : ascii) : bool := (65 <=? code c)%nat && (code c <=? 90)%nat.
Definition is_digit (c : ascii) : bool := (48 <=? code c)%nat && (code c <=? 57)%nat.

(** The character class [[a-zA-Z0-9_.-]]. *)
Definition is_key_char (c : ascii) : bool :=
  is_lower c || is_upper c || is_digit c
  || Ascii.eqb c "_" || Ascii.eqb c "." || Ascii.eqb c "-".

(** The character class [[.-]]. *)
Definition is_dot_or_hyphen (c : ascii) : bool :=
  Ascii.eqb c "." || Ascii.eqb c "-".

(** [toLowerCase] / [toUpperCase] on one code unit (ASCII letters). *)
Definition to_lower (c : ascii) : ascii :=
  if is_upper c then ascii_of_nat (code c + 32) else c.
Definition to_upper (c : ascii) : ascii :=
  if is_lower c then ascii_of_nat (code c - 32) else c.

End Char.

(** ** String helpers *)

Fixpoint str_map (f : ascii -> ascii) (s : string) : string :=
match s with
| EmptyString => EmptyString
| String c t => String (f c) (str_map f t)
end.

Fixpoint str_forall (p : ascii -> bool) (s : string) : bool :=
match s with
| EmptyString => true
| String c t => p c && str_forall p t
end.

(** [s.slice(0, n)] *)
Fixpoint slice0 (n : nat) (s : string) : string :=
match n, s with
| S k, String c t => String c (slice0 k t)
| _, _ => EmptyString
end.

Definition toLowerCase (s : string) : string := str_map Char.to_lower s.
Definition toUpperCase (s : string) : string := str_map Char.to_upper s.

(** [s] matches [^[a-zA-Z0-9_.-]{1,64}$]. *)
Definition matches_name_regex (s : string) : bool :=
(1 <=? String.length s)%nat && (String.length s <=? 64)%nat
&& str_forall Char.is_key_char s.

(** ** Key sanitisation (zodGenerator.ts) *)

(** [name.replace(/[^a-zA-Z0-9_.-]/g, "_")] *)
Definition replace_unsafe (s : string) : string :=
str_map (fun c => if Char.is_key_char c then c else "_"%char) s.

(** [safe.replace(/^[.-]+/, "")] *)
Fixpoint strip_leading (s : string) : string :=
match s with
| EmptyString => EmptyString
| String c t => if Char.is_dot_or_hyphen c then strip_leading t else s
end.

(** [safe.replace(/_+/g, "_")]: an underscore followed by another one is
  dropped, so each maximal run keeps its last underscore only. *)
Fixpoint collapse_underscores (s : string) : string :=
match s with
| EmptyString => EmptyString
| String c t =>
    match t with
    | String d _ =>
        if Ascii.eqb c "_" && Ascii.eqb d "_"
        then collapse_underscores t
        else String c (collapse_underscores t)
    | EmptyString => String c EmptyString
    end
end.

Definition sanitizeKey (name : string) : string :=
let safe := replace_unsafe name in
let safe := strip_leading safe in
let safe := collapse_underscores safe in
let safe := slice0 64 safe in
match safe with
| EmptyString => "param"
| _ => safe
end.

(** The four rewriting steps, before the ["param"] fallback. *)
Definition sanitize_steps (name : string) : string :=
  slice0 64 (collapse_underscores (strip_leading (replace_unsafe name))).

(** *** Shape of a sanitised key *)

(** No leading [.] or [-]. *)
Definition leading_ok (s : string) : bool :=
match s with
| EmptyString => true
| String c _ => negb (Char.is_dot_or_hyphen c)
end.

(** No two adjacent underscores. *)
Fixpoint no_double_underscore (s : string) : bool :=
match s with
| EmptyString => true
| String c t =>
    match t with
    | String d _ => negb (Ascii.eqb c "_" && Ascii.eqb d "_") && no_double_underscore t
    | EmptyString => true
    end
end.


(** ** Tool naming (dynamicTools.ts) *)

(** [operationId.replace(/([a-z0-9])([A-Z])/g, "$1_$2")]: two matches never
    overlap (the second character of a match is a capital, which cannot
    start another match), so the global replace inserts an underscore
    between every adjacent pair lower-or-digit / capital. *)
Fixpoint split_lower_upper (s : string) : string :=
  match s with
  | EmptyString => EmptyString
  | String a t =>
      String a
        match t with
        | String b _ =>
            if (Char.is_lower a || Char.is_digit a) && Char.is_upper b
            then String "_" (split_lower_upper t)
            else split_lower_upper t
        | EmptyString => EmptyString
        end
  end.

(** [.replace(/([A-Z]+)([A-Z][a-z])/g, "$1_$2")]: a match is a run of at
    least two capitals followed by a lower-case letter; the greedy
    [[A-Z]+] backtracks by exactly one capital, so the underscore lands
    before the last capital of the run.  The scanner resumes after the
    lower-case letter, hence it always enters a run of capitals at its
    first character and the underscore is inserted after every capital
    [a] that is followed by a capital and then a lower-case letter. *)
Fixpoint split_caps_run (s : string) : string :=
  match s with
  | EmptyString => EmptyString
  | String a t =>
      String a
        match t with
        | String b (String c _) =>
            if Char.is_upper a && Char.is_upper b && Char.is_lower c
            then String "_" (split_caps_run t)
            else split_caps_run t
        | _ => split_caps_run t
        end
  end.

Definition snake_case (operationId : string) : string :=
  toLowerCase (split_caps_run (split_lower_upper operationId)).

Definition buildToolName (apiName operationId : string) : string :=
  let snake := snake_case operationId in
  apiName +:+ "_" +:+ snake.

(** ** JavaScript values and exceptions *)

(** JSON values as the code receives them from [JSON.parse] and from the
    tool transport.  Numbers are the integers (the code only prints and
    forwards them); [undefined] is the [None] of an [option json]. *)
#[warnings="-register-all"]
Inductive json : Type :=
| JNull
| JBool (b : bool)
| JNum (n : Z)
| JStr (s : string)
| JArr (items : list json)
| JObj (fields : list (string * json)).

Module Js.

(** Truthiness, as tested by [if (v)], [!v] and [!!v]. *)
Definition truthy (v : json) : bool :=
  match v with
  | JNull => false
  | JBool b => b
  | JNum n => negb (n =? 0)%Z
  | JStr s => negb (String.eqb s "")
  | JArr _ | JObj _ => true
  end.

Fixpoint assoc {A : Type} (k : string) (l : list (string * A)) : option A :=
  match l with
  | [] => None
  | (k', v) :: rest => if String.eqb k k' then Some v else assoc k rest
  end.

(** Property read [v.k] for the keys the code uses ([error], [code],
    [message], [properties], [swagger], [response], [body]): an own
    property of an object, [undefined] on every other value. *)
Definition prop (k : string) (v : json) : option json :=
  match v with
  | JObj fields => assoc k fields
  | _ => None
  end.

(** [a ?? b] *)
Definition coalesce (a b : option json) : option json :=
  match a with
  | None | Some JNull => b
  | Some v => Some v
  end.

(** [a ?? d] with a default that is defined. *)
Definition coalesce_default (a : option json) (d : json) : json :=
  match a with
  | None | Some JNull => d
  | Some v => v
  end.

Fixpoint join (sep : string) (l : list string) : string :=
  match l with
  | [] => ""
  | [x] => x
  | x :: rest => x +:+ sep +:+ join sep rest
  end.

(** [String(v)] *)
Fixpoint String_ (v : json) : string :=
  match v with
  | JNull => "null"
  | JBool true => "true"
  | JBool false => "false"
  | JNum n => pretty n
  | JStr s => s
  | JArr items =>
      join "," (List.map (fun x => match x with JNull => "" | _ => String_ x end) items)
  | JObj _ => "[object Object]"
  end.

(** [typeof v === "string"] *)
Definition is_string (v : json) : bool :=
  match v with JStr _ => true | _ => false end.

End Js.

(** Thrown values.  [ArmError] is the class of arm.ts; the others are the
    built-in errors the code can meet: a rejected [fetch] or body stream
    (below the HTTP level), a [SyntaxError] of [JSON.parse], a [TypeError]
    of a property read on [undefined], and a plain [Error]. *)
Inductive JsError : Type :=
| ArmError (code : json) (message : string) (statusCode : Z)
| TransportError (message : string)
| SyntaxError (message : string)
| TypeError (message : string)
| PlainError (message : string).

(** [err.message] *)
Definition error_message (e : JsError) : string :=
  match e with
  | ArmError _ m _ | TransportError m | SyntaxError m | TypeError m | PlainError m => m
  end.

(** [error instanceof ArmError] *)
Definition is_ArmError (e : JsError) : bool :=
  match e with ArmError _ _ _ => true | _ => false end.

Inductive Outcome (A : Type) : Type :=
| Returns (a : A)
| Throws (e : JsError).
Arguments Returns {A} a.
Arguments Throws {A} e.

(** ** The ARM request pipeline (arm.ts) *)

Module Arm.

Definition MAX_RETRIES : nat := 3.

(** What reading the body of a response gives. *)
Inductive BodyRead : Type :=
| BodyText (text : string)
| BodyFails (message : string).

Record Response : Type := {
  status : Z;
  retryAfter : option string;
  body : BodyRead
}.

(** The result of one call to [fetch]. *)
Inductive FetchResult : Type :=
| FetchRejects (message : string)
| FetchResolves (r : Response).

(** [response.ok] *)
Definition ok (r : Response) : bool :=
  (200 <=? status r)%Z && (status r <=? 299)%Z.

Definition isRetryable (status : Z) : bool :=
  (status =? 429)%Z || (500 <=? status)%Z.

(** Observable steps of one [armRequest]: the calls to [fetch] and the
    back-off sleeps (their duration, which is random, is not modelled). *)
Inductive Event : Type :=
| EvFetch (attempt : nat)
| EvSleep (attempt : nat).

Definition is_fetch (e : Event) : bool :=
  match e with EvFetch _ => true | EvSleep _ => false end.

(** Failures below the HTTP level at one call of [fetch]: the call itself
    rejects, or the body of an OK response cannot be read. *)
Definition fails_below_http (f : FetchResult) (message : string) : Prop :=
  f = FetchRejects message
  \/ exists r, f = FetchResolves r /\ ok r = true /\ body r = BodyFails message.

Section Pipeline.

(** [JSON.parse]; [None] when it throws a [SyntaxError]. *)
Variable JSON_parse : string -> option json.

(** [await response.json()]; [None] when it rejects. *)
Definition response_json (r : Response) : option json :=
  match body r with
  | BodyText text => JSON_parse text
  | BodyFails _ => None
  end.

(** The [ArmError] built from a response that is not OK. *)
Definition shape_error (r : Response) : JsError :=
  let errorCode := JStr "UnknownError" in
  let errorMessage := JStr ("ARM request failed with status " +:+ pretty (status r)) in
  let '(errorCode, errorMessage) :=
    match response_json r with
    | Some errorBody =>
        match Js.prop "error" errorBody with
        | Some err =>
            if Js.truthy err
            then (Js.coalesce_default (Js.prop "code" err) errorCode,
                  Js.coalesce_default (Js.prop "message" err) errorMessage)
            else (errorCode, errorMessage)
        | None => (errorCode, errorMessage)
        end
    | None => (errorCode, errorMessage)
    end in
  ArmError errorCode (Js.String_ errorMessage) (status r).

(** A run is an outcome with the events that led to it. *)
Definition after (evs : list Event) (run : Outcome json * list Event)
  : Outcome json * list Event :=
  (fst run, evs ++ snd run).

(** The retry loop [for (attempt = 0; attempt <= MAX_RETRIES; attempt++)],
    with [remaining = MAX_RETRIES + 1 - attempt] iterations left.
    [transport k] is what the [k]-th call to [fetch] does. *)
Fixpoint attempts (transport : nat -> FetchResult) (remaining attempt : nat)
  (lastError : option JsError) : Outcome json * list Event :=
  match remaining with
  | O => (Throws (default (PlainError "ARM request failed after retries") lastError), [])
  | S remaining' =>
      (* [continue], after a sleep when the retry budget allows one *)
      let next (lastError : option JsError) :=
        after (if (attempt <? MAX_RETRIES)%nat then [EvSleep attempt] else [])
          (attempts transport remaining' (S attempt) lastError) in
      (* the [catch] block, for an error that is not an [ArmError] *)
      let caught (error : JsError) := next (Some error) in
      after [EvFetch attempt]
        match transport attempt with
        | FetchRejects m => caught (TransportError m)
        | FetchResolves response =>
            if ok response then
              match body response with
              | BodyFails m => caught (TransportError m)
              | BodyText text =>
                  if String.eqb text "" then (Returns (JObj []), [])
                  else match JSON_parse text with
                       | Some v => (Returns v, [])
                       | None => caught (SyntaxError "Unexpected token")
                       end
              end
            else if isRetryable (status response) && (attempt <? MAX_RETRIES)%nat
            then next lastError
            else (Throws (shape_error response), [])
        end
  end.

Definition armRequest (transport : nat -> FetchResult) : Outcome json * list Event :=
  attempts transport (MAX_RETRIES + 1) 0 None.

(** Number of calls to [fetch] issued by a run. *)
Definition fetch_count (evs : list Event) : nat :=
  length (List.filter is_fetch evs).

End Pipeline.

End Arm.

(** ** Parsed operations (openApiParser.ts) *)

Record ApiAnnotation : Type := {
  family : string;
  revision : Z;
  ann_status : string
}.

Inductive ParamIn : Type := InPath | InQuery | InHeader | InBody.

Record ParsedParameter : Type := {
  p_name : string;
  p_in : ParamIn;
  p_type : string;
  p_required : bool;
  p_description : string
}.

Record ParsedBodyProperty : Type := {
  bp_name : string;
  bp_type : string;
  bp_format : option string;
  bp_description : string;
  bp_required : bool;
  bp_visibility : string
}.

(** [properties] is a JavaScript object used as a map; its entries are
    kept in insertion order. *)
Record ParsedRequestBody : Type := {
  rb_required : bool;
  requiredFields : list string;
  properties : list (string * ParsedBodyProperty)
}.

(** [op_ref] is the identity of the JavaScript object: [Set.has] and
    [===] compare operations by reference, not by content. *)
Record ParsedOperation : Type := {
  op_ref : nat;
  operationId : string;
  method : string;
  path : string;
  summary : string;
  description : string;
  deprecated : bool;
  visibility : string;
  isTrigger : bool;
  apiAnnotation : option ApiAnnotation;
  parameters : list ParsedParameter;
  requestBody : option ParsedRequestBody
}.

(** [s.startsWith(p)], returning what follows the prefix. *)
Fixpoint strip_prefix (p s : string) : option string :=
  match p, s with
  | EmptyString, _ => Some s
  | String a p', String b s' => if Ascii.eqb a b then strip_prefix p' s' else None
  | String _ _, EmptyString => None
  end.

Definition startsWith (s p : string) : bool :=
  match strip_prefix p s with Some _ => true | None => false end.

(** First occurrence of [pat] in [s]: what precedes it and what follows. *)
Fixpoint find_sub (pat s : string) : option (string * string) :=
  match strip_prefix pat s with
  | Some rest => Some (EmptyString, rest)
  | None =>
      match s with
      | EmptyString => None
      | String c t =>
          match find_sub pat t with
          | Some (before, after) => Some (String c before, after)
          | None => None
          end
      end
  end.

(** [s.includes(pat)] *)
Definition includes (s pat : string) : bool :=
  match find_sub pat s with Some _ => true | None => false end.

(** *** Family deduplication *)

(** [op.apiAnnotation?.family] when it is truthy (a non-empty string). *)
Definition family_of (op : ParsedOperation) : option string :=
  match apiAnnotation op with
  | Some ann => if String.eqb (family ann) "" then None else Some (family ann)
  | None => None
  end.

(** [op.apiAnnotation!.revision] *)
Definition revision_of (op : ParsedOperation) : Z :=
  match apiAnnotation op with
  | Some ann => revision ann
  | None => 0
  end.

(** One iteration of the first loop of [deduplicateByFamily]. *)
Definition familyMap_step (familyMap : gmap string ParsedOperation)
  (op : ParsedOperation) : gmap string ParsedOperation :=
  match family_of op with
  | Some fam =>
      match familyMap !! fam with
      | None => <[fam := op]> familyMap
      | Some existing =>
          if (revision_of existing <? revision_of op)%Z
          then <[fam := op]> familyMap
          else familyMap
      end
  | None => familyMap
  end.

Definition build_familyMap (ops : list ParsedOperation) : gmap string ParsedOperation :=
  foldl familyMap_step ∅ ops.

(** [new Set(familyMap.values())]: a set of object references. *)
Definition familyOps_of (familyMap : gmap string ParsedOperation) : gset nat :=
  list_to_set (op_ref <$> (map_to_list familyMap).*2).

(** The test of the second loop. *)
Definition survives (familyOps : gset nat) (op : ParsedOperation) : bool :=
  match family_of op with
  | Some _ => bool_decide (op_ref op ∈ familyOps)
  | None => negb (deprecated op)
  end.

Definition deduplicateByFamily (ops : list ParsedOperation) : list ParsedOperation :=
  let familyMap := build_familyMap ops in
  let familyOps := familyOps_of familyMap in
  List.filter (survives familyOps) ops.

(** The predicate of [ops.filter(...)] in [filterOperations]. *)
Definition passes_filters (op : ParsedOperation) : bool :=
  if String.eqb (visibility op) "internal" then false
  else if isTrigger op then false
  else if includes (path op) "$subscriptions" then false
  else true.

Definition filterOperations (ops : list ParsedOperation) : list ParsedOperation :=
  let filtered := List.filter passes_filters ops in
  deduplicateByFamily filtered.

(** *** The family-deduplication property, as the specification words it *)

(** Operations of [l] that carry family [fam]. *)
Definition members (fam : string) (l : list ParsedOperation) : list ParsedOperation :=
  List.filter (fun op => bool_decide (family_of op = Some fam)) l.

(** [w] is the first member of [fam] in [input] whose revision is the
    maximum of the family. *)
Definition first_max (fam : string) (input : list ParsedOperation)
  (w : ParsedOperation) : Prop :=
  exists before after : list ParsedOperation,
    input = (before ++ w :: after)%list
    /\ family_of w = Some fam
    /\ (forall o, In o before -> family_of o = Some fam -> (revision_of o < revision_of w)%Z)
    /\ (forall o, In o after -> family_of o = Some fam -> (revision_of o <= revision_of w)%Z).

Record dedup_spec (input output : list ParsedOperation) : Prop := {
  (* exactly one member per family present, the first of maximal revision *)
  spec_family : forall fam o,
    In o input -> family_of o = Some fam ->
    exists w, members fam output = [w] /\ first_max fam input w;
  (* operations without a family survive iff not deprecated *)
  spec_nofamily : forall o,
    family_of o = None -> (In o output <-> In o input /\ deprecated o = false);
  (* survivors keep their input order *)
  spec_order : sublist output input
}.

(** What the first loop of [deduplicateByFamily] has computed after
    reading [pre]: each family seen so far maps to its first member of
    maximal revision. *)
Definition fm_inv (pre : list ParsedOperation)
  (m : gmap string ParsedOperation) : Prop :=
  forall fam,
    match m !! fam with
    | None => forall o, In o pre -> family_of o <> Some fam
    | Some w => first_max fam pre w
    end.

(** ** The dynamicInvoke translator (dynamicTools.ts) *)

Record ArmContext : Type := {
  subscriptionId : string;
  resourceGroup : string;
  location : string
}.

Record ConnectionInfo : Type := {
  conn_name : string;
  apiName : string;
  displayName : string;
  conn_status : string;
  apiId : string
}.

Module Invoke.

(** [GetSubstitution] of [String.prototype.replace] for a string pattern
    (no capture groups): in the replacement text [$$] stands for a dollar,
    [$&] for the matched text, [$`] for what precedes the match and [$']
    for what follows it; every other character is copied. *)
Fixpoint GetSubstitution (matched before after replacement : string) : string :=
  match replacement with
  | EmptyString => EmptyString
  | String c rest =>
      if Ascii.eqb c "$" then
        match rest with
        | String d rest' =>
            if Ascii.eqb d "$" then String "$" (GetSubstitution matched before after rest')
            else if Ascii.eqb d "&" then matched +:+ GetSubstitution matched before after rest'
            else if Ascii.eqb d "`" then before +:+ GetSubstitution matched before after rest'
            else if Ascii.eqb d "'" then after +:+ GetSubstitution matched before after rest'
            else String c (GetSubstitution matched before after rest)
        | EmptyString => String c EmptyString
        end
      else String c (GetSubstitution matched before after rest)
  end.

(** [s.replace(pattern, replacement)] with a string pattern: the first
    occurrence only. *)
Definition replace (s pattern replacement : string) : string :=
  match find_sub pattern s with
  | Some (before, after) =>
      before +:+ GetSubstitution pattern before after replacement +:+ after
  | None => s
  end.

(** [op.path.replace(/^\/{connectionId}/, "")] *)
Definition strip_connectionId (path : string) : string :=
  match strip_prefix "/{connectionId}" path with
  | Some rest => rest
  | None => path
  end.

(** The [request] object posted to [dynamicInvoke]; an absent key is
    [None]. *)
Record Request : Type := {
  req_method : string;
  req_path : string;
  req_headers : option (list (string * string));
  req_body : option (gmap string json);
  req_queries : option (gmap string string)
}.

Section Translator.

Variable JSON_parse : string -> option json.

(** One iteration of [for (const param of op.parameters)]. *)
Definition param_step (params : gmap string json)
  (acc : string * gmap string string) (param : ParsedParameter)
  : string * gmap string string :=
  let '(invokePath, queries) := acc in
  if String.eqb (p_name param) "connectionId" then acc
  else
    let sanitized := sanitizeKey (p_name param) in
    match params !! sanitized with
    | None => acc
    | Some val =>
        match p_in param with
        | InPath =>
            (replace invokePath ("{" +:+ p_name param +:+ "}") (Js.String_ val), queries)
        | InQuery => (invokePath, <[p_name param := Js.String_ val]> queries)
        | _ => acc
        end
    end.

(** The two components of the parameter loop evolve independently: the
    path and the queries after one iteration. *)
Definition path_step (params : gmap string json) (invokePath : string)
  (param : ParsedParameter) : string :=
  fst (param_step params (invokePath, ∅) param).

Definition query_step (params : gmap string json) (queries : gmap string string)
  (param : ParsedParameter) : gmap string string :=
  snd (param_step params (EmptyString, queries) param).


(** [params[sanitized] ?? params[`body_${sanitized}`]] *)
Definition body_value (params : gmap string json) (name : string) : option json :=
  let sanitized := sanitizeKey name in
  Js.coalesce (params !! sanitized) (params !! ("body_" +:+ sanitized)).

(** One iteration of the loop over [Object.entries(op.requestBody.properties)]. *)
Definition body_step (params : gmap string json) (body : gmap string json)
  (entry : string * ParsedBodyProperty) : gmap string json :=
  let '(name, prop) := entry in
  match body_value params name with
  | None => body
  | Some val =>
      if (String.eqb (bp_type prop) "object" || String.eqb (bp_type prop) "string (JSON)")
         && Js.is_string val
      then
        match val with
        | JStr s =>
            match JSON_parse s with
            | Some parsed => <[name := parsed]> body
            | None => <[name := val]> body
            end
        | _ => <[name := val]> body
        end
      else <[name := val]> body
  end.

(** The envelope built by [invokeDynamicTool] before it is posted. *)
Definition build_request (op : ParsedOperation) (params : gmap string json) : Request :=
  let invokePath := strip_connectionId (path op) in
  let '(invokePath, queries) :=
    foldl (param_step params) (invokePath, ∅) (parameters op) in
  let body : option (gmap string json) :=
    match requestBody op with
    | Some rb => Some (foldl (body_step params) ∅ (properties rb))
    | None => None
    end in
  let with_body :=
    match body with
    | Some b => negb (bool_decide (b = ∅))
    | None => false
    end in
  {| req_method := toUpperCase (method op);
     req_path := invokePath;
     req_headers := if with_body then Some [("Content-Type", "application/json")] else None;
     req_body := if with_body then body else None;
     req_queries := if bool_decide (queries = ∅) then None else Some queries |}.

(** The tool result: one text block, flagged when it reports an error. *)
Record ToolResult : Type := { text : string; isError : bool }.

Variable JSON_stringify : json -> string.

(** [invokeDynamicTool]: [tokenProvider] is what awaiting the token
    provider gives, [armRequest path request] what the POST of the
    envelope [{ request }] to [path] gives. *)
Definition invokeDynamicTool (conn : ConnectionInfo) (op : ParsedOperation)
  (params : gmap string json) (tokenProvider : Outcome string)
  (armContext : ArmContext)
  (armRequest : string -> Request -> Outcome json) : ToolResult :=
  let failed (e : JsError) :=
    {| text := "Error invoking " +:+ apiName conn +:+ "/" +:+ operationId op
               +:+ ": " +:+ error_message e;
       isError := true |} in
  let request := build_request op params in
  match tokenProvider with
  | Throws e => failed e
  | Returns _ =>
      let dynamicPath :=
        "/subscriptions/" +:+ subscriptionId armContext
        +:+ "/resourceGroups/" +:+ resourceGroup armContext
        +:+ "/providers/Microsoft.Web/connections/" +:+ conn_name conn
        +:+ "/dynamicInvoke" in
      match armRequest dynamicPath request with
      | Throws e => failed e
      | Returns result =>
          let inner :=
            match Js.prop "response" result with
            | Some response => Js.prop "body" response
            | None => None
            end in
          {| text := JSON_stringify (Js.coalesce_default inner result);
             isError := false |}
      end
  end.

End Translator.

(** *** The path rule as the specification words it *)


(** [{origName}] replaced by the string form of the value, as it is. *)
Definition substitute_value (path name value : string) : string :=
  match find_sub ("{" +:+ name +:+ "}") path with
  | Some (before, after) => before +:+ value +:+ after
  | None => path
  end.

(** The invocation path of the specification: the [/{connectionId}]
    prefix stripped once, then each supplied path parameter substituted. *)
Definition spec_path (op : ParsedOperation) (params : gmap string json) : string :=
  foldl
    (fun invokePath param =>
       if String.eqb (p_name param) "connectionId" then invokePath
       else match p_in param, params !! sanitizeKey (p_name param) with
            | InPath, Some val => substitute_value invokePath (p_name param) (Js.String_ val)
            | _, _ => invokePath
            end)
    (strip_connectionId (path op)) (parameters op).

End Invoke.

(** ** The tool registry and its lifecycle (dynamicTools.ts, metaTools.ts) *)

Record DynamicToolContext : Type := {
  connection : ConnectionInfo;
  operation : ParsedOperation
}.

(** An ARM connection resource, as far as [extractConnectionInfo] reads
    it; [None] is a missing (undefined) member. *)
Record ArmApiRef : Type := { api_name : string; api_id : string }.

Record ArmConnectionProperties : Type := {
  prop_displayName : string;
  overallStatus : option string;
  api : option ArmApiRef
}.

Record ArmConnection : Type := {
  c_name : string;
  c_properties : option ArmConnectionProperties
}.

(** What the module does to the outside world, in order of occurrence. *)
Inductive Effect : Type :=
| TokenRequested                           (* [await tokenProvider()] *)
| ArmListConnections                       (* GET .../connections *)
| ArmGetManagedApi (apiName : string)      (* GET .../managedApis/<apiName>?export=true *)
| ServerTool (toolName : string)           (* [server.tool(toolName, ...)] *)
| SendNotification (method : string)       (* [server.server.sendNotification(method)] *)
| Log (level message : string).            (* [logger.<level>(message)] *)

Definition is_notification (e : Effect) : bool :=
  match e with SendNotification _ => true | _ => false end.

Definition is_arm_request (e : Effect) : bool :=
  match e with ArmListConnections | ArmGetManagedApi _ => true | _ => false end.

Definition count (p : Effect -> bool) (l : list Effect) : nat :=
  length (List.filter p l).

(** The two module-level maps, and the effects emitted so far. *)
Record State : Type := {
  toolRegistry : gmap string DynamicToolContext;
  schemaCache : gmap string json;
  history : list Effect
}.

Definition initial : State :=
  {| toolRegistry := ∅; schemaCache := ∅; history := [] |}.

Record Tally : Type := { registered : nat; skipped : nat; errors : nat }.

Definition zeros : Tally := {| registered := 0; skipped := 0; errors := 0 |}.

(** *** A state-and-exception monad for the module's functions *)

Definition M (A : Type) : Type := State -> Outcome A * State.

Definition ret {A} (a : A) : M A := fun s => (Returns a, s).

Definition throw {A} (e : JsError) : M A := fun s => (Throws e, s).

Definition bind {A B} (m : M A) (k : A -> M B) : M B :=
  fun s =>
    match m s with
    | (Returns a, s') => k a s'
    | (Throws e, s') => (Throws e, s')
    end.

(** [try { m } catch (err) { handler err }] *)
Definition try_catch {A} (m : M A) (handler : JsError -> M A) : M A :=
  fun s =>
    match m s with
    | (Returns a, s') => (Returns a, s')
    | (Throws e, s') => handler e s'
    end.

Definition lift {A} (o : Outcome A) : M A := fun s => (o, s).

Notation "'let!' x := m 'in' k" := (bind m (fun x => k))
  (at level 10, x name, m at level 100, k at level 200).

(** The state once one more effect has been emitted. *)
Definition record (e : Effect) (s : State) : State :=
  {| toolRegistry := toolRegistry s; schemaCache := schemaCache s;
     history := history s ++ [e] |}.

Definition emit (e : Effect) : M unit := fun s => (Returns tt, record e s).

Definition getToolRegistry : M (gmap string DynamicToolContext) :=
  fun s => (Returns (toolRegistry s), s).

Definition get_cache : M (gmap string json) :=
  fun s => (Returns (schemaCache s), s).

(** The state with another registry. *)
Definition with_registry (registry : gmap string DynamicToolContext) (s : State) : State :=
  {| toolRegistry := registry; schemaCache := schemaCache s; history := history s |}.

(** [toolRegistry.set(toolName, ctx)] *)
Definition registry_set (toolName : string) (ctx : DynamicToolContext) : M unit :=
  fun s => (Returns tt, with_registry (<[toolName := ctx]> (toolRegistry s)) s).

(** The state with another schema cache. *)
Definition with_cache (cache : gmap string json) (s : State) : State :=
  {| toolRegistry := toolRegistry s; schemaCache := cache; history := history s |}.

(** [schemaCache.set(apiName, swagger)] *)
Definition cache_set (apiName : string) (swagger : json) : M unit :=
  fun s => (Returns tt, with_cache (<[apiName := swagger]> (schemaCache s)) s).

Definition clearSchemaCache : M unit :=
  fun s => (Returns tt, with_cache ∅ s).

Definition clearToolRegistry : M unit :=
  fun s => (Returns tt, with_registry ∅ s).

(** [for (const key of toolRegistry.keys()) if (key.startsWith(prefix)) ...] *)
Definition has_prefix (registry : gmap string DynamicToolContext) (prefix : string) : bool :=
  existsb (fun key => startsWith key prefix) (map_to_list registry).*1.

Definition extractConnectionInfo (c : ArmConnection) : Outcome ConnectionInfo :=
  match c_properties c with
  | None => Throws (TypeError "Cannot read properties of undefined (reading 'api')")
  | Some properties =>
      match api properties with
      | None => Throws (TypeError "Cannot read properties of undefined (reading 'name')")
      | Some api =>
          Returns {| conn_name := c_name c;
                     apiName := api_name api;
                     displayName := prop_displayName properties;
                     conn_status := default "Unknown" (overallStatus properties);
                     apiId := api_id api |}
      end
  end.

Section Lifecycle.

(** The collaborators of the module.  Each one may answer according to
    everything that happened before (the history), so that consecutive
    calls can be answered differently. *)
Variable tokenProvider : list Effect -> Outcome string.
Variable armListConnections : list Effect -> Outcome (option (list ArmConnection)).
Variable armGetManagedApi : list Effect -> string -> Outcome json.
(** [server.tool] throws when the registrar refuses the name. *)
Variable server_tool : list Effect -> string -> option JsError.
(** [parseOpenApiSpec(swagger, apiName)] of openApiParser.ts: a pure
    function of the document, which throws on a document without
    [paths]. *)
Variable parseOpenApiSpec : json -> string -> Outcome (list ParsedOperation).

Definition await_token : M string :=
  fun s =>
    (tokenProvider (history s), record TokenRequested s).

Definition arm_list_connections : M (option (list ArmConnection)) :=
  fun s =>
    (armListConnections (history s), record ArmListConnections s).

Definition arm_get_managed_api (apiName : string) : M json :=
  fun s =>
    (armGetManagedApi (history s) apiName, record (ArmGetManagedApi apiName) s).

Definition call_server_tool (toolName : string) : M unit :=
  fun s =>
    match server_tool (history s) toolName with
    | Some e => (Throws e, s)
    | None => (Returns tt, record (ServerTool toolName) s)
    end.

(** The debug message of the source spells the URL of the request; it is
    abbreviated here. *)
Definition fetchApiSchema (apiName : string) : M json :=
  let! cache := get_cache in
  match cache !! apiName with
  | Some cached => ret cached
  | None =>
      let! _ := emit (Log "debug" ("Fetching API schema for " +:+ apiName)) in
      let! result := arm_get_managed_api apiName in
      (* [result ?? null]: a [json] is never [undefined] *)
      let swagger := result in
      let! _ :=
        if Js.truthy swagger then cache_set apiName swagger
        else emit (Log "warn" ("No embedded swagger in response for " +:+ apiName)) in
      ret swagger
  end.

(** The loop of [registerOps], with its two counters.  The description
    and the input schema handed to [server.tool] are not modelled. *)
Fixpoint registerOps_loop (conn : ConnectionInfo) (ops : list ParsedOperation)
  (registered skipped : nat) : M (nat * nat) :=
  match ops with
  | [] => ret (registered, skipped)
  | op :: rest =>
      let toolName := buildToolName (apiName conn) (operationId op) in
      let! registry := getToolRegistry in
      match registry !! toolName with
      | Some _ => registerOps_loop conn rest registered (S skipped)
      | None =>
          let! _ := call_server_tool toolName in
          let! _ := registry_set toolName {| connection := conn; operation := op |} in
          registerOps_loop conn rest (S registered) skipped
      end
  end.

Definition registerOps (conn : ConnectionInfo) (ops : list ParsedOperation)
  : M (nat * nat) :=
  registerOps_loop conn ops 0 0.

(** The body of the loop of [registerDynamicTools] over the connections. *)
Definition scan_connection (c : ArmConnection) (tally : Tally) : M Tally :=
  try_catch
    (let! conn := lift (extractConnectionInfo c) in
     let! swagger := fetchApiSchema (apiName conn) in
     if negb (Js.truthy swagger) then
       let! _ := emit (Log "warn" ("No swagger for " +:+ apiName conn +:+ ", skipping")) in
       ret tally
     else
       let! allOps := lift (parseOpenApiSpec swagger (apiName conn)) in
       let ops := filterOperations allOps in
       let! stats := registerOps conn ops in
       ret {| registered := registered tally + fst stats;
              skipped := skipped tally + snd stats;
              errors := errors tally |})
    (fun err =>
       let! _ := emit (Log "error" ("Error registering tools for connection "
                                    +:+ c_name c +:+ ": " +:+ error_message err)) in
       ret {| registered := registered tally; skipped := skipped tally;
              errors := S (errors tally) |}).

Fixpoint scan_connections (connections : list ArmConnection) (tally : Tally) : M Tally :=
  match connections with
  | [] => ret tally
  | c :: rest =>
      let! tally := scan_connection c tally in
      scan_connections rest tally
  end.

Definition tally_text (t : Tally) : string :=
  pretty (registered t) +:+ " registered, " +:+ pretty (skipped t)
  +:+ " skipped, " +:+ pretty (errors t) +:+ " errors".

Definition registerDynamicTools : M Tally :=
  let! token := await_token in
  let! connResult := arm_list_connections in
  let connections := default [] connResult in
  let! tally := scan_connections connections zeros in
  let! _ := emit (Log "info" ("Dynamic tools: " +:+ tally_text tally)) in
  ret tally.

Definition registerToolsForConnection (connectionResponse : ArmConnection) : M Tally :=
  try_catch
    (let! conn := lift (extractConnectionInfo connectionResponse) in
     let prefix := apiName conn +:+ "_" in
     let! registry := getToolRegistry in
     if has_prefix registry prefix then
       let! _ := emit (Log "info" ("Tools for " +:+ apiName conn
                                   +:+ " already registered, skipping")) in
       ret zeros
     else
       let! token := await_token in
       let! swagger := fetchApiSchema (apiName conn) in
       if negb (Js.truthy swagger) then
         let! _ := emit (Log "warn" ("No swagger for " +:+ apiName conn)) in
         ret zeros
       else
         let! allOps := lift (parseOpenApiSpec swagger (apiName conn)) in
         let ops := filterOperations allOps in
         let! stats := registerOps conn ops in
         let! _ :=
           if (0 <? fst stats)%nat
           then emit (SendNotification "notifications/tools/list_changed")
           else ret tt in
         ret {| registered := fst stats; skipped := snd stats; errors := 0 |})
    (fun err =>
       let! _ := emit (Log "error" ("Error registering tools for connection: "
                                    +:+ error_message err)) in
       ret {| registered := 0; skipped := 0; errors := 1 |}).

(** The handler of the [refresh_tools] meta-tool. *)
Definition refresh_tools : M Invoke.ToolResult :=
  try_catch
    (let! _ := clearSchemaCache in
     let! result := registerDynamicTools in
     ret {| Invoke.text :=
              "Refresh complete. Registered: " +:+ pretty (registered result)
              +:+ ", Skipped: " +:+ pretty (skipped result)
              +:+ ", Errors: " +:+ pretty (errors result);
            Invoke.isError := false |})
    (fun error =>
       let msg := error_message error in
       let! _ := emit (Log "error" ("Error refreshing tools: " +:+ msg)) in
       ret {| Invoke.text := "Error refreshing tools: " +:+ msg;
              Invoke.isError := true |}).

(** *** Reachable states *)

(** The operations of the module that write to its state. *)
Inductive step : State -> State -> Prop :=
| step_startup s : step s (snd (registerDynamicTools s))
| step_incremental c s : step s (snd (registerToolsForConnection c s))
| step_refresh s : step s (snd (refresh_tools s))
| step_clearToolRegistry s : step s (snd (clearToolRegistry s))
| step_clearSchemaCache s : step s (snd (clearSchemaCache s)).

Inductive reachable : State -> Prop :=
| reachable_initial : reachable initial
| reachable_step s s' : reachable s -> step s s' -> reachable s'.

End Lifecycle.

(** The history seen by ARM when [fetchApiSchema] sends its request. *)
Definition history_at_fetch (apiName : string) (s : State) : list Effect :=
  history s ++ [Log "debug" ("Fetching API schema for " +:+ apiName)].

(** Every key of the registry is the tool name of the entry it holds. *)
Definition registry_consistent (registry : gmap string DynamicToolContext) : Prop :=
  forall k v,
    registry !! k = Some v ->
    k = buildToolName (apiName (connection v)) (operationId (operation v)).

(** *** The managed-API document, as the specification words it *)

(** The Swagger document embedded in an ARM managed-API resource
    ([properties.swagger]); [None] when the resource has none. *)
Definition embedded_swagger (response : json) : option json :=
  match Js.prop "properties" response with
  | Some properties => Js.coalesce (Js.prop "swagger" properties) None
  | None => None
  end.

(** *** Relations between the states before and after a computation *)

Definition respects {A} (R : State -> State -> Prop) (m : M A) : Prop :=
  forall s, R s (snd (m s)).

(** A relation that every step of a registration keeps: emitting an
    effect other than a notification, writing to the schema cache, and
    registering an operation under its tool name when that name is free. *)
Class Stable (R : State -> State -> Prop) : Prop := {
  stable_preorder :: PreOrder R;
  stable_record : forall e s, is_notification e = false -> R s (record e s);
  stable_cache : forall cache s, R s (with_cache cache s);
  stable_register : forall conn op s,
    let toolName := buildToolName (apiName conn) (operationId op) in
    toolRegistry s !! toolName = None ->
    R s (with_registry
           (<[toolName := {| connection := conn; operation := op |}]> (toolRegistry s)) s)
}.

(** The registry only gains entries, each one under its own tool name. *)
Definition Extends (s s' : State) : Prop :=
  (forall k v, toolRegistry s !! k = Some v -> toolRegistry s' !! k = Some v)
  /\ (forall k v,
        toolRegistry s' !! k = Some v ->
        toolRegistry s !! k = Some v
        \/ k = buildToolName (apiName (connection v)) (operationId (operation v))).

(** No notification is sent. *)
Definition Quiet (s s' : State) : Prop :=
  count is_notification (history s') = count is_notification (history s).

(** Only the history changes, and no request goes to ARM. *)
Definition Offline (s s' : State) : Prop :=
  toolRegistry s' = toolRegistry s /\ schemaCache s' = schemaCache s
  /\ count is_arm_request (history s') = count is_arm_request (history s)
  /\ count is_notification (history s') = count is_notification (history s).
(** ** Further vocabulary: names in normal form *)


(** A name that key sanitisation has nothing to do on: not empty, at most
    64 characters of [[a-zA-Z0-9_.-]], no leading dot or hyphen, no two
    underscores in a row. *)
Definition clean_key (s : string) : bool :=
  negb (String.eqb s EmptyString)
  && (String.length s <=? 64)%nat
  && str_forall Char.is_key_char s
  && leading_ok s
  && no_double_underscore s.

(** ** The input-schema generator (zodGenerator.ts) *)

Module Schema.

(** The property names that every plain object inherits from
    [Object.prototype]: [k in obj] holds for them whatever [obj] holds. *)
Definition Object_prototype : list string :=
  ["constructor"; "__defineGetter__"; "__defineSetter__"; "hasOwnProperty";
   "__lookupGetter__"; "__lookupSetter__"; "isPrototypeOf";
   "propertyIsEnumerable"; "toString"; "valueOf"; "__proto__"; "toLocaleString"].

Definition inherited (k : string) : bool := existsb (String.eqb k) Object_prototype.

(** [k in obj], for an object literal used as a map. *)
Definition js_in {A : Type} (k : string) (obj : gmap string A) : bool :=
  bool_decide (is_Some (obj !! k)) || inherited k.

Section Generator.

(** The validators are values of the zod library; [zodForParam] and
    [zodForBodyProp] build them from a parameter and from a body
    property. *)
Context {ZodTypeAny : Type}.
Variable zodForParam : ParsedParameter -> ZodTypeAny.
Variable zodForBodyProp : ParsedBodyProperty -> ZodTypeAny.

(** One iteration of the loop over [op.parameters]. *)
Definition param_step (result : gmap string ZodTypeAny) (param : ParsedParameter)
  : gmap string ZodTypeAny :=
  if String.eqb (p_name param) "connectionId" then result
  else
    let key := sanitizeKey (p_name param) in
    <[key := zodForParam param]> result.

(** [prop.format === "binary"] *)
Definition is_binary (prop : ParsedBodyProperty) : bool :=
  match bp_format prop with
  | Some format => String.eqb format "binary"
  | None => false
  end.

(** One iteration of the loop over the body properties. *)
Definition body_step (result : gmap string ZodTypeAny)
  (entry : string * ParsedBodyProperty) : gmap string ZodTypeAny :=
  let '(name, prop) := entry in
  if is_binary prop then result
  else
    let sanitized := sanitizeKey name in
    let key := if js_in sanitized result then "body_" +:+ sanitized else sanitized in
    <[key := zodForBodyProp prop]> result.

Definition generateZodSchema (op : ParsedOperation) : gmap string ZodTypeAny :=
  let result := foldl param_step ∅ (parameters op) in
  match requestBody op with
  | Some rb => foldl body_step result (properties rb)
  | None => result
  end.

End Generator.

(** The parameters and the body properties that get a key. *)
Definition schema_params (op : ParsedOperation) : list ParsedParameter :=
  List.filter (fun param => negb (String.eqb (p_name param) "connectionId"))
    (parameters op).

Definition schema_props (op : ParsedOperation) : list (string * ParsedBodyProperty) :=
  match requestBody op with
  | Some rb => List.filter (fun entry => negb (is_binary entry.2)) (properties rb)
  | None => []
  end.

(** Their sanitised names, parameters first. *)
Definition schema_names (op : ParsedOperation) : list string :=
  ((fun param => sanitizeKey (p_name param)) <$> schema_params op)
  ++ ((fun entry : string * ParsedBodyProperty => sanitizeKey entry.1) <$> schema_props op).

End Schema.

(** [result[key] = value] for each pair of a list, from left to right. *)
Definition set_all {V : Type} (result : gmap string V) (pairs : list (string * V))
  : gmap string V :=
  foldl (fun m kv => <[kv.1 := kv.2]> m) result pairs.

(** ** Runs of [armRequest], attempt by attempt *)

Module ArmRun.

(** The events of a run that ends at its [(a + n)]-th call to [fetch],
    after [n] retries that started at attempt [a]. *)
Fixpoint rounds (a n : nat) : list Arm.Event :=
  match n with
  | O => [Arm.EvFetch a]
  | S n' => Arm.EvFetch a :: Arm.EvSleep a :: rounds (S a) n'
  end.

Section Run.

Variable JSON_parse : string -> option json.

(** What an attempt settles when it ends the call whatever the retry
    budget: a decoded body, or the error of a status that is neither OK
    nor retryable.  [None] for the attempts that ask for a retry (a 429 or
    a status of 500 and above, a failure below the HTTP level, an OK
    response whose body is not JSON). *)
Definition settles (f : Arm.FetchResult) : option (Outcome json) :=
  match f with
  | Arm.FetchRejects _ => None
  | Arm.FetchResolves r =>
      if Arm.ok r then
        match Arm.body r with
        | Arm.BodyFails _ => None
        | Arm.BodyText text =>
            if String.eqb text EmptyString then Some (Returns (JObj []))
            else match JSON_parse text with
                 | Some v => Some (Returns v)
                 | None => None
                 end
        end
      else if Arm.isRetryable (Arm.status r) then None
      else Some (Throws (Arm.shape_error JSON_parse r))
  end.


End Run.

End ArmRun.

(** ** Accounts of the registration functions *)

Definition is_server_tool (e : Effect) : bool :=
  match e with ServerTool _ => true | _ => false end.

Definition is_token_request (e : Effect) : bool :=
  match e with TokenRequested => true | _ => false end.

(** The tool names of a list of operations of one connection. *)
Definition tool_names (conn : ConnectionInfo) (ops : list ParsedOperation) : list string :=
  (fun op => buildToolName (apiName conn) (operationId op)) <$> ops.

(** The tools that the server was given so far. *)
Definition served (s : State) : nat := count is_server_tool (history s).

(** The part of a state that [registerOps] leaves alone. *)
Definition same_requests (s s' : State) : Prop :=
  schemaCache s' = schemaCache s
  /\ count is_token_request (history s') = count is_token_request (history s)
  /\ count is_arm_request (history s') = count is_arm_request (history s)
  /\ count is_notification (history s') = count is_notification (history s).


(** ** Where the entries of the two maps come from *)

Section Provenance.

Variable armGetManagedApi : list Effect -> string -> Outcome json.

(** Among the effects [evs] that followed the history [h0] there is a
    request to ARM for the managed API [apiName], and [swagger] is the
    truthy answer it got. *)
Definition fetched_in (h0 evs : list Effect) (apiName : string) (swagger : json) : Prop :=
  Js.truthy swagger = true
  /\ exists evs1 evs2,
       evs = evs1 ++ ArmGetManagedApi apiName :: evs2
       /\ armGetManagedApi (h0 ++ evs1) apiName = Returns swagger.

(** From [s] to [s'] the history only grew; every entry that the schema
    cache gained is the answer to a request sent meanwhile, and every
    entry that the registry gained was given to the server meanwhile. *)
Definition Tracks (s s' : State) : Prop :=
  exists evs,
    history s' = history s ++ evs
    /\ (forall k v, schemaCache s' !! k = Some v ->
          schemaCache s !! k = Some v \/ fetched_in (history s) evs k v)
    /\ (forall k ctx, toolRegistry s' !! k = Some ctx ->
          toolRegistry s !! k = Some ctx \/ In (ServerTool k) evs).

End Provenance.

(** ** What the translator stores for a body property *)

(** [prop.type === "object" || prop.type === "string (JSON)"] *)
Definition is_object_typed (prop : ParsedBodyProperty) : bool :=
  String.eqb (bp_type prop) "object" || String.eqb (bp_type prop) "string (JSON)".

(** The value stored for a supplied one: a string supplied for an
    object-typed property is decoded when it is JSON text; every other
    value is stored as it is. *)
Definition body_entry (JSON_parse : string -> option json)
  (prop : ParsedBodyProperty) (val : json) : json :=
  match val with
  | JStr s => if is_object_typed prop then default val (JSON_parse s) else val
  | _ => val
  end.

(** ** The callers of the registration functions *)

(** The tools that tools/managedApis.ts and tools/connections.ts give to
    the server, and those of tools/metaTools.ts. *)
Definition static_tool_names : list string :=
  ["list_managed_apis"; "put_connection"; "list_connections"; "get_consent_link"].

Definition meta_tool_names : list string := ["list_dynamic_tools"; "refresh_tools"].



Section Callers.

Variable tokenProvider : list Effect -> Outcome string.
Variable armListConnections : list Effect -> Outcome (option (list ArmConnection)).
Variable armGetManagedApi : list Effect -> string -> Outcome json.
Variable server_tool : list Effect -> string -> option JsError.
Variable parseOpenApiSpec : json -> string -> Outcome (list ParsedOperation).
(** What ARM answers to the PUT of a connection resource.  The request is
    not an effect of the dynamic-tools module and is not recorded. *)
Variable armPutConnection : list Effect -> string -> Outcome ArmConnection.

Definition configureManagedApiTools : M unit :=
  call_server_tool server_tool "list_managed_apis".

Definition configureConnectionTools : M unit :=
  let! _ := call_server_tool server_tool "put_connection" in
  let! _ := call_server_tool server_tool "list_connections" in
  call_server_tool server_tool "get_consent_link".

Definition configureStaticTools : M unit :=
  let! _ := configureManagedApiTools in
  configureConnectionTools.

Definition configureMetaTools : M unit :=
  let! _ := call_server_tool server_tool "list_dynamic_tools" in
  call_server_tool server_tool "refresh_tools".

(** The [try] statement of [configureAllTools]. *)
Definition register_at_startup : M unit :=
  try_catch
    (let! result := registerDynamicTools tokenProvider armListConnections
                      armGetManagedApi server_tool parseOpenApiSpec in
     emit (Log "info" "Dynamic tools registered"))
    (fun error =>
       emit (Log "warn"
               "Dynamic tool registration failed, continuing with static tools only")).

Definition configureAllTools : M unit :=
  let! _ := configureStaticTools in
  let! _ := register_at_startup in
  configureMetaTools.


End Callers.

(** ** The user agent (useragent.ts) *)

Module UserAgent.

Record UserAgentComposer : Type := {
  _userAgent : string;
  _mcpClientInfoAppended : bool
}.

(** What [server.server.getClientVersion()] gives, when it gives something. *)
Record ClientInfo : Type := { name : option string; version : option string }.

Definition constructor (packageVersion : string) : UserAgentComposer :=
  {| _userAgent := "ARMConnections.MCP/" +:+ packageVersion +:+ " (local)";
     _mcpClientInfoAppended := false |}.

Definition userAgent (this : UserAgentComposer) : string := _userAgent this.

(** A string that is there and truthy. *)
Definition present (field : option string) : option string :=
  match field with
  | Some text => if String.eqb text EmptyString then None else Some text
  | None => None
  end.

Definition appendMcpClientInfo (this : UserAgentComposer) (info : option ClientInfo)
  : UserAgentComposer :=
  match info with
  | Some info =>
      match _mcpClientInfoAppended this, present (name info), present (version info) with
      | false, Some name, Some version =>
          {| _userAgent := _userAgent this +:+ " " +:+ name +:+ "/" +:+ version;
             _mcpClientInfoAppended := true |}
      | _, _, _ => this
      end
  | None => this
  end.

(** The suffix that a client info adds, when it can be used. *)
Definition suffix (info : option ClientInfo) : option string :=
  match info with
  | Some info =>
      match present (name info), present (version info) with
      | Some name, Some version => Some (" " +:+ name +:+ "/" +:+ version)
      | _, _ => None
      end
  | None => None
  end.

End UserAgent.

(** ** How often a schema is fetched *)

(** The effect is a request to ARM for the managed API [apiName]. *)
Definition is_fetch_of (apiName : string) (e : Effect) : bool :=
  match e with
  | ArmGetManagedApi requested => String.eqb requested apiName
  | _ => false
  end.

(** From [s] to [s'] the schema cache only grew, and the managed API
    [apiName] was requested once when its schema entered the cache, and
    not at all otherwise. *)
Definition FetchedOnce (apiName : string) (s s' : State) : Prop :=
  schemaCache s ⊆ schemaCache s'
  /\ (is_Some (schemaCache s !! apiName) ->
      count (is_fetch_of apiName) (history s')
      = count (is_fetch_of apiName) (history s))
  /\ (schemaCache s !! apiName = None ->
      (schemaCache s' !! apiName = None
       /\ count (is_fetch_of apiName) (history s')
          = count (is_fetch_of apiName) (history s))
      \/ (is_Some (schemaCache s' !! apiName)
          /\ count (is_fetch_of apiName) (history s')
             = S (count (is_fetch_of apiName) (history s)))).

(** ** Fixtures (after the test suites of the repository) *)

Module Fixtures.

(** [makeOperation] of dynamicTools.test.ts: a visible, non-deprecated
    [SendEmail] whose only parameter is [connectionId]. *)
Definition connectionIdParam : ParsedParameter :=
  {| p_name := "connectionId"; p_in := InPath; p_type := "string";
     p_required := true; p_description := "" |}.

Definition makeOperation (ref : nat) (id : string) : ParsedOperation :=
  {| op_ref := ref; operationId := id; method := "post";
     path := "/{connectionId}/v2/Mail"; summary := "Send an email";
     description := "Sends an email message"; deprecated := false;
     visibility := "none"; isTrigger := false; apiAnnotation := None;
     parameters := [connectionIdParam]; requestBody := None |}.

Definition with_family (fam : string) (rev : Z) (dep : bool)
  (op : ParsedOperation) : ParsedOperation :=
  {| op_ref := op_ref op; operationId := operationId op; method := method op;
     path := path op; summary := summary op; description := description op;
     deprecated := dep; visibility := visibility op; isTrigger := isTrigger op;
     apiAnnotation := Some {| family := fam; revision := rev; ann_status := "Production" |};
     parameters := parameters op; requestBody := requestBody op |}.

Definition with_visibility (v : string) (op : ParsedOperation) : ParsedOperation :=
  {| op_ref := op_ref op; operationId := operationId op; method := method op;
     path := path op; summary := summary op; description := description op;
     deprecated := deprecated op; visibility := v; isTrigger := isTrigger op;
     apiAnnotation := apiAnnotation op;
     parameters := parameters op; requestBody := requestBody op |}.

(** Scenario S3: [DeleteMessage] (revision 1, deprecated) and
    [DeleteMessageV2] (revision 2) of one family, then an operation
    without family. *)
Definition deleteMessage : ParsedOperation :=
  with_family "DeleteMessage" 1 true (makeOperation 0 "DeleteMessage").
Definition deleteMessageV2 : ParsedOperation :=
  with_family "DeleteMessage" 2 false (makeOperation 1 "DeleteMessageV2").
Definition sendEmail : ParsedOperation := makeOperation 2 "SendEmail".

(** An operation hidden by [x-ms-visibility: internal]. *)
Definition internalOp : ParsedOperation :=
  with_visibility "internal" (makeOperation 0 "GetInternalState").

End Fixtures.

Module ArmFixtures.

(** The mocks of arm.test.ts: [makeResponse(status, body)]. *)
Definition makeResponse (status : Z) (text : string) : Arm.Response :=
  {| Arm.status := status; Arm.retryAfter := None; Arm.body := Arm.BodyText text |}.

(** A mock HTTP layer that answers the same response every time. *)
Definition always (r : Arm.Response) : nat -> Arm.FetchResult :=
  fun _ => Arm.FetchResolves r.

Definition quoted (s : string) : string :=
  String (ascii_of_nat 34) s +:+ String (ascii_of_nat 34) EmptyString.

Definition invalidParameterText : string :=
  "{" +:+ quoted "error" +:+ ":{" +:+ quoted "code" +:+ ":"
  +:+ quoted "InvalidParameter" +:+ "," +:+ quoted "message" +:+ ":"
  +:+ quoted "bad" +:+ "}}".


Definition okText : string := "{" +:+ quoted "ok" +:+ ":true}".

(** A JSON parser that knows the two bodies of scenarios S1 and S2 and
    rejects everything else. *)
Definition parse_envelope (text : string) : option json :=
  if String.eqb text invalidParameterText
  then Some (JObj [("error", JObj [("code", JStr "InvalidParameter");
                                   ("message", JStr "bad")])])
  else if String.eqb text okText then Some (JObj [("ok", JBool true)])
  else None.

(** Scenario S1: a 429, then a 200 with [okText]. *)
Definition throttled_once : nat -> Arm.FetchResult :=
  fun k =>
    match k with
    | O => Arm.FetchResolves (makeResponse 429 EmptyString)
    | _ => Arm.FetchResolves (makeResponse 200 okText)
    end.

(** A mock HTTP layer that fails in three ways before it answers: a
    rejected [fetch], a 503, a 200 whose body is not JSON, then a 200
    with [okText]. *)
Definition flaky : nat -> Arm.FetchResult :=
  fun k =>
    match k with
    | 0%nat => Arm.FetchRejects "network down"
    | 1%nat => Arm.FetchResolves (makeResponse 503 EmptyString)
    | 2%nat => Arm.FetchResolves (makeResponse 200 "<html>")
    | _ => Arm.FetchResolves (makeResponse 200 okText)
    end.


End ArmFixtures.

Module InvokeFixtures.

Definition pathParam (name : string) : ParsedParameter :=
  {| p_name := name; p_in := InPath; p_type := "string";
     p_required := true; p_description := "" |}.

Definition queryParam (name : string) : ParsedParameter :=
  {| p_name := name; p_in := InQuery; p_type := "string";
     p_required := false; p_description := "" |}.

Definition bodyProp (name : string) (required : bool) : ParsedBodyProperty :=
  {| bp_name := name; bp_type := "string"; bp_format := None;
     bp_description := ""; bp_required := required; bp_visibility := "none" |}.

Definition operation (id meth pth : string) (params : list ParsedParameter)
  (body : option ParsedRequestBody) : ParsedOperation :=
  {| op_ref := 0; operationId := id; method := meth; path := pth;
     summary := ""; description := ""; deprecated := false;
     visibility := "none"; isTrigger := false; apiAnnotation := None;
     parameters := Fixtures.connectionIdParam :: params; requestBody := body |}.

(** [GetMessage]: GET [/{connectionId}/v2/Mail/{messageId}]. *)
Definition getMessage : ParsedOperation :=
  operation "GetMessage" "get" "/{connectionId}/v2/Mail/{messageId}"
    [pathParam "messageId"] None.

(** Scenario S5, [SearchMail]: GET [/{connectionId}/v2/Mail] with the
    query parameters [$filter] and [$top]. *)
Definition searchMail : ParsedOperation :=
  operation "SearchMail" "get" "/{connectionId}/v2/Mail"
    [queryParam "$filter"; queryParam "$top"] None.

(** Scenario S4, [SendEmail]: POST [/{connectionId}/v2/Mail] with the body
    properties [Subject] and [Body]. *)
Definition sendEmail : ParsedOperation :=
  operation "SendEmail" "post" "/{connectionId}/v2/Mail" []
    (Some {| rb_required := true; requiredFields := ["Subject"];
             properties := [("Subject", bodyProp "Subject" true);
                            ("Body", bodyProp "Body" false)] |}).

Definition no_json : string -> option json := fun _ => None.

End InvokeFixtures.

Module LifecycleFixtures.

(** [makeArmConnectionResponse(name, apiName)] of dynamicTools.test.ts. *)
Definition makeArmConnectionResponse (name apiName : string) : ArmConnection :=
  {| c_name := name;
     c_properties :=
       Some {| prop_displayName := apiName +:+ " Connection";
               overallStatus := Some "Connected";
               api := Some {| api_name := apiName;
                              api_id := "/subscriptions/sub-123/providers/Microsoft.Web/locations/westus/managedApis/" +:+ apiName |} |} |}.

(** A Swagger document, and the ARM resource that embeds it. *)
Definition swagger : json :=
  JObj [("swagger", JStr "2.0"); ("host", JStr "api.test.com"); ("paths", JObj [])].

Definition armResponse : json := JObj [("properties", JObj [("swagger", swagger)])].

(** A managed-API resource without any Swagger document. *)
Definition bareResource : json := JObj [("name", JStr "office365")].

Definition token_ok : list Effect -> Outcome string := fun _ => Returns "test-token".

Definition no_connections : list Effect -> Outcome (option (list ArmConnection)) :=
  fun _ => Returns (Some []).

Definition connections_of (l : list ArmConnection)
  : list Effect -> Outcome (option (list ArmConnection)) :=
  fun _ => Returns (Some l).

Definition arm_returns (doc : json) : list Effect -> string -> Outcome json :=
  fun _ _ => Returns doc.

(** The first ARM request of the process fails below the HTTP level, the
    later ones succeed. *)
Definition arm_flaky (doc : json) : list Effect -> string -> Outcome json :=
  fun h _ =>
    if (count is_arm_request h =? 0)%nat
    then Throws (TransportError "ECONNRESET")
    else Returns doc.

Definition server_ok : list Effect -> string -> option JsError := fun _ _ => None.

(** A parser that finds [SendEmail] and [GetMessage] in every document. *)
Definition parse_two : json -> string -> Outcome (list ParsedOperation) :=
  fun _ _ => Returns [Fixtures.makeOperation 0 "SendEmail";
                      Fixtures.makeOperation 1 "GetMessage"].

(** A parser that finds two operations whose ids differ by their first
    letter only. *)
Definition parse_twins : json -> string -> Outcome (list ParsedOperation) :=
  fun _ _ => Returns [Fixtures.makeOperation 0 "SendEmail";
                      Fixtures.makeOperation 1 "sendEmail"].

Definition office365 : ConnectionInfo :=
  {| conn_name := "office365"; apiName := "office365";
     displayName := "office365 Connection"; conn_status := "Connected";
     apiId := "/subscriptions/sub-123/providers/Microsoft.Web/locations/westus/managedApis/office365" |}.

(** What [extractConnectionInfo] reads in
    [makeArmConnectionResponse "sql" "sql"]. *)
Definition sql : ConnectionInfo :=
  {| conn_name := "sql"; apiName := "sql";
     displayName := "sql Connection"; conn_status := "Connected";
     apiId := "/subscriptions/sub-123/providers/Microsoft.Web/locations/westus/managedApis/sql" |}.

End LifecycleFixtures.

Module SchemaFixtures.

(** The collision test of zodGenerator.test.ts: a query parameter and a
    body property both called [name]. *)
Definition collision : ParsedOperation :=
  InvokeFixtures.operation "CreateItem" "post" "/{connectionId}/items"
    [InvokeFixtures.queryParam "name"]
    (Some {| rb_required := true; requiredFields := [];
             properties := [("name", InvokeFixtures.bodyProp "name" false)] |}).



(** A validator is represented by the place it was built for. *)
Inductive Validator : Type :=
| ForParam (param : ParsedParameter)
| ForBodyProp (prop : ParsedBodyProperty).

End SchemaFixtures.

(** * Properties *)

(** ** Key sanitisation *)

Section SanitizeKey.

Lemma replace_unsafe_key_chars s :
  str_forall Char.is_key_char (replace_unsafe s) = true.
Proof.
  induction s as [|c t IH]; [reflexivity|].
  cbn. destruct (Char.is_key_char c) eqn:E; rewrite ?E; cbn; auto.
Qed.

Lemma replace_unsafe_id s :
  str_forall Char.is_key_char s = true -> replace_unsafe s = s.
Proof.
  induction s as [|c t IH]; [reflexivity|].
  cbn. intros [Hc Ht]%andb_prop. rewrite Hc. f_equal. now apply IH.
Qed.

Lemma strip_leading_key_chars s :
  str_forall Char.is_key_char s = true ->
  str_forall Char.is_key_char (strip_leading s) = true.
Proof.
  induction s as [|c t IH]; [reflexivity|].
  cbn. intros H. destruct (Char.is_dot_or_hyphen c); [|exact H].
  apply andb_prop in H as [_ Ht]. now apply IH.
Qed.

Lemma strip_leading_ok s : leading_ok (strip_leading s) = true.
Proof.
  induction s as [|c t IH]; [reflexivity|].
  cbn. destruct (Char.is_dot_or_hyphen c) eqn:E; [exact IH|].
  cbn. now rewrite E.
Qed.

Lemma strip_leading_id s : leading_ok s = true -> strip_leading s = s.
Proof.
  destruct s as [|c t]; [reflexivity|].
  cbn. now intros ->%negb_true_iff.
Qed.

Lemma collapse_key_chars s :
  str_forall Char.is_key_char s = true ->
  str_forall Char.is_key_char (collapse_underscores s) = true.
Proof.
  induction s as [|c t IH]; [reflexivity|].
  intros [Hc Ht]%andb_prop. cbn [collapse_underscores].
  destruct t as [|d u]; [cbn; now rewrite Hc|].
  destruct (Ascii.eqb c "_" && Ascii.eqb d "_"); [now apply IH|].
  cbn [str_forall]. rewrite Hc. now apply IH.
Qed.

(** Collapsing keeps the first character. *)
Lemma collapse_head c t :
  exists u, collapse_underscores (String c t) = String c u.
Proof.
  revert c. induction t as [|d u IH]; intros c; [now exists EmptyString|].
  cbn [collapse_underscores].
  destruct (Ascii.eqb c "_" && Ascii.eqb d "_") eqn:E.
  - apply andb_prop in E as [Hc Hd].
    apply Ascii.eqb_eq in Hc, Hd. subst. apply IH.
  - eexists. reflexivity.
Qed.

Lemma collapse_leading_ok s :
  leading_ok s = true -> leading_ok (collapse_underscores s) = true.
Proof.
  destruct s as [|c t]; [reflexivity|].
  destruct (collapse_head c t) as [u ->]. exact id.
Qed.

Lemma no_double_cons2 c d t :
  no_double_underscore (String c (String d t)) =
    negb (Ascii.eqb c "_" && Ascii.eqb d "_") && no_double_underscore (String d t).
Proof. reflexivity. Qed.

Lemma collapse_no_double s : no_double_underscore (collapse_underscores s) = true.
Proof.
  induction s as [|c t IH]; [reflexivity|].
  cbn [collapse_underscores]. destruct t as [|d u]; [reflexivity|].
  destruct (Ascii.eqb c "_" && Ascii.eqb d "_") eqn:E; [exact IH|].
  destruct (collapse_head d u) as [v Hv]. rewrite Hv in *.
  now rewrite no_double_cons2, E, IH.
Qed.

Lemma collapse_id s : no_double_underscore s = true -> collapse_underscores s = s.
Proof.
  induction s as [|c t IH]; [reflexivity|].
  destruct t as [|d u]; [reflexivity|].
  rewrite no_double_cons2. cbn [collapse_underscores].
  intros [Hn Ht]%andb_prop. apply negb_true_iff in Hn. rewrite Hn.
  f_equal. now apply IH.
Qed.

Lemma slice0_length n s : (String.length (slice0 n s) <= n)%nat.
Proof.
  revert s. induction n as [|n IH]; intros [|c t]; cbn; try lia.
  specialize (IH t). lia.
Qed.

Lemma slice0_id n s : (String.length s <= n)%nat -> slice0 n s = s.
Proof.
  revert s. induction n as [|n IH]; intros [|c t]; cbn; try reflexivity; try lia.
  intros H. f_equal. apply IH. lia.
Qed.

Lemma slice0_key_chars n s :
  str_forall Char.is_key_char s = true ->
  str_forall Char.is_key_char (slice0 n s) = true.
Proof.
  revert s. induction n as [|n IH]; intros [|c t]; cbn; try reflexivity.
  intros [Hc Ht]%andb_prop. rewrite Hc. now apply IH.
Qed.

Lemma slice0_leading_ok n s :
  leading_ok s = true -> leading_ok (slice0 n s) = true.
Proof. destruct n, s; cbn; auto. Qed.

Lemma slice0_no_double n s :
  no_double_underscore s = true -> no_double_underscore (slice0 n s) = true.
Proof.
  revert s. induction n as [|n IH]; intros [|c t]; try reflexivity.
  destruct t as [|d u]; [destruct n; reflexivity|].
  rewrite no_double_cons2.
  intros [Hn Ht]%andb_prop. specialize (IH _ Ht).
  destruct n as [|n]; [reflexivity|].
  cbn [slice0] in *. now rewrite no_double_cons2, Hn, IH.
Qed.

Lemma sanitizeKey_steps name :
  sanitizeKey name =
    match sanitize_steps name with
    | EmptyString => "param"
    | _ => sanitize_steps name
    end.
Proof. reflexivity. Qed.

Lemma sanitize_steps_shape name :
  let y := sanitize_steps name in
  str_forall Char.is_key_char y = true /\ leading_ok y = true
  /\ no_double_underscore y = true /\ (String.length y <= 64)%nat.
Proof.
  unfold sanitize_steps. repeat split.
  - apply slice0_key_chars, collapse_key_chars, strip_leading_key_chars,
      replace_unsafe_key_chars.
  - apply slice0_leading_ok, collapse_leading_ok, strip_leading_ok.
  - apply slice0_no_double, collapse_no_double.
  - apply slice0_length.
Qed.

Lemma sanitize_steps_fixpoint y :
  str_forall Char.is_key_char y = true -> leading_ok y = true ->
  no_double_underscore y = true -> (String.length y <= 64)%nat ->
  sanitize_steps y = y.
Proof.
  intros Hk Hl Hn Hlen. unfold sanitize_steps.
  rewrite (replace_unsafe_id _ Hk), (strip_leading_id _ Hl),
    (collapse_id _ Hn). now apply slice0_id.
Qed.

End SanitizeKey.

(** C6 (key sanitisation): [sanitizeKey] is idempotent, its output always
  matches [^[a-zA-Z0-9_.-]{1,64}$], and ["$filter"], ["$top"] and the
  empty string are sent to ["_filter"], ["_top"] and ["param"]. *)
Theorem sanitizeKey_idempotent_and_valid :
(forall x, sanitizeKey (sanitizeKey x) = sanitizeKey x)
/\ (forall x, matches_name_regex (sanitizeKey x) = true)
/\ sanitizeKey "$filter" = "_filter"
/\ sanitizeKey "$top" = "_top"
/\ sanitizeKey "" = "param".
Proof.
split; [|split; [|repeat split; reflexivity]].
- intros x. rewrite (sanitizeKey_steps x).
  destruct (sanitize_steps_shape x) as (Hk & Hl & Hn & Hlen).
  cbv zeta in *.
  destruct (sanitize_steps x) as [|c t] eqn:E; [reflexivity|].
  rewrite sanitizeKey_steps, (sanitize_steps_fixpoint _ Hk Hl Hn Hlen).
  reflexivity.
- intros x. rewrite (sanitizeKey_steps x).
  destruct (sanitize_steps_shape x) as (Hk & _ & _ & Hlen).
  cbv zeta in *.
  destruct (sanitize_steps x) as [|c t] eqn:E; [reflexivity|].
  unfold matches_name_regex. rewrite Hk.
  cbn [String.length] in *.
  apply andb_true_intro; split; [|reflexivity].
  apply andb_true_intro; split; [reflexivity|].
  apply Nat.leb_le. exact Hlen.
Qed.

(** ** Family deduplication *)

Section Dedup.

Implicit Types (ops pre : list ParsedOperation) (op o w : ParsedOperation).
Implicit Types (m : gmap string ParsedOperation) (fam : string).

Lemma first_max_snoc_other fam pre w op :
  family_of op <> Some fam -> first_max fam pre w -> first_max fam (pre ++ [op]) w.
Proof.
  intros Hop (before & after & -> & Hw & Hb & Ha).
  exists before, (after ++ [op]). split; [now rewrite <- app_assoc|].
  split; [exact Hw|]. split; [exact Hb|].
  intros o [Ho|[<-|[]]]%in_app_or Hf; [now apply Ha|contradiction].
Qed.

Lemma first_max_snoc_le fam pre w op :
  (revision_of op <= revision_of w)%Z ->
  first_max fam pre w -> first_max fam (pre ++ [op]) w.
Proof.
  intros Hle (before & after & -> & Hw & Hb & Ha).
  exists before, (after ++ [op]). split; [now rewrite <- app_assoc|].
  split; [exact Hw|]. split; [exact Hb|].
  intros o [Ho|[<-|[]]]%in_app_or Hf; [now apply Ha|exact Hle].
Qed.

Lemma first_max_bound fam pre w o :
  first_max fam pre w -> In o pre -> family_of o = Some fam ->
  (revision_of o <= revision_of w)%Z.
Proof.
  intros (before & after & -> & Hw & Hb & Ha) Ho Hf.
  apply in_app_or in Ho as [Ho|[<-|Ho]].
  - specialize (Hb _ Ho Hf). lia.
  - lia.
  - now apply Ha.
Qed.

Lemma first_max_In fam pre w : first_max fam pre w -> In w pre.
Proof. intros (before & after & -> & _). apply in_or_app. right. now left. Qed.

Lemma first_max_family fam pre w : first_max fam pre w -> family_of w = Some fam.
Proof. now intros (before & after & _ & Hw & _). Qed.

Lemma fm_inv_step pre m op :
  fm_inv pre m -> fm_inv (pre ++ [op]) (familyMap_step m op).
Proof.
  intros Hinv fam. unfold familyMap_step.
  assert (Hkeep : family_of op <> Some fam ->
            match m !! fam with
            | None => forall o, In o (pre ++ [op]) -> family_of o <> Some fam
            | Some w => first_max fam (pre ++ [op]) w
            end).
  { intros Hne. specialize (Hinv fam). destruct (m !! fam) as [w|].
    - now apply first_max_snoc_other.
    - intros o [Ho|[<-|[]]]%in_app_or; auto. }
  destruct (family_of op) as [f|] eqn:Hf; [|now apply Hkeep].
  destruct (decide (f = fam)) as [->|Hne].
  - pose proof (Hinv fam) as Hfam. destruct (m !! fam) as [ex|] eqn:Hm.
    + destruct (Z.ltb_spec (revision_of ex) (revision_of op)) as [Hlt|Hge].
      * rewrite lookup_insert_eq. exists pre, []. repeat split; auto.
        -- intros o Ho Hfo. pose proof (first_max_bound _ _ _ _ Hfam Ho Hfo). lia.
        -- intros o [].
      * rewrite Hm. now apply first_max_snoc_le.
    + rewrite lookup_insert_eq. exists pre, []. repeat split; auto.
      * intros o Ho Hfo. now destruct (Hfam o Ho).
      * intros o [].
  - assert (Hne' : Some f <> Some fam) by congruence.
    destruct (m !! f) as [ex|];
      [destruct (revision_of ex <? revision_of op)%Z|];
      rewrite ?lookup_insert_ne by exact Hne; now apply Hkeep.
Qed.

Lemma fm_inv_foldl ops pre m :
  fm_inv pre m -> fm_inv (pre ++ ops) (foldl familyMap_step m ops).
Proof.
  revert pre m. induction ops as [|op ops IH]; intros pre m Hinv.
  - now rewrite app_nil_r.
  - cbn [foldl]. replace (pre ++ op :: ops) with ((pre ++ [op]) ++ ops)
      by now rewrite <- app_assoc.
    apply IH, fm_inv_step, Hinv.
Qed.

Lemma build_familyMap_inv ops : fm_inv ops (build_familyMap ops).
Proof.
  apply (fm_inv_foldl ops [] ∅). intros fam. rewrite lookup_empty. intros o [].
Qed.

Lemma elem_of_familyOps m r :
  r ∈ familyOps_of m <-> exists fam w, m !! fam = Some w /\ op_ref w = r.
Proof.
  unfold familyOps_of. rewrite elem_of_list_to_set, list_elem_of_fmap. split.
  - intros (w & -> & Hw). apply list_elem_of_fmap in Hw as ([fam w'] & -> & Hin).
    apply elem_of_map_to_list in Hin. now exists fam, w'.
  - intros (fam & w & Hm & <-). exists w. split; [reflexivity|].
    apply list_elem_of_fmap. exists (fam, w). split; [reflexivity|].
    now apply elem_of_map_to_list.
Qed.

Lemma ref_inj ops a b :
  NoDup (op_ref <$> ops) -> In a ops -> In b ops -> op_ref a = op_ref b -> a = b.
Proof.
  induction ops as [|x ops IH]; [intros _ []|].
  rewrite fmap_cons, NoDup_cons. intros [Hx Hnd] Ha Hb Hab.
  assert (Hmem : forall y, In y ops -> op_ref y ∈ op_ref <$> ops).
  { intros y Hy. apply list_elem_of_fmap. exists y. split; [reflexivity|].
    now apply list_elem_of_In. }
  destruct Ha as [Ha|Ha], Hb as [Hb|Hb]; subst; auto.
  - exfalso. apply Hx. rewrite Hab. now apply Hmem.
  - exfalso. apply Hx. rewrite <- Hab. now apply Hmem.
Qed.

(** An operation with a family survives exactly when it is the entry of
    its family in the map. *)
Lemma survives_family ops o fam :
  NoDup (op_ref <$> ops) -> In o ops -> family_of o = Some fam ->
  survives (familyOps_of (build_familyMap ops)) o = true
  <-> build_familyMap ops !! fam = Some o.
Proof.
  intros Hnd Ho Hf. unfold survives. rewrite Hf, bool_decide_eq_true.
  rewrite elem_of_familyOps. split.
  - intros (fam' & w & Hm & Href).
    pose proof (build_familyMap_inv ops fam') as Hinv. rewrite Hm in Hinv.
    assert (w = o) as ->
      by (eapply ref_inj; eauto using first_max_In).
    apply first_max_family in Hinv. congruence.
  - intros Hm. now exists fam, o.
Qed.

Lemma filter_none {A} (P : A -> bool) (l : list A) :
  (forall x, In x l -> P x = false) -> List.filter P l = [].
Proof.
  induction l as [|x l IH]; [reflexivity|]. intros H. cbn.
  rewrite (H x) by now left. apply IH. intros y Hy. apply H. now right.
Qed.

Lemma filter_sublist {A} (P : A -> bool) (l : list A) : sublist (List.filter P l) l.
Proof.
  induction l as [|x l IH]; [constructor|]. cbn.
  destruct (P x); now constructor.
Qed.

Lemma deduplicateByFamily_spec ops :
  NoDup (op_ref <$> ops) -> dedup_spec ops (deduplicateByFamily ops).
Proof.
  intros Hnd. unfold deduplicateByFamily. cbv zeta.
  set (fo := familyOps_of (build_familyMap ops)).
  split.
  - intros fam o Ho Hf.
    pose proof (build_familyMap_inv ops fam) as Hinv.
    destruct (build_familyMap ops !! fam) as [w|] eqn:Hm;
      [|now destruct (Hinv o Ho)].
    exists w. split; [|exact Hinv].
    pose proof (first_max_family _ _ _ Hinv) as Hw.
    pose proof (first_max_In _ _ _ Hinv) as Hwin.
    assert (Honly : forall x, In x ops -> x <> w ->
              survives fo x && bool_decide (family_of x = Some fam) = false).
    { intros x Hx Hxw. destruct (bool_decide (family_of x = Some fam)) eqn:Hfx;
        [|apply andb_false_r].
      apply bool_decide_eq_true in Hfx. rewrite andb_true_r.
      apply not_true_is_false. intros Hs.
      apply (survives_family ops x fam Hnd Hx Hfx) in Hs. congruence. }
    destruct Hinv as (before & after & Hsplit & _).
    assert (Hnd' : NoDup ops) by (eapply NoDup_fmap_1; exact Hnd).
    rewrite Hsplit in Hnd'. apply NoDup_app in Hnd' as (_ & Hdisj & Hnd2).
    apply NoDup_cons in Hnd2 as [Hwa _].
    unfold members. rewrite Hsplit. rewrite !List.filter_app. cbn [List.filter].
    assert (Hsw : survives fo w = true)
      by now apply (survives_family ops w fam Hnd Hwin Hw).
    rewrite Hsw. rewrite ?List.filter_app. cbn [List.filter].
    rewrite (bool_decide_eq_true_2 _ Hw).
    rewrite (filter_none _ (List.filter _ before)), (filter_none _ (List.filter _ after));
      [reflexivity| |].
    + intros x [Hx Hs]%List.filter_In.
      assert (Hxw : x <> w) by (intros ->; apply Hwa; now apply list_elem_of_In).
      assert (Hxin : In x ops) by (rewrite Hsplit; apply in_or_app; right; now right).
      specialize (Honly x Hxin Hxw). now rewrite Hs in Honly.
    + intros x [Hx Hs]%List.filter_In.
      assert (Hxw : x <> w).
      { intros ->. apply (Hdisj w); [now apply list_elem_of_In|]. left. }
      assert (Hxin : In x ops) by (rewrite Hsplit; apply in_or_app; now left).
      specialize (Honly x Hxin Hxw). now rewrite Hs in Honly.
  - intros o Hf. rewrite List.filter_In. unfold survives. rewrite Hf.
    now rewrite negb_true_iff.
  - apply filter_sublist.
Qed.

End Dedup.

Lemma passes_filters_refs ops :
  NoDup (op_ref <$> ops) -> NoDup (op_ref <$> List.filter passes_filters ops).
Proof.
  intros Hnd. eapply sublist_NoDup; [exact Hnd|].
  apply fmap_sublist, filter_sublist.
Qed.

(** C2, as stated, fails on [filterOperations]: an operation without
    family that is not deprecated is still dropped when its visibility is
    [internal].  It also fails on a list that holds the same operation
    object twice: the object is in the set of survivors, so both of its
    occurrences are kept. *)
Lemma filterOperations_drops_internal :
  (NoDup (op_ref <$> [Fixtures.internalOp])
   /\ ~ dedup_spec [Fixtures.internalOp] (filterOperations [Fixtures.internalOp]))
  /\ (let twice := [Fixtures.deleteMessageV2; Fixtures.deleteMessageV2] in
      deduplicateByFamily twice = twice
      /\ ~ dedup_spec twice (deduplicateByFamily twice)).
Proof.
  split; [split; [apply NoDup_singleton|]|split; [vm_compute; reflexivity|]].
  - intros [_ Hno _].
    destruct (Hno Fixtures.internalOp eq_refl) as [_ Hin].
    apply Hin. split; [now left|reflexivity].
  - intros [Hfam _ _].
    destruct (Hfam "DeleteMessage" Fixtures.deleteMessageV2) as (w & Hone & _);
      [now left|reflexivity|].
    vm_compute in Hone. discriminate.
Qed.

(** C2 (family deduplication, amended): on a list of distinct operation
    objects, [deduplicateByFamily] keeps, for every family present,
    exactly one member, the first one of maximal revision; keeps the
    operations without family iff they are not deprecated; and keeps the
    input order.  [filterOperations] does the same relative to the
    operations that pass its visibility / trigger / [$subscriptions]
    filters. *)
Theorem family_dedup_after_filters (ops : list ParsedOperation) :
  NoDup (op_ref <$> ops) ->
  dedup_spec ops (deduplicateByFamily ops)
  /\ dedup_spec (List.filter passes_filters ops) (filterOperations ops).
Proof.
  intros Hnd. split.
  - now apply deduplicateByFamily_spec.
  - apply deduplicateByFamily_spec, passes_filters_refs, Hnd.
Qed.

Lemma family_dedup_after_filters_witness :
  let ops := [Fixtures.deleteMessage; Fixtures.deleteMessageV2; Fixtures.sendEmail] in
  dedup_spec ops (deduplicateByFamily ops)
  /\ dedup_spec (List.filter passes_filters ops) (filterOperations ops).
Proof.
  apply (family_dedup_after_filters
           [Fixtures.deleteMessage; Fixtures.deleteMessageV2; Fixtures.sendEmail]).
  apply (bool_decide_unpack (NoDup (op_ref <$> _))). vm_compute. exact I.
Defined.

Example scenario_S3 :
  filterOperations [Fixtures.deleteMessage; Fixtures.deleteMessageV2]
  = [Fixtures.deleteMessageV2].
Proof. vm_compute. reflexivity. Qed.

(** ** Tool naming *)

Section Naming.

Lemma append_nil (b : string) : "" +:+ b = b.
Proof. reflexivity. Qed.

Lemma append_cons c (a b : string) : String c a +:+ b = String c (a +:+ b).
Proof. reflexivity. Qed.

Lemma length_append (a b : string) :
  String.length (a +:+ b) = (String.length a + String.length b)%nat.
Proof.
  induction a as [|c a IH]; [reflexivity|].
  rewrite append_cons. cbn [String.length]. now rewrite IH.
Qed.

Lemma str_forall_append p (a b : string) :
  str_forall p (a +:+ b) = str_forall p a && str_forall p b.
Proof.
  induction a as [|c a IH]; [reflexivity|].
  rewrite append_cons. cbn [str_forall]. now rewrite IH, andb_assoc.
Qed.











(** Every tool name starts with the [<apiName>_] prefix that incremental
    registration looks for. *)
Lemma strip_prefix_append p s : strip_prefix p (p +:+ s) = Some s.
Proof.
  induction p as [|c p IH]; [reflexivity|].
  rewrite append_cons. cbn [strip_prefix]. now rewrite Ascii.eqb_refl.
Qed.

Lemma append_assoc (a b c : string) : (a +:+ b) +:+ c = a +:+ (b +:+ c).
Proof.
  induction a as [|x a IH]; [reflexivity|].
  rewrite !append_cons. now f_equal.
Qed.

Lemma buildToolName_prefix a o : startsWith (buildToolName a o) (a +:+ "_") = true.
Proof.
  unfold startsWith, buildToolName. cbv zeta.
  now rewrite <- (append_assoc a "_" (snake_case o)), strip_prefix_append.
Qed.

End Naming.



(** ** The ARM request pipeline *)

Section ArmPipeline.

Import Arm.

Variable JSON_parse : string -> option json.
Variable transport : nat -> FetchResult.

Lemma retryable_not_ok r : isRetryable (status r) = true -> ok r = false.
Proof.
  unfold isRetryable, ok. intros H. apply andb_false_iff.
  apply orb_true_iff in H as [H%Z.eqb_eq|H%Z.leb_le].
  - right. apply Z.leb_gt. lia.
  - right. apply Z.leb_gt. lia.
Qed.

Lemma client_error_not_retryable r :
  (400 <= status r < 500)%Z -> status r <> 429%Z ->
  ok r = false /\ isRetryable (status r) = false.
Proof.
  intros Hr Hne. unfold ok, isRetryable. split.
  - apply andb_false_iff. right. apply Z.leb_gt. lia.
  - apply orb_false_iff. split; [apply Z.eqb_neq; lia|apply Z.leb_gt; lia].
Qed.

Lemma shape_error_is_ArmError r :
  exists code message, shape_error JSON_parse r = ArmError code message (status r).
Proof.
  unfold shape_error.
  destruct (response_json JSON_parse r) as [errorBody|]; [|eauto].
  destruct (Js.prop "error" errorBody) as [err|]; [|eauto].
  destruct (Js.truthy err); eauto.
Qed.

(** The loop body, unfolded once. *)
Lemma attempts_S remaining attempt lastError :
  attempts JSON_parse transport (S remaining) attempt lastError
  = let next le :=
      after (if (attempt <? MAX_RETRIES)%nat then [EvSleep attempt] else [])
        (attempts JSON_parse transport remaining (S attempt) le) in
    after [EvFetch attempt]
      match transport attempt with
      | FetchRejects m => next (Some (TransportError m))
      | FetchResolves response =>
          if ok response then
            match body response with
            | BodyFails m => next (Some (TransportError m))
            | BodyText text =>
                if String.eqb text "" then (Returns (JObj []), [])
                else match JSON_parse text with
                     | Some v => (Returns v, [])
                     | None => next (Some (SyntaxError "Unexpected token"))
                     end
            end
          else if isRetryable (status response) && (attempt <? MAX_RETRIES)%nat
          then next lastError
          else (Throws (shape_error JSON_parse response), [])
      end.
Proof. reflexivity. Qed.

(** One iteration on a retryable status. *)
Lemma attempts_retryable remaining attempt lastError r :
  transport attempt = FetchResolves r -> isRetryable (status r) = true ->
  attempts JSON_parse transport (S remaining) attempt lastError
  = if (attempt <? MAX_RETRIES)%nat
    then after [EvFetch attempt; EvSleep attempt]
           (attempts JSON_parse transport remaining (S attempt) lastError)
    else (Throws (shape_error JSON_parse r), [EvFetch attempt]).
Proof.
  intros Ht Hr. rewrite attempts_S. cbv zeta.
  rewrite Ht, (retryable_not_ok _ Hr), Hr. cbn [andb].
  now destruct (attempt <? MAX_RETRIES)%nat.
Qed.

(** One iteration on a status that is neither OK nor retryable. *)
Lemma attempts_not_retryable remaining attempt lastError r :
  transport attempt = FetchResolves r -> ok r = false ->
  isRetryable (status r) = false ->
  attempts JSON_parse transport (S remaining) attempt lastError
  = (Throws (shape_error JSON_parse r), [EvFetch attempt]).
Proof. intros Ht Hok Hr. rewrite attempts_S. cbv zeta. now rewrite Ht, Hok, Hr. Qed.


(** An error that is not an [ArmError] always comes from the last
    attempt: a failure below the HTTP level, or an OK response whose body
    is not JSON. *)
Lemma attempts_other_error remaining attempt lastError e :
  (attempt + S remaining = MAX_RETRIES + 1)%nat ->
  fst (attempts JSON_parse transport (S remaining) attempt lastError) = Throws e ->
  is_ArmError e = false ->
  (exists message, e = TransportError message
                   /\ fails_below_http (transport MAX_RETRIES) message)
  \/ (exists r text, transport MAX_RETRIES = FetchResolves r /\ ok r = true
                     /\ body r = BodyText text /\ JSON_parse text = None
                     /\ e = SyntaxError "Unexpected token").
Proof.
  revert attempt lastError.
  induction remaining as [|remaining IH]; intros attempt lastError Hsum;
    rewrite attempts_S; cbv zeta; unfold after at 1; cbn [fst].
  - assert (attempt = MAX_RETRIES) as -> by (unfold MAX_RETRIES in *; lia).
    unfold fails_below_http.
    destruct (transport MAX_RETRIES) as [m|r] eqn:Ht; cbn.
    + intros [= <-] _. left. eauto.
    + destruct (ok r) eqn:Hok.
      * destruct (body r) as [text|m] eqn:Hb; cbn.
        -- destruct (String.eqb text ""); [discriminate|].
           destruct (JSON_parse text) eqn:Hp; cbn; [discriminate|].
           intros [= <-] _. right. eauto 8.
        -- intros [= <-] _. left. eauto 8.
      * rewrite andb_false_r. cbn.
        destruct (shape_error_is_ArmError r) as (c & m & ->).
        intros [= <-]. discriminate.
  - assert (Hnext : forall le,
              fst (attempts JSON_parse transport (S remaining) (S attempt) le)
                = Throws e -> is_ArmError e = false -> _)
      by (intros le; apply IH; lia).
    destruct (transport attempt) as [m|r] eqn:Ht; [apply Hnext|].
    destruct (ok r) eqn:Hok.
    + destruct (body r) as [text|m] eqn:Hb; [|apply Hnext].
      destruct (String.eqb text ""); [discriminate|].
      destruct (JSON_parse text); [discriminate|apply Hnext].
    + destruct (isRetryable (status r) && (attempt <? MAX_RETRIES)%nat);
        [apply Hnext|].
      cbn. destruct (shape_error_is_ArmError r) as (c & m & ->).
      intros [= <-]. discriminate.
Qed.

(** Four retryable answers in a row. *)
Lemma armRequest_four_retryable r0 r1 r2 r3 :
  transport 0%nat = FetchResolves r0 -> transport 1%nat = FetchResolves r1 ->
  transport 2%nat = FetchResolves r2 -> transport 3%nat = FetchResolves r3 ->
  isRetryable (status r0) = true -> isRetryable (status r1) = true ->
  isRetryable (status r2) = true -> isRetryable (status r3) = true ->
  armRequest JSON_parse transport
  = (Throws (shape_error JSON_parse r3),
     [EvFetch 0; EvSleep 0; EvFetch 1; EvSleep 1; EvFetch 2; EvSleep 2; EvFetch 3]).
Proof.
  intros T0 T1 T2 T3 R0 R1 R2 R3. unfold armRequest.
  change (MAX_RETRIES + 1)%nat with 4%nat.
  rewrite (attempts_retryable _ _ _ _ T0 R0),
    (attempts_retryable _ _ _ _ T1 R1),
    (attempts_retryable _ _ _ _ T2 R2),
    (attempts_retryable _ _ _ _ T3 R3).
  reflexivity.
Qed.

End ArmPipeline.

(** C7 (retry budget): when every attempt is answered with 429 or a
    status of 500 and above, [armRequest] calls [fetch] exactly 4 times
    and then raises; a 4xx status other than 429 raises at the first
    attempt, without retry. *)
Theorem armRequest_retry_budget
  (JSON_parse : string -> option json) (transport : nat -> Arm.FetchResult) :
  ((forall k, (k <= Arm.MAX_RETRIES)%nat ->
      exists r, transport k = Arm.FetchResolves r
                /\ Arm.isRetryable (Arm.status r) = true) ->
   exists e, fst (Arm.armRequest JSON_parse transport) = Throws e
             /\ Arm.fetch_count (snd (Arm.armRequest JSON_parse transport)) = 4%nat)
  /\ (forall r, transport 0%nat = Arm.FetchResolves r ->
        (400 <= Arm.status r < 500)%Z -> Arm.status r <> 429%Z ->
        exists e, Arm.armRequest JSON_parse transport = (Throws e, [Arm.EvFetch 0])).
Proof.
  split.
  - intros H.
    destruct (H 0%nat) as (r0 & T0 & R0); [unfold Arm.MAX_RETRIES; lia|].
    destruct (H 1%nat) as (r1 & T1 & R1); [unfold Arm.MAX_RETRIES; lia|].
    destruct (H 2%nat) as (r2 & T2 & R2); [unfold Arm.MAX_RETRIES; lia|].
    destruct (H 3%nat) as (r3 & T3 & R3); [unfold Arm.MAX_RETRIES; lia|].
    rewrite (armRequest_four_retryable JSON_parse transport r0 r1 r2 r3) by assumption.
    eexists. split; reflexivity.
  - intros r T0 Hr Hne.
    destruct (client_error_not_retryable r Hr Hne) as [Hok Hnr].
    eexists. unfold Arm.armRequest.
    change (Arm.MAX_RETRIES + 1)%nat with 4%nat.
    now rewrite (attempts_not_retryable JSON_parse transport _ _ _ r T0 Hok Hnr).
Qed.

Lemma armRequest_retry_budget_witness :
  (exists e,
      fst (Arm.armRequest ArmFixtures.parse_envelope
             (ArmFixtures.always (ArmFixtures.makeResponse 500 ""))) = Throws e
      /\ Arm.fetch_count
           (snd (Arm.armRequest ArmFixtures.parse_envelope
                   (ArmFixtures.always (ArmFixtures.makeResponse 500 "")))) = 4%nat)
  /\ (exists e,
        Arm.armRequest ArmFixtures.parse_envelope
          (ArmFixtures.always
             (ArmFixtures.makeResponse 400 ArmFixtures.invalidParameterText))
        = (Throws e, [Arm.EvFetch 0])).
Proof.
  split.
  - apply (proj1 (armRequest_retry_budget ArmFixtures.parse_envelope
                    (ArmFixtures.always (ArmFixtures.makeResponse 500 "")))).
    intros k _. eexists. split; reflexivity.
  - apply (proj2 (armRequest_retry_budget ArmFixtures.parse_envelope
                    (ArmFixtures.always
                       (ArmFixtures.makeResponse 400 ArmFixtures.invalidParameterText)))
             (ArmFixtures.makeResponse 400 ArmFixtures.invalidParameterText)).
    + reflexivity.
    + cbn. lia.
    + cbn. lia.
Defined.

(** Scenario S2: a 400 with an error envelope raises the shaped error at
    once. *)
Example scenario_S2 :
  Arm.armRequest ArmFixtures.parse_envelope
    (ArmFixtures.always (ArmFixtures.makeResponse 400 ArmFixtures.invalidParameterText))
  = (Throws (ArmError (JStr "InvalidParameter") "bad" 400), [Arm.EvFetch 0]).
Proof. vm_compute. reflexivity. Qed.

(** Scenario S1: a 429 without [Retry-After], then a 200, returns the
    decoded body after two attempts. *)
Example scenario_S1 :
  Arm.armRequest ArmFixtures.parse_envelope ArmFixtures.throttled_once
  = (Returns (JObj [("ok", JBool true)]),
     [Arm.EvFetch 0; Arm.EvSleep 0; Arm.EvFetch 1]).
Proof. vm_compute. reflexivity. Qed.



(** ** The dynamicInvoke translator *)

Section TranslatorFacts.

Import Invoke.

Variable JSON_parse : string -> option json.
Variable params : gmap string json.

Lemma param_step_split invokePath queries param :
  param_step params (invokePath, queries) param
  = (path_step params invokePath param, query_step params queries param).
Proof.
  unfold path_step, query_step, param_step.
  destruct (String.eqb (p_name param) "connectionId"); [reflexivity|].
  destruct (params !! sanitizeKey (p_name param)); [|reflexivity].
  now destruct (p_in param).
Qed.

Lemma param_loop_split l invokePath queries :
  foldl (param_step params) (invokePath, queries) l
  = (foldl (path_step params) invokePath l, foldl (query_step params) queries l).
Proof.
  revert invokePath queries. induction l as [|param l IH]; intros; [reflexivity|].
  cbn [foldl]. now rewrite param_step_split, IH.
Qed.

Lemma build_request_method op :
  req_method (build_request JSON_parse op params) = toUpperCase (method op).
Proof.
  unfold build_request. cbv zeta. rewrite param_loop_split. reflexivity.
Qed.



(** *** Path *)




(** *** Queries *)




End TranslatorFacts.

Section TranslatorBody.

Import Invoke.

Variable JSON_parse : string -> option json.
Variable params : gmap string json.






End TranslatorBody.

(** Scenario S5: the sanitised keys [_filter] and [_top] come back as the
    original query names. *)
Example scenario_S5 :
  let request :=
    Invoke.build_request InvokeFixtures.no_json InvokeFixtures.searchMail
      (<["_filter" := JStr "isRead eq false"]> {["_top" := JStr "10"]}) in
  Invoke.req_method request = "GET"
  /\ Invoke.req_path request = "/v2/Mail"
  /\ map_to_list <$> Invoke.req_queries request
     = Some [("$filter", "isRead eq false"); ("$top", "10")]
  /\ Invoke.req_body request = None /\ Invoke.req_headers request = None.
Proof. vm_compute. repeat split; reflexivity. Qed.

(** Scenario S4: the send-email envelope. *)
Example scenario_S4 :
  let request :=
    Invoke.build_request InvokeFixtures.no_json InvokeFixtures.sendEmail
      (<["Subject" := JStr "Hello"]> {["Body" := JStr "World"]}) in
  Invoke.req_method request = "POST"
  /\ Invoke.req_path request = "/v2/Mail"
  /\ Invoke.req_headers request = Some [("Content-Type", "application/json")]
  /\ map_to_list <$> Invoke.req_body request
     = Some [("Subject", JStr "Hello"); ("Body", JStr "World")]
  /\ Invoke.req_queries request = None.
Proof. vm_compute. repeat split; reflexivity. Qed.

(** C3 (dynamicInvoke envelope): the method, the queries, the body and
    the headers are as specified (lemmas [build_request_method],
    [build_request_queries_spec], [build_request_body_spec]), and so is
    the path as long as no supplied path value contains a dollar sign
    ([build_request_path_spec]).  A path value that contains [$$] or [$&]
    is not substituted as it is: [String.prototype.replace] expands these
    as replacement patterns, and the envelope's path differs from the
    specified one, [spec_path]. *)
Theorem invoke_path_expands_dollar_patterns :
  let op := InvokeFixtures.getMessage in
  (let params : gmap string json := {["messageId" := JStr "inv$$7"]} in
   Invoke.req_path (Invoke.build_request InvokeFixtures.no_json op params)
     = "/v2/Mail/inv$7"
   /\ Invoke.spec_path op params = "/v2/Mail/inv$$7")
  /\ (let params : gmap string json := {["messageId" := JStr "a$&b"]} in
      Invoke.req_path (Invoke.build_request InvokeFixtures.no_json op params)
        = "/v2/Mail/a{messageId}b"
      /\ Invoke.spec_path op params = "/v2/Mail/a$&b").
Proof. vm_compute. repeat split; reflexivity. Qed.

(** ** The registry and its lifecycle *)

Lemma count_app p (l1 l2 : list Effect) : count p (l1 ++ l2) = (count p l1 + count p l2)%nat.
Proof. unfold count. now rewrite List.filter_app, length_app. Qed.

Lemma count_record p e s :
  count p (history (record e s))
  = (count p (history s) + if p e then 1 else 0)%nat.
Proof.
  unfold record. cbn [history]. rewrite count_app. unfold count at 2. cbn.
  now destruct (p e).
Qed.

#[local] Instance Extends_preorder : PreOrder Extends.
Proof.
  split.
  - intros s. split; auto.
  - intros s1 s2 s3 [H12 G12] [H23 G23]. split; [auto|].
    intros k v [H|H]%G23; [|now right]. now apply G12.
Qed.

#[local] Instance Extends_stable : Stable Extends.
Proof.
  split; [apply _| | |].
  - intros e s _. split; auto.
  - intros cache s. split; auto.
  - intros conn op s toolName Hfree. split; cbn [with_registry toolRegistry].
    + intros k v Hk. rewrite lookup_insert_ne; [exact Hk|congruence].
    + intros k v. rewrite lookup_insert. case_decide as E.
      * intros [= <-]. right. now rewrite <- E.
      * now left.
Qed.

#[local] Instance Quiet_preorder : PreOrder Quiet.
Proof.
  split; [now intros s|]. intros s1 s2 s3. unfold Quiet. congruence.
Qed.

#[local] Instance Quiet_stable : Stable Quiet.
Proof.
  split; [apply _| | |]; unfold Quiet.
  - intros e s He. rewrite count_record, He. lia.
  - reflexivity.
  - reflexivity.
Qed.

Section Respects.

Context (R : State -> State -> Prop) `{!Stable R}.

Lemma respects_ret {A} (a : A) : respects R (ret a).
Proof. intros s. reflexivity. Qed.

Lemma respects_lift {A} (o : Outcome A) : respects R (lift o).
Proof. intros s. reflexivity. Qed.

Lemma respects_bind {A B} (m : M A) (k : A -> M B) :
  respects R m -> (forall a, respects R (k a)) -> respects R (bind m k).
Proof.
  intros Hm Hk s. unfold bind. specialize (Hm s).
  destruct (m s) as [[a|e] s1]; cbn [snd] in *; [|exact Hm].
  etransitivity; [exact Hm|apply Hk].
Qed.

Lemma respects_try_catch {A} (m : M A) (handler : JsError -> M A) :
  respects R m -> (forall e, respects R (handler e)) -> respects R (try_catch m handler).
Proof.
  intros Hm Hh s. unfold try_catch. specialize (Hm s).
  destruct (m s) as [[a|e] s1]; cbn [snd] in *; [exact Hm|].
  etransitivity; [exact Hm|apply Hh].
Qed.

Lemma respects_emit e : is_notification e = false -> respects R (emit e).
Proof. intros He s. now apply stable_record. Qed.

Lemma respects_getToolRegistry : respects R getToolRegistry.
Proof. intros s. reflexivity. Qed.

Lemma respects_get_cache : respects R get_cache.
Proof. intros s. reflexivity. Qed.

Lemma respects_cache_set apiName swagger : respects R (cache_set apiName swagger).
Proof. intros s. apply stable_cache. Qed.

Lemma respects_clearSchemaCache : respects R clearSchemaCache.
Proof. intros s. apply stable_cache. Qed.

Section Oracles.

Variable tokenProvider : list Effect -> Outcome string.
Variable armListConnections : list Effect -> Outcome (option (list ArmConnection)).
Variable armGetManagedApi : list Effect -> string -> Outcome json.
Variable server_tool : list Effect -> string -> option JsError.
Variable parseOpenApiSpec : json -> string -> Outcome (list ParsedOperation).

Lemma respects_await_token : respects R (await_token tokenProvider).
Proof. intros s. now apply stable_record. Qed.

Lemma respects_arm_list : respects R (arm_list_connections armListConnections).
Proof. intros s. now apply stable_record. Qed.

Lemma respects_arm_get apiName :
  respects R (arm_get_managed_api armGetManagedApi apiName).
Proof. intros s. now apply stable_record. Qed.

Lemma respects_call_server_tool toolName :
  respects R (call_server_tool server_tool toolName).
Proof.
  intros s. unfold call_server_tool.
  destruct (server_tool (history s) toolName); [reflexivity|].
  now apply stable_record.
Qed.

Lemma respects_fetchApiSchema apiName :
  respects R (fetchApiSchema armGetManagedApi apiName).
Proof.
  unfold fetchApiSchema. apply respects_bind; [apply respects_get_cache|].
  intros cache. destruct (cache !! apiName); [apply respects_ret|].
  apply respects_bind; [now apply respects_emit|]. intros _.
  apply respects_bind; [apply respects_arm_get|]. intros result.
  apply respects_bind; [|intros _; apply respects_ret].
  destruct (Js.truthy result); [apply respects_cache_set|now apply respects_emit].
Qed.

Lemma respects_registerOps_loop conn ops registered skipped :
  respects R (registerOps_loop server_tool conn ops registered skipped).
Proof.
  revert registered skipped.
  induction ops as [|op ops IH]; intros registered skipped s; [reflexivity|].
  cbn [registerOps_loop]. unfold bind at 1, getToolRegistry.
  destruct (toolRegistry s !! _) eqn:Hfree; [apply IH|].
  unfold bind at 1, call_server_tool.
  destruct (server_tool (history s) _); [reflexivity|].
  unfold bind at 1, registry_set.
  set (toolName := buildToolName (apiName conn) (operationId op)) in *.
  etransitivity; [apply (stable_record (ServerTool toolName) s); reflexivity|].
  etransitivity; [|apply IH].
  apply (stable_register conn op (record (ServerTool toolName) s)). exact Hfree.
Qed.

Lemma respects_scan_connection c tally :
  respects R (scan_connection armGetManagedApi server_tool parseOpenApiSpec c tally).
Proof.
  unfold scan_connection. apply respects_try_catch.
  - apply respects_bind; [apply respects_lift|]. intros conn.
    apply respects_bind; [apply respects_fetchApiSchema|]. intros swagger.
    destruct (negb (Js.truthy swagger)).
    + apply respects_bind; [now apply respects_emit|]. intros _. apply respects_ret.
    + apply respects_bind; [apply respects_lift|]. intros allOps.
      apply respects_bind; [apply respects_registerOps_loop|].
      intros stats. apply respects_ret.
  - intros e. apply respects_bind; [now apply respects_emit|].
    intros _. apply respects_ret.
Qed.

Lemma respects_scan_connections connections tally :
  respects R (scan_connections armGetManagedApi server_tool parseOpenApiSpec
                connections tally).
Proof.
  revert tally. induction connections as [|c rest IH]; intros tally;
    [apply respects_ret|].
  cbn [scan_connections]. apply respects_bind; [apply respects_scan_connection|].
  exact IH.
Qed.

Lemma respects_registerDynamicTools :
  respects R (registerDynamicTools tokenProvider armListConnections armGetManagedApi
                server_tool parseOpenApiSpec).
Proof.
  unfold registerDynamicTools.
  apply respects_bind; [apply respects_await_token|]. intros token.
  apply respects_bind; [apply respects_arm_list|]. intros connResult.
  apply respects_bind; [apply respects_scan_connections|]. intros tally.
  apply respects_bind; [now apply respects_emit|]. intros _. apply respects_ret.
Qed.

Lemma respects_refresh_tools :
  respects R (refresh_tools tokenProvider armListConnections armGetManagedApi
                server_tool parseOpenApiSpec).
Proof.
  unfold refresh_tools. apply respects_try_catch.
  - apply respects_bind; [apply respects_clearSchemaCache|]. intros _.
    apply respects_bind; [apply respects_registerDynamicTools|].
    intros result. apply respects_ret.
  - intros e. apply respects_bind; [now apply respects_emit|].
    intros _. apply respects_ret.
Qed.

End Oracles.

End Respects.

Section Registry.

Variable tokenProvider : list Effect -> Outcome string.
Variable armListConnections : list Effect -> Outcome (option (list ArmConnection)).
Variable armGetManagedApi : list Effect -> string -> Outcome json.
Variable server_tool : list Effect -> string -> option JsError.
Variable parseOpenApiSpec : json -> string -> Outcome (list ParsedOperation).

Lemma Extends_record e s : Extends s (record e s).
Proof. split; auto. Qed.

Lemma respects_Extends_incremental c :
  respects Extends
    (registerToolsForConnection tokenProvider armGetManagedApi server_tool
       parseOpenApiSpec c).
Proof.
  unfold registerToolsForConnection. apply (respects_try_catch Extends).
  - apply (respects_bind Extends); [apply (respects_lift Extends)|]. intros conn.
    apply (respects_bind Extends); [apply (respects_getToolRegistry Extends)|].
    intros registry. destruct (has_prefix registry _).
    { apply (respects_bind Extends); [now apply (respects_emit Extends)|].
      intros _. apply (respects_ret Extends). }
    apply (respects_bind Extends); [apply (respects_await_token Extends)|].
    intros token.
    apply (respects_bind Extends); [apply (respects_fetchApiSchema Extends)|].
    intros swagger. destruct (negb (Js.truthy swagger)).
    { apply (respects_bind Extends); [now apply (respects_emit Extends)|].
      intros _. apply (respects_ret Extends). }
    apply (respects_bind Extends); [apply (respects_lift Extends)|]. intros allOps.
    apply (respects_bind Extends); [apply (respects_registerOps_loop Extends)|].
    intros stats.
    apply (respects_bind Extends); [|intros _; apply (respects_ret Extends)].
    destruct (0 <? stats.1)%nat; [|apply (respects_ret Extends)].
    intros s. apply Extends_record.
  - intros e. apply (respects_bind Extends); [now apply (respects_emit Extends)|].
    intros _. apply (respects_ret Extends).
Qed.

Lemma Extends_consistent s s' :
  Extends s s' -> registry_consistent (toolRegistry s) ->
  registry_consistent (toolRegistry s').
Proof. intros [_ Hnew] Hinv k v [Hold|Hname]%Hnew; [now apply Hinv|exact Hname]. Qed.

Lemma step_consistent s s' :
  step tokenProvider armListConnections armGetManagedApi server_tool
    parseOpenApiSpec s s' ->
  registry_consistent (toolRegistry s) -> registry_consistent (toolRegistry s').
Proof.
  intros [s0|c s0|s0|s0|s0].
  - apply Extends_consistent, (respects_registerDynamicTools Extends).
  - apply Extends_consistent, respects_Extends_incremental.
  - apply Extends_consistent, (respects_refresh_tools Extends).
  - intros _ k v. cbn. now rewrite lookup_empty.
  - exact id.
Qed.

End Registry.

(** C8 (refresh is additive): every entry of the tool registry before a
    [refresh_tools] is still there, unchanged, after it; the handler only
    clears the schema cache, and registration only adds entries. *)
Theorem refresh_tools_keeps_registry
  (tokenProvider : list Effect -> Outcome string)
  (armListConnections : list Effect -> Outcome (option (list ArmConnection)))
  (armGetManagedApi : list Effect -> string -> Outcome json)
  (server_tool : list Effect -> string -> option JsError)
  (parseOpenApiSpec : json -> string -> Outcome (list ParsedOperation))
  (s : State) (k : string) (v : DynamicToolContext) :
  toolRegistry s !! k = Some v ->
  toolRegistry
    (snd (refresh_tools tokenProvider armListConnections armGetManagedApi
            server_tool parseOpenApiSpec s)) !! k = Some v.
Proof.
  apply (respects_refresh_tools Extends tokenProvider armListConnections
           armGetManagedApi server_tool parseOpenApiSpec s).
Qed.

(** C9 (registry name consistency): in every state reached from the
    initial one by startup registration, incremental registration,
    refresh and the two clearing functions, each key of the registry is
    [buildToolName] of the connection's [apiName] and the operation's
    [operationId] of its entry, hence starts with [<apiName>_]. *)
Theorem registry_names_consistent
  (tokenProvider : list Effect -> Outcome string)
  (armListConnections : list Effect -> Outcome (option (list ArmConnection)))
  (armGetManagedApi : list Effect -> string -> Outcome json)
  (server_tool : list Effect -> string -> option JsError)
  (parseOpenApiSpec : json -> string -> Outcome (list ParsedOperation))
  (s : State) :
  reachable tokenProvider armListConnections armGetManagedApi server_tool
    parseOpenApiSpec s ->
  registry_consistent (toolRegistry s)
  /\ (forall k v, toolRegistry s !! k = Some v ->
        startsWith k (apiName (connection v) +:+ "_") = true).
Proof.
  intros Hreach.
  assert (Hinv : registry_consistent (toolRegistry s)).
  { induction Hreach as [|s s' _ IH Hstep].
    - intros k v. cbn. now rewrite lookup_empty.
    - eapply step_consistent; eauto. }
  split; [exact Hinv|].
  intros k v Hk. rewrite (Hinv k v Hk). apply buildToolName_prefix.
Qed.

Lemma refresh_tools_keeps_registry_witness :
  let office365 := LifecycleFixtures.makeArmConnectionResponse "office365" "office365" in
  let teams := LifecycleFixtures.makeArmConnectionResponse "teams-conn" "teams" in
  let before :=
    snd (registerToolsForConnection LifecycleFixtures.token_ok
           (LifecycleFixtures.arm_returns LifecycleFixtures.swagger)
           LifecycleFixtures.server_ok LifecycleFixtures.parse_two office365 initial) in
  let after :=
    snd (refresh_tools LifecycleFixtures.token_ok
           (LifecycleFixtures.connections_of [office365; teams])
           (LifecycleFixtures.arm_returns LifecycleFixtures.swagger)
           LifecycleFixtures.server_ok LifecycleFixtures.parse_two before) in
  exists ctx,
    toolRegistry before !! "office365_send_email" = Some ctx
    /\ toolRegistry after !! "office365_send_email" = Some ctx.
Proof.
  cbv zeta. eexists. split.
  - vm_compute. reflexivity.
  - apply refresh_tools_keeps_registry. vm_compute. reflexivity.
Defined.

Lemma registry_names_consistent_witness :
  let s :=
    snd (registerToolsForConnection LifecycleFixtures.token_ok
           (LifecycleFixtures.arm_returns LifecycleFixtures.swagger)
           LifecycleFixtures.server_ok LifecycleFixtures.parse_two
           (LifecycleFixtures.makeArmConnectionResponse "office365" "office365")
           initial) in
  registry_consistent (toolRegistry s)
  /\ (forall k v, toolRegistry s !! k = Some v ->
        startsWith k (apiName (connection v) +:+ "_") = true).
Proof.
  apply (registry_names_consistent LifecycleFixtures.token_ok
           LifecycleFixtures.no_connections
           (LifecycleFixtures.arm_returns LifecycleFixtures.swagger)
           LifecycleFixtures.server_ok LifecycleFixtures.parse_two).
  eapply reachable_step; [apply reachable_initial|apply step_incremental].
Defined.

(** ** Fetching the managed-API document *)

Section FetchApiSchema.

Variable armGetManagedApi : list Effect -> string -> Outcome json.
Variable server_tool : list Effect -> string -> option JsError.
Variable parseOpenApiSpec : json -> string -> Outcome (list ParsedOperation).

Lemma fetchApiSchema_hit apiName s cached :
  schemaCache s !! apiName = Some cached ->
  fetchApiSchema armGetManagedApi apiName s = (Returns cached, s).
Proof. intros H. unfold fetchApiSchema, bind, get_cache. now rewrite H. Qed.

Lemma fetchApiSchema_miss apiName s :
  schemaCache s !! apiName = None ->
  fetchApiSchema armGetManagedApi apiName s
  = let s1 := record (ArmGetManagedApi apiName)
                (record (Log "debug" ("Fetching API schema for " +:+ apiName)) s) in
    match armGetManagedApi (history_at_fetch apiName s) apiName with
    | Throws e => (Throws e, s1)
    | Returns response =>
        (Returns response,
         if Js.truthy response
         then with_cache (<[apiName := response]> (schemaCache s)) s1
         else record (Log "warn" ("No embedded swagger in response for " +:+ apiName)) s1)
    end.
Proof.
  intros H. unfold fetchApiSchema, bind, get_cache. rewrite H.
  unfold emit, arm_get_managed_api, history_at_fetch. cbn.
  destruct (armGetManagedApi _ apiName) as [response|e]; [|reflexivity].
  now destruct (Js.truthy response).
Qed.

End FetchApiSchema.

(** C1, as stated, fails: on an ARM resource that embeds a Swagger
    document the function returns and caches the whole resource, and a
    resource without any Swagger document is returned and cached too
    (instead of [null] and no cache entry). *)
Lemma fetchApiSchema_returns_whole_response :
  let run response :=
    fetchApiSchema (LifecycleFixtures.arm_returns response) "office365" initial in
  (embedded_swagger LifecycleFixtures.armResponse = Some LifecycleFixtures.swagger
   /\ fst (run LifecycleFixtures.armResponse) = Returns LifecycleFixtures.armResponse
   /\ fst (run LifecycleFixtures.armResponse) <> Returns LifecycleFixtures.swagger
   /\ schemaCache (snd (run LifecycleFixtures.armResponse)) !! "office365"
      = Some LifecycleFixtures.armResponse)
  /\ (embedded_swagger LifecycleFixtures.bareResource = None
      /\ fst (run LifecycleFixtures.bareResource) = Returns LifecycleFixtures.bareResource
      /\ fst (run LifecycleFixtures.bareResource) <> Returns JNull
      /\ schemaCache (snd (run LifecycleFixtures.bareResource)) !! "office365"
         = Some LifecycleFixtures.bareResource).
Proof.
  cbv zeta. repeat split; try (vm_compute; reflexivity);
    vm_compute; discriminate.
Qed.

(** C1 (schema fetch, amended): a cached document is returned without any
    request.  Otherwise, when the managed-API fetch succeeds,
    [fetchApiSchema] returns the response itself, as received, and caches
    it under [apiName] when it is truthy; a falsy response (such as
    [null]) is returned as it is, a warning is logged and nothing is
    cached, and the startup scan then skips the connection: the registry
    and the tally are left as they were, no error is counted. *)
Theorem fetchApiSchema_returns_response
  (armGetManagedApi : list Effect -> string -> Outcome json)
  (server_tool : list Effect -> string -> option JsError)
  (parseOpenApiSpec : json -> string -> Outcome (list ParsedOperation))
  (managedApi : string) (s : State) :
  (forall cached,
      schemaCache s !! managedApi = Some cached ->
      fetchApiSchema armGetManagedApi managedApi s = (Returns cached, s))
  /\ (forall response,
        schemaCache s !! managedApi = None ->
        armGetManagedApi (history_at_fetch managedApi s) managedApi = Returns response ->
        let s' := snd (fetchApiSchema armGetManagedApi managedApi s) in
        fst (fetchApiSchema armGetManagedApi managedApi s) = Returns response
        /\ toolRegistry s' = toolRegistry s
        /\ schemaCache s'
           = (if Js.truthy response
              then <[managedApi := response]> (schemaCache s)
              else schemaCache s)
        /\ (Js.truthy response = false ->
            last (history s')
            = Some (Log "warn" ("No embedded swagger in response for " +:+ managedApi))))
  /\ (forall response c conn tally,
        schemaCache s !! managedApi = None ->
        armGetManagedApi (history_at_fetch managedApi s) managedApi = Returns response ->
        Js.truthy response = false ->
        extractConnectionInfo c = Returns conn -> apiName conn = managedApi ->
        let run := scan_connection armGetManagedApi server_tool parseOpenApiSpec
                     c tally s in
        fst run = Returns tally
        /\ toolRegistry (snd run) = toolRegistry s
        /\ schemaCache (snd run) = schemaCache s).
Proof.
  split; [|split].
  - intros cached. apply fetchApiSchema_hit.
  - intros response Hmiss Harm. cbv zeta.
    rewrite (fetchApiSchema_miss _ _ _ Hmiss). cbv zeta. rewrite Harm.
    cbn [fst snd]. split; [reflexivity|].
    destruct (Js.truthy response); cbn; repeat split; try discriminate.
    intros _. now rewrite last_snoc.
  - intros response c conn tally Hmiss Harm Hfalsy Hconn <-. cbv zeta.
    unfold scan_connection, try_catch, bind, lift. rewrite Hconn.
    rewrite (fetchApiSchema_miss _ _ _ Hmiss). cbv zeta.
    rewrite Harm, Hfalsy. cbn. repeat split; reflexivity.
Qed.

Lemma fetchApiSchema_returns_response_witness :
  let run :=
    fetchApiSchema (LifecycleFixtures.arm_returns LifecycleFixtures.armResponse)
      "office365" initial in
  fst run = Returns LifecycleFixtures.armResponse
  /\ toolRegistry (snd run) = ∅
  /\ schemaCache (snd run) = {["office365" := LifecycleFixtures.armResponse]}.
Proof.
  destruct (proj1 (proj2 (fetchApiSchema_returns_response
                            (LifecycleFixtures.arm_returns LifecycleFixtures.armResponse)
                            LifecycleFixtures.server_ok LifecycleFixtures.parse_two
                            "office365" initial))
              LifecycleFixtures.armResponse eq_refl eq_refl)
    as (Hres & Hreg & Hcache & _).
  repeat split; assumption.
Defined.

(** ** Incremental registration *)

Lemma has_prefix_spec (registry : gmap string DynamicToolContext) prefix :
  has_prefix registry prefix = true
  <-> exists k v, registry !! k = Some v /\ startsWith k prefix = true.
Proof.
  unfold has_prefix. rewrite existsb_exists. split.
  - intros (k & Hin & Hk). apply list_elem_of_In, list_elem_of_fmap in Hin
      as ([k' v] & -> & Hin). apply elem_of_map_to_list in Hin. eauto.
  - intros (k & v & Hk & Hp). exists k. split; [|exact Hp].
    apply list_elem_of_In, list_elem_of_fmap. exists (k, v).
    split; [reflexivity|]. now apply elem_of_map_to_list.
Qed.

Lemma has_prefix_Extends s s' prefix :
  Extends s s' -> has_prefix (toolRegistry s) prefix = true ->
  has_prefix (toolRegistry s') prefix = true.
Proof.
  intros [Hkeep _]. rewrite !has_prefix_spec.
  intros (k & v & Hk & Hp). exists k, v. auto.
Qed.

Section Incremental.

Variable tokenProvider : list Effect -> Outcome string.
Variable armGetManagedApi : list Effect -> string -> Outcome json.
Variable server_tool : list Effect -> string -> option JsError.
Variable parseOpenApiSpec : json -> string -> Outcome (list ParsedOperation).

(** The counter of registered tools only grows, and once it has grown a
    tool of this API is in the registry. *)
Lemma registerOps_loop_registered conn ops registered0 skipped0 s registered skipped s' :
  registerOps_loop server_tool conn ops registered0 skipped0 s
    = (Returns (registered, skipped), s') ->
  (registered0 <= registered)%nat
  /\ ((registered0 < registered)%nat ->
      has_prefix (toolRegistry s') (apiName conn +:+ "_") = true).
Proof.
  revert registered0 skipped0 s.
  induction ops as [|op ops IH]; intros registered0 skipped0 s.
  - cbn. intros [= <- <- <-]. split; lia.
  - cbn [registerOps_loop]. unfold bind at 1, getToolRegistry.
    set (toolName := buildToolName (apiName conn) (operationId op)).
    destruct (toolRegistry s !! toolName) eqn:Hfree; [apply IH|].
    unfold bind at 1, call_server_tool.
    destruct (server_tool (history s) toolName); [discriminate|].
    unfold bind at 1, registry_set. intros Hrun.
    pose proof (respects_registerOps_loop Extends server_tool conn ops
                  (S registered0) skipped0
                  (with_registry
                     (<[toolName := {| connection := conn; operation := op |}]>
                        (toolRegistry (record (ServerTool toolName) s)))
                     (record (ServerTool toolName) s))) as Hext.
    rewrite Hrun in Hext. cbn [snd] in Hext.
    apply IH in Hrun as [Hle _]. split; [lia|]. intros _.
    eapply has_prefix_Extends; [exact Hext|].
    apply has_prefix_spec. eexists toolName, _. split.
    + cbn. apply lookup_insert_eq.
    + apply buildToolName_prefix.
Qed.

(** One call of incremental registration. *)
Lemma incremental_call c conn s :
  extractConnectionInfo c = Returns conn ->
  let run := registerToolsForConnection tokenProvider armGetManagedApi
               server_tool parseOpenApiSpec c s in
  if has_prefix (toolRegistry s) (apiName conn +:+ "_")
  then run = (Returns zeros,
              record (Log "info" ("Tools for " +:+ apiName conn
                                  +:+ " already registered, skipping")) s)
  else (Quiet s (snd run)
        \/ (count is_notification (history (snd run))
            = S (count is_notification (history s))
            /\ exists t, fst run = Returns t /\ (0 < registered t)%nat))
       /\ (forall t, fst run = Returns t -> (0 < registered t)%nat ->
             has_prefix (toolRegistry (snd run)) (apiName conn +:+ "_") = true).
Proof.
  intros Hconn. cbv zeta.
  unfold registerToolsForConnection, try_catch, bind, lift, getToolRegistry.
  rewrite Hconn.
  destruct (has_prefix (toolRegistry s) _) eqn:Hpre; [reflexivity|].
  assert (Hlog : forall s0 level message, Quiet s0 (record (Log level message) s0)).
  { intros. now apply stable_record. }
  assert (Htok : Quiet s (record TokenRequested s)) by now apply stable_record.
  unfold await_token.
  destruct (tokenProvider (history s)) as [token|e].
  2:{ cbn. split; [left; etransitivity; [exact Htok|apply Hlog]|].
      intros t [= <-]. cbn. lia. }
  pose proof (respects_fetchApiSchema Quiet armGetManagedApi (apiName conn)
                (record TokenRequested s)) as Hfetch.
  destruct (fetchApiSchema armGetManagedApi (apiName conn) (record TokenRequested s))
    as [[swagger|e] s2]; cbn [snd] in Hfetch.
  2:{ cbn. split; [left; etransitivity; [|apply Hlog]; etransitivity; eauto|].
      intros t [= <-]. cbn. lia. }
  destruct (negb (Js.truthy swagger)).
  { cbn. split; [left; etransitivity; [|apply Hlog]; etransitivity; eauto|].
    intros t [= <-]. cbn. lia. }
  destruct (parseOpenApiSpec swagger (apiName conn)) as [allOps|e].
  2:{ cbn. split; [left; etransitivity; [|apply Hlog]; etransitivity; eauto|].
      intros t [= <-]. cbn. lia. }
  unfold registerOps.
  pose proof (respects_registerOps_loop Quiet server_tool conn
                (filterOperations allOps) 0 0 s2) as Hops.
  destruct (registerOps_loop server_tool conn (filterOperations allOps) 0 0 s2)
    as [[[r k]|e] s3] eqn:Hrun; cbn [snd] in Hops.
  2:{ cbn. split; [left; etransitivity; [|apply Hlog]; etransitivity;
                    [|exact Hops]; etransitivity; eauto|].
      intros t [= <-]. cbn. lia. }
  apply registerOps_loop_registered in Hrun as [_ Hreg].
  cbn [fst snd]. destruct (0 <? r)%nat eqn:Hr; cbn.
  - apply Nat.ltb_lt in Hr. split.
    + right. split; [|eexists; split; [reflexivity|exact Hr]].
      rewrite List.filter_app, length_app. cbn. unfold Quiet, count in *. lia.
    + intros t _ _. now apply Hreg.
  - apply Nat.ltb_ge in Hr. split.
    + left. etransitivity; [|exact Hops]. etransitivity; eauto.
    + intros t [= <-]. cbn. lia.
Qed.

Lemma Offline_record_log level message s : Offline s (record (Log level message) s).
Proof.
  unfold Offline. rewrite !count_record. cbn. repeat split; lia.
Qed.

End Incremental.

(** C4, as stated, fails: when the first call registers nothing because
    the schema fetch failed, a second call for the same [apiName] fetches
    again and does grow the registry. *)
Lemma incremental_second_call_grows_registry :
  let call name s :=
    registerToolsForConnection LifecycleFixtures.token_ok
      (LifecycleFixtures.arm_flaky LifecycleFixtures.swagger)
      LifecycleFixtures.server_ok LifecycleFixtures.parse_two
      (LifecycleFixtures.makeArmConnectionResponse name "office365") s in
  let run1 := call "office365" initial in
  let run2 := call "office365-2" (snd run1) in
  fst run1 = Returns {| registered := 0; skipped := 0; errors := 1 |}
  /\ fst run2 = Returns {| registered := 2; skipped := 0; errors := 0 |}
  /\ size (toolRegistry (snd run1)) = 0%nat
  /\ size (toolRegistry (snd run2)) = 2%nat.
Proof. vm_compute. repeat split; reflexivity. Qed.

(** C4 (incremental registration, amended): two calls for connections
    with the same [apiName] send at most one
    [notifications/tools/list_changed] between them; when the first call
    registered at least one tool, the second returns all zeros and leaves
    the registry (hence its size) and the cache as they were, without any
    request to ARM or notification; a call made while some key of the
    registry begins with [<apiName>_] returns all zeros in the same way;
    and a call sends a notification only when it reports
    [registered > 0]. *)
Theorem incremental_registration_twice
  (tokenProvider : list Effect -> Outcome string)
  (armGetManagedApi : list Effect -> string -> Outcome json)
  (server_tool : list Effect -> string -> option JsError)
  (parseOpenApiSpec : json -> string -> Outcome (list ParsedOperation))
  (c1 c2 : ArmConnection) (conn1 conn2 : ConnectionInfo) (s : State) :
  extractConnectionInfo c1 = Returns conn1 ->
  extractConnectionInfo c2 = Returns conn2 ->
  apiName conn1 = apiName conn2 ->
  let run1 := registerToolsForConnection tokenProvider armGetManagedApi
                server_tool parseOpenApiSpec c1 s in
  let run2 := registerToolsForConnection tokenProvider armGetManagedApi
                server_tool parseOpenApiSpec c2 (snd run1) in
  (count is_notification (history (snd run2))
   <= S (count is_notification (history s)))%nat
  /\ (forall t, fst run1 = Returns t -> (0 < registered t)%nat ->
        fst run2 = Returns zeros
        /\ Offline (snd run1) (snd run2)
        /\ size (toolRegistry (snd run2)) = size (toolRegistry (snd run1)))
  /\ (has_prefix (toolRegistry s) (apiName conn1 +:+ "_") = true ->
      fst run1 = Returns zeros /\ Offline s (snd run1))
  /\ (count is_notification (history (snd run1))
      <> count is_notification (history s) ->
      exists t, fst run1 = Returns t /\ (0 < registered t)%nat).
Proof.
  intros Hc1 Hc2 Hsame. cbv zeta.
  pose proof (incremental_call tokenProvider armGetManagedApi server_tool
                parseOpenApiSpec c1 conn1 s Hc1) as H1.
  set (run1 := registerToolsForConnection _ _ _ _ c1 s) in *.
  pose proof (incremental_call tokenProvider armGetManagedApi server_tool
                parseOpenApiSpec c2 conn2 (snd run1) Hc2) as H2.
  set (run2 := registerToolsForConnection _ _ _ _ c2 (snd run1)) in *.
  cbv zeta in H1, H2. rewrite <- Hsame in H2.
  assert (Hshort : has_prefix (toolRegistry (snd run1)) (apiName conn1 +:+ "_") = true ->
            fst run2 = Returns zeros /\ Offline (snd run1) (snd run2)).
  { intros Hp. rewrite Hp in H2. split; [exact (f_equal fst H2)|].
    replace (snd run2) with (snd (Returns zeros,
      record (Log "info" ("Tools for " +:+ apiName conn1
                          +:+ " already registered, skipping")) (snd run1)))
      by exact (f_equal snd (eq_sym H2)).
    apply Offline_record_log. }
  destruct (has_prefix (toolRegistry s) (apiName conn1 +:+ "_")) eqn:Hpre.
  - assert (Hoff1 : Offline s (snd run1)).
    { replace (snd run1) with (snd (Returns zeros,
        record (Log "info" ("Tools for " +:+ apiName conn1
                            +:+ " already registered, skipping")) s))
        by exact (f_equal snd (eq_sym H1)).
      apply Offline_record_log. }
    assert (Hp1 : has_prefix (toolRegistry (snd run1)) (apiName conn1 +:+ "_") = true).
    { destruct Hoff1 as (E1 & _). now rewrite E1. }
    destruct (Hshort Hp1) as [Hres2 Hoff2].
    split; [|split; [|split]].
    + destruct Hoff1 as (_ & _ & _ & E1), Hoff2 as (_ & _ & _ & E2). lia.
    + intros t _ _. split; [exact Hres2|]. split; [exact Hoff2|].
      destruct Hoff2 as (E2 & _). now rewrite E2.
    + intros _. split; [exact (f_equal fst H1)|exact Hoff1].
    + destruct Hoff1 as (_ & _ & _ & E1). intros Hne. now destruct Hne.
  - destruct H1 as [Hnotif Hreg].
    split; [|split; [|split]].
    + destruct Hnotif as [Hq|(Hcount & t & Ht & Hpos)].
      * unfold Quiet in Hq.
        destruct (has_prefix (toolRegistry (snd run1)) _) eqn:Hp1.
        -- destruct (Hshort eq_refl) as [_ (_ & _ & _ & E2)]. lia.
        -- destruct H2 as [[Hq2|[Hc2' _]] _]; [unfold Quiet in Hq2|]; lia.
      * destruct (Hshort (Hreg t Ht Hpos)) as [_ (_ & _ & _ & E2)]. lia.
    + intros t Ht Hpos. destruct (Hshort (Hreg t Ht Hpos)) as [Hres Hoff].
      split; [exact Hres|]. split; [exact Hoff|].
      destruct Hoff as (E2 & _). now rewrite E2.
    + discriminate.
    + intros Hne. destruct Hnotif as [Hq|(_ & t & Ht & Hpos)]; [|eauto].
      now destruct Hne.
Qed.

Lemma incremental_registration_twice_witness :
  let call name s :=
    registerToolsForConnection LifecycleFixtures.token_ok
      (LifecycleFixtures.arm_returns LifecycleFixtures.swagger)
      LifecycleFixtures.server_ok LifecycleFixtures.parse_two
      (LifecycleFixtures.makeArmConnectionResponse name "office365") s in
  let run1 := call "office365" initial in
  let run2 := call "office365-2" (snd run1) in
  (count is_notification (history (snd run2)) <= 1)%nat
  /\ fst run2 = Returns zeros
  /\ size (toolRegistry (snd run2)) = size (toolRegistry (snd run1)).
Proof.
  cbv zeta.
  destruct (incremental_registration_twice LifecycleFixtures.token_ok
              (LifecycleFixtures.arm_returns LifecycleFixtures.swagger)
              LifecycleFixtures.server_ok LifecycleFixtures.parse_two
              (LifecycleFixtures.makeArmConnectionResponse "office365" "office365")
              (LifecycleFixtures.makeArmConnectionResponse "office365-2" "office365")
              _ _ initial eq_refl eq_refl eq_refl)
    as (Hcount & Hsecond & _ & _).
  split; [exact Hcount|].
  destruct (Hsecond {| registered := 2; skipped := 0; errors := 0 |})
    as (Hres & _ & Hsize).
  - vm_compute. reflexivity.
  - cbn. lia.
  - split; [exact Hres|exact Hsize].
Defined.

(** * Further properties *)

(** ** Filtering and deduplication *)

Lemma filter_all {A} (P : A -> bool) (l : list A) :
  Forall (fun x => P x = true) l -> List.filter P l = l.
Proof.
  induction 1 as [|x l Hx _ IH]; [reflexivity|]. cbn. now rewrite Hx, IH.
Qed.

Lemma Forall_filter_true {A} (P : A -> bool) (l : list A) :
  Forall (fun x => P x = true) (List.filter P l).
Proof. apply List.Forall_forall. now intros x [_ Hx]%List.filter_In. Qed.

Lemma dedup_in_input ops op : In op (deduplicateByFamily ops) -> In op ops.
Proof. unfold deduplicateByFamily. now intros [H _]%List.filter_In. Qed.

(** X1: nothing internal, no trigger and no [$subscriptions] endpoint ever
    gets through [filterOperations], and the function only selects among
    the operations it is given, in their order. *)
Theorem filterOperations_sound (ops : list ParsedOperation) :
  Forall (fun op => visibility op <> "internal" /\ isTrigger op = false
                    /\ includes (path op) "$subscriptions" = false)
    (filterOperations ops)
  /\ sublist (filterOperations ops) ops.
Proof.
  split.
  - apply List.Forall_forall. intros op Hin.
    apply dedup_in_input, List.filter_In in Hin as [_ Hpass].
    unfold passes_filters in Hpass.
    destruct (String.eqb_spec (visibility op) "internal"); [discriminate|].
    destruct (isTrigger op); [discriminate|].
    destruct (includes (path op) "$subscriptions"); [discriminate|]. auto.
  - unfold filterOperations, deduplicateByFamily. cbv zeta.
    etransitivity; apply filter_sublist.
Qed.

(** X2: deduplicating twice changes nothing more, and neither does
    filtering twice, on a list of distinct operation objects. *)
Theorem deduplicateByFamily_idempotent (ops : list ParsedOperation) :
  NoDup (op_ref <$> ops) ->
  deduplicateByFamily (deduplicateByFamily ops) = deduplicateByFamily ops
  /\ filterOperations (filterOperations ops) = filterOperations ops.
Proof.
  assert (Hidem : forall l, NoDup (op_ref <$> l) ->
            deduplicateByFamily (deduplicateByFamily l) = deduplicateByFamily l).
  { intros l Hnd.
    pose proof (deduplicateByFamily_spec l Hnd) as [Hfam Hno Hsub].
    set (out := deduplicateByFamily l) in *.
    assert (Hnd' : NoDup (op_ref <$> out))
      by (eapply sublist_NoDup; [exact Hnd|now apply fmap_sublist]).
    unfold deduplicateByFamily at 1. cbv zeta. apply filter_all, List.Forall_forall.
    intros x Hx. destruct (family_of x) as [fam|] eqn:Hf.
    - apply (survives_family out x fam Hnd' Hx Hf).
      assert (Hxin : In x l) by now apply dedup_in_input.
      destruct (Hfam fam x Hxin Hf) as (w & Hone & _).
      assert (Hmem : forall y, In y out -> family_of y = Some fam -> y = w).
      { intros y Hy Hfy.
        assert (In y (members fam out)) as Hin.
        { apply List.filter_In. split; [exact Hy|now apply bool_decide_eq_true]. }
        rewrite Hone in Hin. now destruct Hin as [<-|[]]. }
      pose proof (build_familyMap_inv out fam) as Hinv.
      destruct (build_familyMap out !! fam) as [w'|]; [|now destruct (Hinv x Hx)].
      rewrite (Hmem x Hx Hf).
      now rewrite (Hmem w' (first_max_In _ _ _ Hinv) (first_max_family _ _ _ Hinv)).
    - unfold survives. rewrite Hf. apply negb_true_iff.
      now apply (proj1 (Hno x Hf)). }
  intros Hnd. split; [now apply Hidem|].
  unfold filterOperations. cbv zeta.
  set (mid := deduplicateByFamily (List.filter passes_filters ops)).
  assert (Hpass : List.filter passes_filters mid = mid).
  { apply filter_all, List.Forall_forall. intros x Hx.
    now apply dedup_in_input, List.filter_In in Hx as [_ Hx]. }
  rewrite Hpass. apply Hidem, passes_filters_refs, Hnd.
Qed.

Lemma deduplicateByFamily_idempotent_witness :
  let ops := [Fixtures.deleteMessage; Fixtures.deleteMessageV2; Fixtures.sendEmail] in
  deduplicateByFamily (deduplicateByFamily ops) = deduplicateByFamily ops
  /\ filterOperations (filterOperations ops) = filterOperations ops.
Proof.
  apply (deduplicateByFamily_idempotent
           [Fixtures.deleteMessage; Fixtures.deleteMessageV2; Fixtures.sendEmail]).
  apply (bool_decide_unpack (NoDup (op_ref <$> _))). vm_compute. exact I.
Defined.

(** ** Names *)









(** X4: the names that [sanitizeKey] leaves unchanged are exactly the
    clean ones (non-empty, at most 64 characters of the class, no leading
    dot or hyphen, no doubled underscore); every other name is rewritten. *)
Theorem sanitizeKey_fixpoints (name : string) :
  sanitizeKey name = name <-> clean_key name = true.
Proof.
  unfold clean_key. rewrite !andb_true_iff, negb_true_iff, Nat.leb_le.
  split.
  - intros Hfix. rewrite sanitizeKey_steps in Hfix.
    destruct (sanitize_steps_shape name) as (Hk & Hl & Hn & Hlen). cbv zeta in *.
    destruct (sanitize_steps name) as [|c t] eqn:E.
    + subst name. repeat split; reflexivity || (cbn; lia).
    + rewrite <- Hfix. repeat split; auto.
  - intros ((((Hne & Hlen) & Hk) & Hl) & Hn).
    rewrite sanitizeKey_steps, (sanitize_steps_fixpoint _ Hk Hl Hn Hlen).
    destruct name; [discriminate|reflexivity].
Qed.

(** ** The input-schema generator *)

Section SchemaFacts.

Import Schema.

Context {ZodTypeAny : Type}.
Variable zodForParam : ParsedParameter -> ZodTypeAny.
Variable zodForBodyProp : ParsedBodyProperty -> ZodTypeAny.

Implicit Types (result : gmap string ZodTypeAny) (k : string).

Lemma in_schema_params op param :
  In param (schema_params op)
  <-> In param (parameters op) /\ p_name param <> "connectionId".
Proof.
  unfold schema_params. rewrite List.filter_In, negb_true_iff.
  now rewrite String.eqb_neq.
Qed.

(** Where the keys of the parameter loop come from. *)
Lemma param_loop_keys params result k :
  is_Some (foldl (param_step zodForParam) result params !! k) ->
  is_Some (result !! k)
  \/ exists param, In param params /\ p_name param <> "connectionId"
                   /\ k = sanitizeKey (p_name param).
Proof.
  revert result. induction params as [|param params IH]; intros result; [now left|].
  cbn [foldl]. intros [H|(p & Hin & Hrest)]%IH.
  - unfold param_step in H.
    destruct (String.eqb_spec (p_name param) "connectionId"); [now left|].
    destruct (decide (sanitizeKey (p_name param) = k)) as [<-|Hne].
    + right. exists param. split; [now left|]. now split.
    + rewrite lookup_insert_ne in H by exact Hne. now left.
  - right. exists p. split; [now right|exact Hrest].
Qed.

Lemma body_loop_keys props result k :
  is_Some (foldl (body_step zodForBodyProp) result props !! k) ->
  is_Some (result !! k)
  \/ exists entry, In entry props /\ is_binary entry.2 = false
                   /\ (k = sanitizeKey entry.1 \/ k = "body_" +:+ sanitizeKey entry.1).
Proof.
  revert result. induction props as [|[name prop] props IH]; intros result; [now left|].
  cbn [foldl]. intros [H|(e & Hin & Hrest)]%IH.
  - unfold body_step in H. destruct (is_binary prop) eqn:Hbin; [now left|].
    cbv zeta in H.
    destruct (js_in (sanitizeKey name) result);
      match type of H with
      | is_Some (<[?key := _]> _ !! _) =>
          destruct (decide (key = k)) as [<-|Hne];
            [right; exists (name, prop); split; [now left|]; split; [exact Hbin|]; auto
            |rewrite lookup_insert_ne in H by exact Hne; now left]
      end.
  - right. exists e. split; [now right|exact Hrest].
Qed.

(** A key, once set, stays. *)
Lemma param_loop_keeps params result k :
  is_Some (result !! k) -> is_Some (foldl (param_step zodForParam) result params !! k).
Proof.
  revert result. induction params as [|param params IH]; intros result H; [exact H|].
  cbn [foldl]. apply IH. unfold param_step.
  destruct (String.eqb (p_name param) "connectionId"); [exact H|].
  rewrite lookup_insert. case_decide; [eauto|exact H].
Qed.

Lemma body_loop_keeps props result k :
  is_Some (result !! k) -> is_Some (foldl (body_step zodForBodyProp) result props !! k).
Proof.
  revert result. induction props as [|[name prop] props IH]; intros result H; [exact H|].
  cbn [foldl]. apply IH. unfold body_step.
  destruct (is_binary prop); [exact H|]. cbv zeta.
  rewrite lookup_insert. case_decide; [eauto|exact H].
Qed.

Lemma param_loop_sets params result param :
  In param params -> p_name param <> "connectionId" ->
  is_Some (foldl (param_step zodForParam) result params !! sanitizeKey (p_name param)).
Proof.
  revert result. induction params as [|p params IH]; intros result Hin Hne;
    [destruct Hin|]. destruct Hin as [<-|Hin].
  - cbn [foldl]. apply param_loop_keeps. unfold param_step.
    apply String.eqb_neq in Hne. rewrite Hne, lookup_insert_eq. eauto.
  - cbn [foldl]. now apply IH.
Qed.

Lemma body_loop_sets props result name prop :
  In (name, prop) props -> is_binary prop = false ->
  is_Some (foldl (body_step zodForBodyProp) result props !! sanitizeKey name)
  \/ is_Some (foldl (body_step zodForBodyProp) result props
                !! ("body_" +:+ sanitizeKey name)).
Proof.
  revert result. induction props as [|e props IH]; intros result Hin Hbin;
    [destruct Hin|]. destruct Hin as [->|Hin].
  - cbn [foldl]. unfold body_step at 2 4. rewrite Hbin. cbv zeta.
    destruct (js_in (sanitizeKey name) result);
      [right|left]; apply body_loop_keeps; rewrite lookup_insert_eq; eauto.
  - cbn [foldl]. now apply IH.
Qed.

End SchemaFacts.

Lemma sanitizeKey_length name :
  (1 <= String.length (sanitizeKey name) <= 64)%nat
  /\ str_forall Char.is_key_char (sanitizeKey name) = true.
Proof.
  rewrite sanitizeKey_steps.
  destruct (sanitize_steps_shape name) as (Hk & _ & _ & Hlen). cbv zeta in *.
  destruct (sanitize_steps name) as [|c t]; [split; [cbn; lia|reflexivity]|].
  split; [cbn [String.length] in *; lia|exact Hk].
Qed.

Lemma set_all_lookup {V : Type} (pairs : list (string * V)) (result : gmap string V) :
  NoDup pairs.*1 ->
  (forall k v, In (k, v) pairs -> set_all result pairs !! k = Some v)
  /\ (forall k, ~ In k pairs.*1 -> set_all result pairs !! k = result !! k).
Proof.
  unfold set_all. revert result.
  induction pairs as [|[k0 v0] pairs IH]; intros result Hnd.
  - split; [intros ? ? []|reflexivity].
  - rewrite fmap_cons in Hnd. cbn [fst] in Hnd.
    apply NoDup_cons in Hnd as [Hk0 Hnd].
    destruct (IH (<[k0 := v0]> result) Hnd) as [IHin IHout].
    cbn [foldl fst snd]. split.
    + intros k v [[= <- <-]|Hin]; [|now apply IHin].
      rewrite IHout; [apply lookup_insert_eq|].
      intros Hin. apply Hk0. now apply list_elem_of_In.
    + intros k Hout. rewrite fmap_cons in Hout. cbn in Hout.
      rewrite IHout by tauto. apply lookup_insert_ne. tauto.
Qed.

Section SchemaNoCollision.

Import Schema.

Context {ZodTypeAny : Type}.
Variable zodForParam : ParsedParameter -> ZodTypeAny.
Variable zodForBodyProp : ParsedBodyProperty -> ZodTypeAny.

Lemma param_loop_set_all params (result : gmap string ZodTypeAny) :
  foldl (param_step zodForParam) result params
  = set_all result
      ((fun param => (sanitizeKey (p_name param), zodForParam param))
         <$> List.filter (fun param => negb (String.eqb (p_name param) "connectionId"))
               params).
Proof.
  unfold set_all. revert result.
  induction params as [|param params IH]; intros result; [reflexivity|].
  cbn [foldl List.filter]. rewrite IH. unfold param_step at 1.
  destruct (String.eqb (p_name param) "connectionId"); reflexivity.
Qed.

Lemma body_loop_set_all props (result : gmap string ZodTypeAny) :
  let kept := List.filter (fun entry => negb (is_binary entry.2)) props in
  NoDup ((fun entry : string * ParsedBodyProperty => sanitizeKey entry.1) <$> kept) ->
  Forall (fun entry => result !! sanitizeKey entry.1 = None
                       /\ inherited (sanitizeKey entry.1) = false) kept ->
  foldl (body_step zodForBodyProp) result props
  = set_all result
      ((fun entry => (sanitizeKey entry.1, zodForBodyProp entry.2)) <$> kept).
Proof.
  cbv zeta. unfold set_all. revert result.
  induction props as [|[name prop] props IH]; intros result Hnd Hfree; [reflexivity|].
  cbn [foldl List.filter snd] in *. unfold body_step at 2.
  destruct (is_binary prop); cbn [negb] in *; [now apply IH|].
  rewrite fmap_cons in Hnd. apply NoDup_cons in Hnd as [Hname Hnd].
  apply Forall_cons in Hfree as [[Hnone Hproto] Hfree]. cbn [fst] in *.
  cbv zeta. unfold js_in. rewrite Hnone, Hproto.
  rewrite bool_decide_eq_false_2 by (intros [? [=]]). cbn [orb].
  rewrite fmap_cons. cbn [foldl fst snd]. apply IH; [exact Hnd|].
  apply List.Forall_forall. intros entry Hin.
  eapply List.Forall_forall in Hfree as [Hn Hp]; [|exact Hin]. split; [|exact Hp].
  rewrite lookup_insert_ne; [exact Hn|]. intros Heq. apply Hname.
  apply list_elem_of_fmap. exists entry. split; [exact Heq|now apply list_elem_of_In].
Qed.

End SchemaNoCollision.

(** X5: every key of a generated input schema is the sanitised name of a
    parameter other than [connectionId] or of a non-binary body property,
    possibly behind the [body_] prefix.  Hence a key only holds characters
    of [[a-zA-Z0-9_.-]] and is 1 to 69 characters long; it can exceed the
    64 characters of the naming rule only when it carries the prefix. *)
Theorem generateZodSchema_keys {ZodTypeAny : Type}
  (zodForParam : ParsedParameter -> ZodTypeAny)
  (zodForBodyProp : ParsedBodyProperty -> ZodTypeAny)
  (op : ParsedOperation) (k : string) :
  is_Some (Schema.generateZodSchema zodForParam zodForBodyProp op !! k) ->
  ((exists param, In param (Schema.schema_params op) /\ k = sanitizeKey (p_name param))
   \/ (exists entry, In entry (Schema.schema_props op)
                     /\ (k = sanitizeKey entry.1 \/ k = "body_" +:+ sanitizeKey entry.1)))
  /\ str_forall Char.is_key_char k = true
  /\ (1 <= String.length k <= 69)%nat
  /\ ((64 < String.length k)%nat -> startsWith k "body_" = true).
Proof.
  intros Hk.
  assert (Horigin :
    (exists param, In param (Schema.schema_params op) /\ k = sanitizeKey (p_name param))
    \/ (exists entry, In entry (Schema.schema_props op)
                      /\ (k = sanitizeKey entry.1 \/ k = "body_" +:+ sanitizeKey entry.1))).
  { unfold Schema.generateZodSchema in Hk. cbv zeta in Hk.
    assert (Hparams : is_Some (foldl (Schema.param_step zodForParam) ∅ (parameters op) !! k) ->
              exists param, In param (Schema.schema_params op)
                            /\ k = sanitizeKey (p_name param)).
    { intros [H|(param & Hin & Hne & ->)]%param_loop_keys.
      - rewrite lookup_empty in H. now destruct H.
      - exists param. split; [now apply in_schema_params|reflexivity]. }
    unfold Schema.schema_props.
    destruct (requestBody op) as [rb|]; [|left; now apply Hparams].
    apply body_loop_keys in Hk as [Hk|(entry & Hin & Hbin & Hkey)];
      [left; now apply Hparams|].
    right. exists entry. split; [|exact Hkey].
    apply List.filter_In. split; [exact Hin|now rewrite Hbin]. }
  split; [exact Horigin|].
  assert (Hshape : forall name,
            k = sanitizeKey name \/ k = "body_" +:+ sanitizeKey name ->
            str_forall Char.is_key_char k = true
            /\ (1 <= String.length k <= 69)%nat
            /\ ((64 < String.length k)%nat -> startsWith k "body_" = true)).
  { intros name. destruct (sanitizeKey_length name) as [Hlen Hchars].
    intros [->| ->].
    - split; [exact Hchars|]. split; [lia|lia].
    - rewrite str_forall_append, length_append, Hchars.
      split; [reflexivity|]. split; [cbn; lia|]. intros _.
      unfold startsWith. now rewrite strip_prefix_append. }
  destruct Horigin as [(param & _ & Hkey)|(entry & _ & Hkey)]; eauto.
Qed.

Lemma generateZodSchema_keys_witness :
  str_forall Char.is_key_char "body_name" = true
  /\ (1 <= String.length "body_name" <= 69)%nat.
Proof.
  destruct (generateZodSchema_keys SchemaFixtures.ForParam SchemaFixtures.ForBodyProp
              SchemaFixtures.collision "body_name") as (_ & Hchars & Hlen & _).
  - vm_compute. eauto.
  - split; assumption.
Defined.

(** X6: the schema offers every key under which the translator looks a
    value up: the sanitised name of each parameter other than
    [connectionId], and, for each non-binary body property, its sanitised
    name or that name behind [body_] (the two keys that
    [invokeDynamicTool] reads, in this order). *)
Theorem generateZodSchema_offers_lookup_keys {ZodTypeAny : Type}
  (zodForParam : ParsedParameter -> ZodTypeAny)
  (zodForBodyProp : ParsedBodyProperty -> ZodTypeAny)
  (op : ParsedOperation) :
  let schema := Schema.generateZodSchema zodForParam zodForBodyProp op in
  Forall (fun param => is_Some (schema !! sanitizeKey (p_name param)))
    (Schema.schema_params op)
  /\ Forall (fun entry : string * ParsedBodyProperty =>
               is_Some (schema !! sanitizeKey entry.1)
               \/ is_Some (schema !! ("body_" +:+ sanitizeKey entry.1)))
       (Schema.schema_props op).
Proof.
  cbv zeta. unfold Schema.generateZodSchema, Schema.schema_props. cbv zeta. split.
  - apply List.Forall_forall. intros param [Hin Hne]%in_schema_params.
    pose proof (param_loop_sets zodForParam (parameters op) ∅ param Hin Hne) as H.
    destruct (requestBody op); [now apply body_loop_keeps|exact H].
  - destruct (requestBody op) as [rb|]; [|constructor].
    apply List.Forall_forall. intros [name prop] [Hin Hbin]%List.filter_In.
    apply negb_true_iff in Hbin. now apply (body_loop_sets _ _ _ name prop).
Qed.

(** X7: when the sanitised names of the parameters and of the body
    properties of an operation are pairwise distinct, and no body property
    is named like a member of [Object.prototype], the schema has exactly
    these names as keys (no [body_] prefix is used) and each key holds the
    validator of its own parameter or property. *)
Theorem generateZodSchema_without_collision {ZodTypeAny : Type}
  (zodForParam : ParsedParameter -> ZodTypeAny)
  (zodForBodyProp : ParsedBodyProperty -> ZodTypeAny)
  (op : ParsedOperation) :
  NoDup (Schema.schema_names op) ->
  Forall (fun entry : string * ParsedBodyProperty =>
            Schema.inherited (sanitizeKey entry.1) = false) (Schema.schema_props op) ->
  let schema := Schema.generateZodSchema zodForParam zodForBodyProp op in
  (forall k, is_Some (schema !! k) <-> In k (Schema.schema_names op))
  /\ Forall (fun param => schema !! sanitizeKey (p_name param) = Some (zodForParam param))
       (Schema.schema_params op)
  /\ Forall (fun entry : string * ParsedBodyProperty =>
               schema !! sanitizeKey entry.1 = Some (zodForBodyProp entry.2))
       (Schema.schema_props op).
Proof.
  intros Hnd Hproto. cbv zeta.
  set (pairs := ((fun param => (sanitizeKey (p_name param), zodForParam param))
                   <$> Schema.schema_params op)
                ++ ((fun entry : string * ParsedBodyProperty =>
                       (sanitizeKey entry.1, zodForBodyProp entry.2))
                      <$> Schema.schema_props op)).
  assert (Hkeys : pairs.*1 = Schema.schema_names op).
  { unfold pairs, Schema.schema_names. rewrite fmap_app, <- !list_fmap_compose.
    reflexivity. }
  assert (Hschema : Schema.generateZodSchema zodForParam zodForBodyProp op
                    = set_all ∅ pairs).
  { unfold Schema.generateZodSchema, pairs, set_all. cbv zeta.
    rewrite foldl_app. fold (set_all (V := ZodTypeAny)).
    rewrite param_loop_set_all. fold (Schema.schema_params op).
    unfold Schema.schema_names in *. unfold Schema.schema_props in *.
    destruct (requestBody op) as [rb|]; [|reflexivity].
    apply NoDup_app in Hnd as (Hnd1 & Hdisj & Hnd2).
    pose proof (body_loop_set_all zodForBodyProp (properties rb)) as Hbody.
    cbv zeta in Hbody. apply Hbody; [exact Hnd2|]. clear Hbody.
    apply List.Forall_forall. intros entry Hin.
    eapply List.Forall_forall in Hproto; [|exact Hin]. split; [|exact Hproto].
    destruct (set_all_lookup
                ((fun param => (sanitizeKey (p_name param), zodForParam param))
                   <$> Schema.schema_params op) ∅) as [_ Hout].
    { rewrite <- list_fmap_compose. exact Hnd1. }
    rewrite Hout; [apply lookup_empty|].
    rewrite <- list_fmap_compose. intros Hk%list_elem_of_In.
    apply (Hdisj _ Hk). apply list_elem_of_fmap. exists entry.
    split; [reflexivity|now apply list_elem_of_In]. }
  rewrite Hschema.
  assert (Hnd' : NoDup pairs.*1) by now rewrite Hkeys.
  destruct (set_all_lookup pairs (∅ : gmap string ZodTypeAny) Hnd') as [Hin Hout].
  split; [|split].
  - intros k. rewrite <- Hkeys. split.
    + intros Hk. destruct (decide (k ∈ pairs.*1)) as [Hd|Hd]; [now apply list_elem_of_In|].
      rewrite Hout, lookup_empty in Hk; [now destruct Hk|].
      now rewrite <- list_elem_of_In.
    + intros Hk%list_elem_of_In%list_elem_of_fmap. destruct Hk as ([k' v] & -> & Hkv).
      cbn [fst]. rewrite (Hin k' v); [eauto|now apply list_elem_of_In].
  - apply List.Forall_forall. intros param Hp. apply Hin. unfold pairs.
    apply in_or_app. left. apply list_elem_of_In, list_elem_of_fmap.
    exists param. split; [reflexivity|now apply list_elem_of_In].
  - apply List.Forall_forall. intros entry He. apply Hin. unfold pairs.
    apply in_or_app. right. apply list_elem_of_In, list_elem_of_fmap.
    exists entry. split; [reflexivity|now apply list_elem_of_In].
Qed.

Lemma generateZodSchema_without_collision_witness :
  let schema :=
    Schema.generateZodSchema SchemaFixtures.ForParam SchemaFixtures.ForBodyProp
      InvokeFixtures.sendEmail in
  (is_Some (schema !! "Subject") <-> In "Subject" ["Subject"; "Body"])
  /\ (is_Some (schema !! "body_Subject") <-> In "body_Subject" ["Subject"; "Body"]).
Proof.
  cbv zeta.
  destruct (generateZodSchema_without_collision SchemaFixtures.ForParam
              SchemaFixtures.ForBodyProp InvokeFixtures.sendEmail)
    as (Hkeys & _ & _).
  - apply (bool_decide_unpack (NoDup _)). vm_compute. exact I.
  - repeat constructor.
  - split; apply Hkeys.
Defined.

(** ** Runs of the ARM request pipeline *)

Section ArmRuns.

Import Arm ArmRun.

Variable JSON_parse : string -> option json.
Variable transport : nat -> FetchResult.

(** An attempt that settles ends the call. *)
Lemma attempt_settled remaining attempt lastError o :
  settles JSON_parse (transport attempt) = Some o ->
  attempts JSON_parse transport (S remaining) attempt lastError
  = (o, [EvFetch attempt]).
Proof.
  rewrite attempts_S. cbv zeta. unfold settles.
  destruct (transport attempt) as [m|r]; [discriminate|].
  destruct (ok r).
  - destruct (body r) as [text|m]; [|discriminate].
    destruct (String.eqb text ""); [now intros [= <-]|].
    destruct (JSON_parse text); [now intros [= <-]|discriminate].
  - destruct (isRetryable (status r)); [discriminate|]. now intros [= <-].
Qed.

(** An attempt that does not settle is followed, within the budget, by a
    sleep and the next attempt. *)
Lemma attempt_retried remaining attempt lastError :
  settles JSON_parse (transport attempt) = None ->
  (attempt < MAX_RETRIES)%nat ->
  exists lastError',
    attempts JSON_parse transport (S remaining) attempt lastError
    = after [EvFetch attempt; EvSleep attempt]
        (attempts JSON_parse transport remaining (S attempt) lastError').
Proof.
  intros Hs Hlt. rewrite attempts_S. cbv zeta. unfold settles in Hs.
  apply Nat.ltb_lt in Hlt. rewrite Hlt.
  destruct (transport attempt) as [m|r]; [eexists; reflexivity|].
  destruct (ok r).
  - destruct (body r) as [text|m]; [|eexists; reflexivity].
    destruct (String.eqb text ""); [discriminate|].
    destruct (JSON_parse text); [discriminate|eexists; reflexivity].
  - destruct (isRetryable (status r)); [|discriminate]. eexists. reflexivity.
Qed.


Lemma after_after evs run : after evs run = (fst run, evs ++ snd run).
Proof. reflexivity. Qed.

Lemma rounds_settled n attempt remaining lastError o :
  (attempt + n <= MAX_RETRIES)%nat ->
  (attempt + S remaining = MAX_RETRIES + 1)%nat ->
  (forall j, (j < n)%nat -> settles JSON_parse (transport (attempt + j)) = None) ->
  settles JSON_parse (transport (attempt + n)) = Some o ->
  attempts JSON_parse transport (S remaining) attempt lastError
  = (o, rounds attempt n).
Proof.
  revert attempt remaining lastError.
  induction n as [|n IH]; intros attempt remaining lastError Hle Hsum Hnone Hsome.
  - rewrite Nat.add_0_r in Hsome. now apply attempt_settled.
  - destruct (attempt_retried remaining attempt lastError) as [le ->].
    + rewrite <- (Nat.add_0_r attempt). apply Hnone. lia.
    + lia.
    + destruct remaining as [|remaining]; [unfold MAX_RETRIES in *; lia|].
      rewrite (IH (S attempt) remaining le); [reflexivity|lia|lia| |].
      * intros j Hj. replace (S attempt + j)%nat with (attempt + S j)%nat by lia.
        apply Hnone. lia.
      * now replace (S attempt + n)%nat with (attempt + S n)%nat by lia.
Qed.


End ArmRuns.



(** X8 (armRequest): the first attempt that settles decides the call.  When
    attempt [k] (of the four allowed) is the first that is neither a
    retryable status, nor a failure below the HTTP level, nor an OK
    response with a body that is not JSON, the call ends with what that
    attempt settles, after [k + 1] calls to [fetch] separated by [k]
    sleeps. *)
Theorem armRequest_first_settling_attempt
  (JSON_parse : string -> option json) (transport : nat -> Arm.FetchResult)
  (k : nat) (o : Outcome json) :
  (k <= Arm.MAX_RETRIES)%nat ->
  (forall j, (j < k)%nat -> ArmRun.settles JSON_parse (transport j) = None) ->
  ArmRun.settles JSON_parse (transport k) = Some o ->
  Arm.armRequest JSON_parse transport = (o, ArmRun.rounds 0 k).
Proof.
  intros Hk Hnone Hsome. unfold Arm.armRequest.
  replace (Arm.MAX_RETRIES + 1)%nat with (S Arm.MAX_RETRIES) by (unfold Arm.MAX_RETRIES; lia).
  apply rounds_settled; try assumption; unfold Arm.MAX_RETRIES in *; lia.
Qed.

Lemma armRequest_first_settling_attempt_witness :
  Arm.armRequest ArmFixtures.parse_envelope ArmFixtures.flaky
  = (Returns (JObj [("ok", JBool true)]),
     [Arm.EvFetch 0; Arm.EvSleep 0; Arm.EvFetch 1; Arm.EvSleep 1;
      Arm.EvFetch 2; Arm.EvSleep 2; Arm.EvFetch 3]).
Proof.
  apply (armRequest_first_settling_attempt ArmFixtures.parse_envelope
           ArmFixtures.flaky 3).
  - unfold Arm.MAX_RETRIES. lia.
  - intros j Hj. destruct j as [|[|[|j]]]; [reflexivity..|lia].
  - reflexivity.
Defined.




(** ** Accounts of the registration functions *)

Lemma union_absorb (X Y : gset string) x : x ∈ X -> X ∪ Y = X ∪ ({[x]} ∪ Y).
Proof.
  intros Hx. apply set_eq. intros y. rewrite !elem_of_union, elem_of_singleton.
  split; [tauto|]. intros [?|[->|?]]; tauto.
Qed.

Lemma union_shift (X Y : gset string) x : ({[x]} ∪ X) ∪ Y = X ∪ ({[x]} ∪ Y).
Proof.
  apply set_eq. intros y. rewrite !elem_of_union, elem_of_singleton. tauto.
Qed.

#[local] Ltac account :=
  split_and!; try lia; try reflexivity; try assumption;
  try (now left); try (now right).

Section Accounts.

Variable tokenProvider : list Effect -> Outcome string.
Variable armListConnections : list Effect -> Outcome (option (list ArmConnection)).
Variable armGetManagedApi : list Effect -> string -> Outcome json.
Variable server_tool : list Effect -> string -> option JsError.
Variable parseOpenApiSpec : json -> string -> Outcome (list ParsedOperation).

Lemma same_requests_refl s : same_requests s s.
Proof. now repeat split. Qed.

Lemma same_requests_trans s1 s2 s3 :
  same_requests s1 s2 -> same_requests s2 s3 -> same_requests s1 s3.
Proof. unfold same_requests. intros (?&?&?&?) (?&?&?&?). repeat split; congruence. Qed.

Lemma served_record e s :
  served (record e s) = (served s + if is_server_tool e then 1 else 0)%nat.
Proof. unfold served. apply count_record. Qed.

Lemma registerOps_loop_cons conn op ops registered skipped s :
  registerOps_loop server_tool conn (op :: ops) registered skipped s
  = let toolName := buildToolName (apiName conn) (operationId op) in
    match toolRegistry s !! toolName with
    | Some _ => registerOps_loop server_tool conn ops registered (S skipped) s
    | None =>
        match server_tool (history s) toolName with
        | Some e => (Throws e, s)
        | None =>
            registerOps_loop server_tool conn ops (S registered) skipped
              (with_registry
                 (<[toolName := {| connection := conn; operation := op |}]>
                    (toolRegistry s))
                 (record (ServerTool toolName) s))
        end
    end.
Proof.
  cbn [registerOps_loop]. cbv zeta. unfold bind at 1, getToolRegistry.
  destruct (toolRegistry s !! _); [reflexivity|].
  unfold bind at 1, call_server_tool.
  destruct (server_tool (history s) _); reflexivity.
Qed.

(** The loop of [registerOps], whether it ends or [server.tool] throws. *)
Lemma registerOps_loop_account conn ops registered0 skipped0 s :
  let run := registerOps_loop server_tool conn ops registered0 skipped0 s in
  same_requests s (snd run)
  /\ toolRegistry s ⊆ toolRegistry (snd run)
  /\ dom (toolRegistry (snd run))
       ⊆ dom (toolRegistry s) ∪ list_to_set (tool_names conn ops)
  /\ (served (snd run) + size (toolRegistry s)
      = served s + size (toolRegistry (snd run)))%nat
  /\ match fst run with
     | Returns (registered, skipped) =>
         (registered0 <= registered)%nat /\ (skipped0 <= skipped)%nat
         /\ ((registered - registered0) + (skipped - skipped0) = length ops)%nat
         /\ size (toolRegistry (snd run))
            = (size (toolRegistry s) + (registered - registered0))%nat
         /\ dom (toolRegistry (snd run))
            = dom (toolRegistry s) ∪ list_to_set (tool_names conn ops)
     | Throws e =>
         (size (toolRegistry (snd run)) < size (toolRegistry s) + length ops)%nat
     end.
Proof.
  revert registered0 skipped0 s.
  induction ops as [|op ops IH]; intros registered0 skipped0 s; cbv zeta.
  - cbn. split; [apply same_requests_refl|]. split; [reflexivity|].
    split; [apply union_subseteq_l|]. split; [lia|]. repeat split; try lia.
    now rewrite union_empty_r_L.
  - rewrite registerOps_loop_cons. cbv zeta.
    set (toolName := buildToolName (apiName conn) (operationId op)).
    assert (Hnames : tool_names conn (op :: ops) = toolName :: tool_names conn ops)
      by reflexivity.
    rewrite Hnames. cbn [list_to_set length]. clear Hnames.
    generalize dependent toolName. intros toolName.
    destruct (toolRegistry s !! toolName) as [ctx|] eqn:Hfree.
    + specialize (IH registered0 (S skipped0) s). cbv zeta in IH.
      destruct IH as (Hsame & Hsub & Hdom & Hserved & Hout).
      assert (Hin : toolName ∈ dom (toolRegistry s)) by (apply elem_of_dom; eauto).
      split; [exact Hsame|]. split; [exact Hsub|].
      split. { etransitivity; [exact Hdom|]. apply union_mono_l, union_subseteq_r. }
      split; [exact Hserved|].
      destruct (fst _) as [[registered skipped]|e].
      * destruct Hout as (? & ? & ? & ? & Hd). repeat split; try lia.
        rewrite Hd. now apply union_absorb.
      * lia.
    + destruct (server_tool (history s) toolName) as [e|].
      { cbn. split; [apply same_requests_refl|]. split; [reflexivity|].
        split; [apply union_subseteq_l|]. split; [lia|]. lia. }
      set (s1 := with_registry _ (record (ServerTool toolName) s)).
      specialize (IH (S registered0) skipped0 s1). cbv zeta in IH.
      destruct IH as (Hsame & Hsub & Hdom & Hserved & Hout).
      assert (Hreg1 : toolRegistry s1
                      = <[toolName := {| connection := conn; operation := op |}]>
                          (toolRegistry s)) by reflexivity.
      assert (Hsize1 : size (toolRegistry s1) = S (size (toolRegistry s))).
      { rewrite Hreg1. now apply map_size_insert_None. }
      assert (Hdom1 : dom (toolRegistry s1) = {[toolName]} ∪ dom (toolRegistry s)).
      { rewrite Hreg1. apply dom_insert_L. }
      assert (Hserved1 : served s1 = S (served s)).
      { change (served s1) with (served (record (ServerTool toolName) s)).
        rewrite served_record. cbn. lia. }
      assert (Hsame1 : same_requests s s1).
      { unfold same_requests. split; [reflexivity|].
        change (history s1) with (history (record (ServerTool toolName) s)).
        rewrite !count_record. cbn. lia. }
      split; [eapply same_requests_trans; eauto|].
      split. { etransitivity; [|exact Hsub]. rewrite Hreg1. now apply insert_subseteq. }
      split. { rewrite Hdom1, union_shift in Hdom. exact Hdom. }
      split; [lia|].
      destruct (fst _) as [[registered skipped]|e].
      * destruct Hout as (? & ? & ? & ? & Hd). repeat split; try lia.
        rewrite Hd, Hdom1. apply union_shift.
      * lia.
Qed.

(** [fetchApiSchema] leaves the registry alone, asks for no token and
    sends one request to ARM at most. *)
Lemma fetchApiSchema_account apiName s :
  let s' := snd (fetchApiSchema armGetManagedApi apiName s) in
  toolRegistry s' = toolRegistry s
  /\ count is_token_request (history s') = count is_token_request (history s)
  /\ (count is_arm_request (history s')
      = count is_arm_request (history s)
        + if bool_decide (is_Some (schemaCache s !! apiName)) then 0 else 1)%nat.
Proof.
  cbv zeta. destruct (schemaCache s !! apiName) as [cached|] eqn:Hc.
  - rewrite (fetchApiSchema_hit _ _ _ _ Hc). cbn [snd].
    rewrite bool_decide_eq_true_2 by eauto. repeat split; lia.
  - rewrite (fetchApiSchema_miss _ _ _ Hc). cbv zeta.
    rewrite bool_decide_eq_false_2 by (intros [? [=]]).
    destruct (armGetManagedApi _ apiName) as [response|e]; cbn [snd].
    + destruct (Js.truthy response);
        cbn [toolRegistry history with_cache]; rewrite ?count_record;
        cbn; repeat split; lia.
    + rewrite !count_record. cbn. repeat split; lia.
Qed.





(** X11 (registerOps): the account of one call.  The schema cache and the
    counts of token requests, of requests to ARM and of notifications are
    untouched; the registry only gains entries, all of them under tool
    names of the operations given, one for each tool the server accepted.
    When the call returns, every operation was either registered or
    skipped, the registry has grown by the number registered, and it holds
    the tool name of every operation.  When [server.tool] throws, what
    was registered before stays registered. *)
Theorem registerOps_accounting conn ops s :
  let run := registerOps server_tool conn ops s in
  same_requests s (snd run)
  /\ toolRegistry s ⊆ toolRegistry (snd run)
  /\ dom (toolRegistry (snd run))
       ⊆ dom (toolRegistry s) ∪ list_to_set (tool_names conn ops)
  /\ (served (snd run) + size (toolRegistry s)
      = served s + size (toolRegistry (snd run)))%nat
  /\ match fst run with
     | Returns (registered, skipped) =>
         (registered + skipped = length ops)%nat
         /\ size (toolRegistry (snd run)) = (size (toolRegistry s) + registered)%nat
         /\ dom (toolRegistry (snd run))
            = dom (toolRegistry s) ∪ list_to_set (tool_names conn ops)
     | Throws e =>
         (size (toolRegistry (snd run)) < size (toolRegistry s) + length ops)%nat
     end.
Proof.
  cbv zeta. unfold registerOps.
  pose proof (registerOps_loop_account conn ops 0 0 s) as H. cbv zeta in H.
  destruct H as (Hsame & Hsub & Hdom & Hserved & Hout).
  split; [exact Hsame|]. split; [exact Hsub|]. split; [exact Hdom|].
  split; [exact Hserved|].
  destruct (fst _) as [[registered skipped]|e]; [|exact Hout].
  destruct Hout as (_ & _ & Hsum & Hsize & Hd). split_and!; try lia. exact Hd.
Qed.

(** One call of incremental registration, whatever happens. *)
Lemma incremental_account connectionResponse s :
  let run := registerToolsForConnection tokenProvider armGetManagedApi
               server_tool parseOpenApiSpec connectionResponse s in
  exists t,
    fst run = Returns t
    /\ (errors t = 0%nat \/ t = {| registered := 0; skipped := 0; errors := 1 |})
    /\ count is_notification (history (snd run))
       = (count is_notification (history s)
          + if (0 <? registered t)%nat then 1 else 0)%nat
    /\ toolRegistry s ⊆ toolRegistry (snd run)
    /\ (errors t = 0%nat ->
        size (toolRegistry (snd run)) = (size (toolRegistry s) + registered t)%nat)
    /\ (count is_token_request (history (snd run))
        <= count is_token_request (history s) + 1)%nat
    /\ (count is_arm_request (history (snd run))
        <= count is_arm_request (history s) + 1)%nat.
Proof.
  cbv zeta.
  unfold registerToolsForConnection, try_catch, bind, lift, getToolRegistry,
    registerOps, await_token.
  destruct (extractConnectionInfo connectionResponse) as [conn|e].
  2:{ cbn -[count record]. eexists. split; [reflexivity|]. cbn [registered errors].
      rewrite !count_record. cbn. account. }
  destruct (has_prefix (toolRegistry s) _).
  { cbn -[count record]. eexists. split; [reflexivity|]. cbn [registered errors].
    rewrite !count_record. cbn. account. }
  destruct (tokenProvider (history s)) as [token|e].
  2:{ cbn -[count record]. eexists. split; [reflexivity|]. cbn [registered errors].
      rewrite !count_record. cbn. account. }
  set (s1 := record TokenRequested s).
  assert (H1 : toolRegistry s1 = toolRegistry s
               /\ count is_notification (history s1) = count is_notification (history s)
               /\ count is_token_request (history s1)
                  = S (count is_token_request (history s))
               /\ count is_arm_request (history s1) = count is_arm_request (history s)).
  { unfold s1. rewrite !count_record. cbn. split_and!; try lia; reflexivity. }
  destruct H1 as (Hreg1 & Hn1 & Htok1 & Harm1).
  pose proof (fetchApiSchema_account (apiName conn) s1) as Hf. cbv zeta in Hf.
  pose proof (respects_fetchApiSchema Quiet armGetManagedApi (apiName conn) s1) as Hq.
  unfold Quiet in Hq.
  destruct (fetchApiSchema armGetManagedApi (apiName conn) s1)
    as [[swagger|e] s2]; cbn [snd] in Hf, Hq.
  2:{ cbn -[count record]. eexists. split; [reflexivity|]. cbn [registered errors].
      rewrite !count_record. cbn. destruct Hf as (-> & -> & ->). rewrite Hreg1.
      destruct (bool_decide _); account. }
  assert (Harm : (count is_arm_request (history s2)
                  <= count is_arm_request (history s) + 1)%nat).
  { destruct Hf as (_ & _ & ->). destruct (bool_decide _); lia. }
  destruct Hf as (Hreg & Htok & _).
  destruct (negb (Js.truthy swagger)).
  { cbn -[count record]. eexists. split; [reflexivity|]. cbn [registered errors].
    rewrite !count_record. cbn. rewrite Hreg, Hreg1.
    account. }
  destruct (parseOpenApiSpec swagger (apiName conn)) as [allOps|e].
  2:{ cbn -[count record]. eexists. split; [reflexivity|]. cbn [registered errors].
      rewrite !count_record. cbn. rewrite Hreg, Hreg1.
      account. }
  pose proof (registerOps_loop_account conn (filterOperations allOps) 0 0 s2) as Hops.
  cbv zeta in Hops.
  destruct (registerOps_loop server_tool conn (filterOperations allOps) 0 0 s2)
    as [[[r k]|e] s3]; cbn [fst snd] in Hops;
    destruct Hops as ((_ & Htok3 & Harm3 & Hn3) & Hsub & _ & _ & Hout).
  - destruct Hout as (_ & _ & _ & Hsize & _). rewrite Hreg, Hreg1 in Hsub, Hsize.
    cbn [fst snd].
    destruct r as [|r]; cbn -[count record]; eexists; (split; [reflexivity|]);
      cbn [registered errors]; rewrite ?count_record; cbn; account.
  - rewrite Hreg, Hreg1 in Hsub.
    cbn -[count record]. eexists. split; [reflexivity|]. cbn [registered errors].
    rewrite !count_record. cbn.
    account.
Qed.

(** X12 (registerToolsForConnection): incremental registration never
    throws.  Its tally reports no error, or is exactly one error with
    nothing registered and nothing skipped.  One [list_changed]
    notification is sent when the tally reports a registered tool and none
    otherwise; without an error the registry has grown by exactly the
    number reported; at most one token and one request to ARM are asked
    for. *)
Theorem registerToolsForConnection_total connectionResponse s :
  let run := registerToolsForConnection tokenProvider armGetManagedApi
               server_tool parseOpenApiSpec connectionResponse s in
  exists t,
    fst run = Returns t
    /\ (errors t = 0%nat \/ t = {| registered := 0; skipped := 0; errors := 1 |})
    /\ count is_notification (history (snd run))
       = (count is_notification (history s)
          + if (0 <? registered t)%nat then 1 else 0)%nat
    /\ toolRegistry s ⊆ toolRegistry (snd run)
    /\ (errors t = 0%nat ->
        size (toolRegistry (snd run)) = (size (toolRegistry s) + registered t)%nat)
    /\ (count is_token_request (history (snd run))
        <= count is_token_request (history s) + 1)%nat
    /\ (count is_arm_request (history (snd run))
        <= count is_arm_request (history s) + 1)%nat.
Proof. apply incremental_account. Qed.




End Accounts.

(** ** Where the entries of the two maps come from *)

(** The combinators of the monad keep any preorder on the states. *)
Section Preorders.

Context (R : State -> State -> Prop) `{!PreOrder R}.

Lemma keeps_ret {A} (a : A) : respects R (ret a).
Proof. intros s. reflexivity. Qed.

Lemma keeps_lift {A} (o : Outcome A) : respects R (lift o).
Proof. intros s. reflexivity. Qed.

Lemma keeps_bind {A B} (m : M A) (k : A -> M B) :
  respects R m -> (forall a, respects R (k a)) -> respects R (bind m k).
Proof.
  intros Hm Hk s. unfold bind. specialize (Hm s).
  destruct (m s) as [[a|e] s1]; cbn [snd] in *; [|exact Hm].
  etransitivity; [exact Hm|apply Hk].
Qed.

Lemma keeps_try_catch {A} (m : M A) (handler : JsError -> M A) :
  respects R m -> (forall e, respects R (handler e)) ->
  respects R (try_catch m handler).
Proof.
  intros Hm Hh s. unfold try_catch. specialize (Hm s).
  destruct (m s) as [[a|e] s1]; cbn [snd] in *; [exact Hm|].
  etransitivity; [exact Hm|apply Hh].
Qed.

End Preorders.

Section Tracking.

Variable tokenProvider : list Effect -> Outcome string.
Variable armListConnections : list Effect -> Outcome (option (list ArmConnection)).
Variable armGetManagedApi : list Effect -> string -> Outcome json.
Variable server_tool : list Effect -> string -> option JsError.
Variable parseOpenApiSpec : json -> string -> Outcome (list ParsedOperation).

#[local] Abbreviation tracks := (Tracks armGetManagedApi).

Lemma Tracks_refl s : tracks s s.
Proof.
  exists []. split; [now rewrite app_nil_r|]. split; intros; now left.
Qed.

Lemma Tracks_trans s1 s2 s3 : tracks s1 s2 -> tracks s2 s3 -> tracks s1 s3.
Proof.
  intros (evs1 & Hh1 & Hc1 & Hr1) (evs2 & Hh2 & Hc2 & Hr2).
  exists (evs1 ++ evs2). split; [now rewrite Hh2, Hh1, app_assoc|]. split.
  - intros k v [Hk|(Ht & l1 & l2 & -> & Harm)]%Hc2.
    + destruct (Hc1 k v Hk) as [?|(Ht & l1 & l2 & -> & Harm)]; [now left|].
      right. split; [exact Ht|]. exists l1, (l2 ++ evs2). split; [|exact Harm].
      now rewrite <- app_assoc.
    + right. split; [exact Ht|]. exists (evs1 ++ l1), l2.
      split; [now rewrite <- app_assoc|].
      now rewrite app_assoc, <- Hh1.
  - intros k ctx [Hk|Hin]%Hr2.
    + destruct (Hr1 k ctx Hk) as [?|Hin]; [now left|].
      right. apply in_or_app. now left.
    + right. apply in_or_app. now right.
Qed.

#[local] Instance Tracks_preorder : PreOrder tracks.
Proof.
  split; [intros s; apply Tracks_refl|intros s1 s2 s3; apply Tracks_trans].
Qed.

Lemma Tracks_record e s : tracks s (record e s).
Proof. exists [e]. split; [reflexivity|]. split; intros; now left. Qed.

Lemma tracks_emit e : respects tracks (emit e).
Proof. intros s. apply Tracks_record. Qed.

Lemma tracks_fetchApiSchema apiName :
  respects tracks (fetchApiSchema armGetManagedApi apiName).
Proof.
  intros s. destruct (schemaCache s !! apiName) as [cached|] eqn:Hc.
  - rewrite (fetchApiSchema_hit _ _ _ _ Hc). apply Tracks_refl.
  - rewrite (fetchApiSchema_miss _ _ _ Hc). cbv zeta.
    set (s1 := record (ArmGetManagedApi apiName) (record _ s)).
    assert (H1 : tracks s s1).
    { etransitivity; apply Tracks_record. }
    destruct (armGetManagedApi _ apiName) as [response|e] eqn:Harm;
      cbn [snd]; [|exact H1].
    destruct (Js.truthy response) eqn:Ht.
    + exists [Log "debug" ("Fetching API schema for " +:+ apiName);
              ArmGetManagedApi apiName].
      split; [cbn; now rewrite <- app_assoc|]. split.
      * intros k v. cbn [schemaCache with_cache].
        destruct (decide (k = apiName)) as [->|Hne].
        -- rewrite lookup_insert_eq. intros [= <-]. right. split; [exact Ht|].
           eexists [_], []. split; [reflexivity|exact Harm].
        -- rewrite lookup_insert_ne by congruence. now left.
      * intros k ctx Hk. now left.
    + etransitivity; [exact H1|apply Tracks_record].
Qed.

Lemma tracks_registerOps_loop conn ops registered skipped :
  respects tracks (registerOps_loop server_tool conn ops registered skipped).
Proof.
  revert registered skipped.
  induction ops as [|op ops IH]; intros registered skipped s; [apply Tracks_refl|].
  rewrite registerOps_loop_cons. cbv zeta.
  set (toolName := buildToolName (apiName conn) (operationId op)).
  destruct (toolRegistry s !! toolName); [apply IH|].
  destruct (server_tool (history s) toolName); [apply Tracks_refl|].
  etransitivity; [|apply IH].
  exists [ServerTool toolName]. split; [reflexivity|]. split.
  - intros k v Hk. now left.
  - intros k ctx. cbn [toolRegistry with_registry].
    destruct (decide (k = toolName)) as [->|Hne].
    + intros _. right. now left.
    + rewrite lookup_insert_ne by congruence. now left.
Qed.

Lemma tracks_scan_connection c tally :
  respects tracks (scan_connection armGetManagedApi server_tool parseOpenApiSpec c tally).
Proof.
  unfold scan_connection. apply keeps_try_catch; [apply _| |].
  - apply keeps_bind; [apply _|apply keeps_lift, _|]. intros conn.
    apply keeps_bind; [apply _|apply tracks_fetchApiSchema|]. intros swagger.
    destruct (negb (Js.truthy swagger)).
    + apply keeps_bind; [apply _|apply tracks_emit|]. intros _. apply keeps_ret, _.
    + apply keeps_bind; [apply _|apply keeps_lift, _|]. intros allOps.
      apply keeps_bind; [apply _|apply tracks_registerOps_loop|].
      intros stats. apply keeps_ret, _.
  - intros e. apply keeps_bind; [apply _|apply tracks_emit|].
    intros _. apply keeps_ret, _.
Qed.

Lemma tracks_scan_connections connections tally :
  respects tracks (scan_connections armGetManagedApi server_tool parseOpenApiSpec
                     connections tally).
Proof.
  revert tally. induction connections as [|c rest IH]; intros tally;
    [apply keeps_ret, _|].
  cbn [scan_connections]. apply keeps_bind; [apply _|apply tracks_scan_connection|].
  exact IH.
Qed.

Lemma tracks_registerDynamicTools :
  respects tracks (registerDynamicTools tokenProvider armListConnections
                     armGetManagedApi server_tool parseOpenApiSpec).
Proof.
  unfold registerDynamicTools.
  apply keeps_bind; [apply _|intros s; apply Tracks_record|]. intros token.
  apply keeps_bind; [apply _|intros s; apply Tracks_record|]. intros connResult.
  apply keeps_bind; [apply _|apply tracks_scan_connections|]. intros tally.
  apply keeps_bind; [apply _|apply tracks_emit|]. intros _. apply keeps_ret, _.
Qed.

Lemma tracks_registerToolsForConnection c :
  respects tracks (registerToolsForConnection tokenProvider armGetManagedApi
                     server_tool parseOpenApiSpec c).
Proof.
  unfold registerToolsForConnection. apply keeps_try_catch; [apply _| |].
  - apply keeps_bind; [apply _|apply keeps_lift, _|]. intros conn.
    apply keeps_bind; [apply _|intros s; apply Tracks_refl|]. intros registry.
    destruct (has_prefix registry _).
    { apply keeps_bind; [apply _|apply tracks_emit|]. intros _. apply keeps_ret, _. }
    apply keeps_bind; [apply _|intros s; apply Tracks_record|]. intros token.
    apply keeps_bind; [apply _|apply tracks_fetchApiSchema|]. intros swagger.
    destruct (negb (Js.truthy swagger)).
    { apply keeps_bind; [apply _|apply tracks_emit|]. intros _. apply keeps_ret, _. }
    apply keeps_bind; [apply _|apply keeps_lift, _|]. intros allOps.
    apply keeps_bind; [apply _|apply tracks_registerOps_loop|]. intros stats.
    apply keeps_bind; [apply _| |intros _; apply keeps_ret, _].
    destruct (0 <? fst stats)%nat; [apply tracks_emit|apply keeps_ret, _].
  - intros e. apply keeps_bind; [apply _|apply tracks_emit|].
    intros _. apply keeps_ret, _.
Qed.

(** Once the cache is emptied, all of it is fetched anew. *)
Lemma Tracks_after_clear s s' :
  tracks (with_cache ∅ s) s' ->
  exists evs,
    history s' = history s ++ evs
    /\ (forall k v, schemaCache s' !! k = Some v ->
          fetched_in armGetManagedApi (history s) evs k v)
    /\ (forall k ctx, toolRegistry s' !! k = Some ctx ->
          toolRegistry s !! k = Some ctx \/ In (ServerTool k) evs).
Proof.
  intros (evs & Hh & Hc & Hr). exists evs. split; [exact Hh|]. split; [|exact Hr].
  intros k v [Hk|Hf]%Hc; [|exact Hf]. cbn in Hk. now rewrite lookup_empty in Hk.
Qed.

Lemma refresh_tools_tracks s :
  tracks (with_cache ∅ s)
    (snd (refresh_tools tokenProvider armListConnections armGetManagedApi
            server_tool parseOpenApiSpec s)).
Proof.
  unfold refresh_tools, try_catch, bind at 1 2. unfold clearSchemaCache at 1.
  pose proof (tracks_registerDynamicTools (with_cache ∅ s)) as H.
  destruct (registerDynamicTools _ _ _ _ _ (with_cache ∅ s)) as [[t|e] s1];
    cbn [snd] in H; cbn -[Tracks]; [exact H|].
  etransitivity; [exact H|apply Tracks_record].
Qed.

(** Every state reached from the initial one tracks it, but for the
    registry, which [clearToolRegistry] empties. *)
Lemma reachable_tracks s :
  reachable tokenProvider armListConnections armGetManagedApi server_tool
    parseOpenApiSpec s ->
  exists evs,
    history s = evs
    /\ (forall k v, schemaCache s !! k = Some v ->
          fetched_in armGetManagedApi [] evs k v)
    /\ (forall k ctx, toolRegistry s !! k = Some ctx -> In (ServerTool k) evs).
Proof.
  intros Hreach. exists (history s). split; [reflexivity|].
  induction Hreach as [|s s' _ [IHc IHr] Hstep].
  - split; intros k v; cbn; now rewrite lookup_empty.
  - assert (Hkeep : forall s', tracks s s' ->
              (forall k v, schemaCache s' !! k = Some v ->
                 fetched_in armGetManagedApi [] (history s') k v)
              /\ (forall k ctx, toolRegistry s' !! k = Some ctx ->
                    In (ServerTool k) (history s'))).
    { clear s' Hstep. intros s' (evs & Hh & Hc & Hr). rewrite Hh. split.
      - intros k v [Hk|(Ht & l1 & l2 & -> & Harm)]%Hc.
        + destruct (IHc k v Hk) as (Ht & l1 & l2 & Heq & Harm).
          split; [exact Ht|]. exists l1, (l2 ++ evs). split; [|exact Harm].
          now rewrite Heq, <- app_assoc.
        + split; [exact Ht|]. exists (history s ++ l1), l2.
          split; [now rewrite <- app_assoc|exact Harm].
      - intros k ctx [Hk|Hin]%Hr; apply in_or_app; [left; eauto|now right]. }
    destruct Hstep as [s|c s|s|s|s].
    + apply Hkeep, tracks_registerDynamicTools.
    + apply Hkeep, tracks_registerToolsForConnection.
    + destruct (Tracks_after_clear _ _ (refresh_tools_tracks s)) as (evs & Hh & Hc & Hr).
      apply Hkeep. exists evs. split; [exact Hh|]. split; [|exact Hr].
      intros k v Hk. right. now apply Hc.
    + cbn. split; [exact IHc|]. intros k ctx. now rewrite lookup_empty.
    + cbn. split; [|exact IHr]. intros k v. now rewrite lookup_empty.
Qed.

End Tracking.

(** X15 (schemaCache, toolRegistry): in every state reached from the initial
    one by startup registration, incremental registration, refresh and
    the two clearing functions, each cached schema is truthy and is the
    answer that ARM gave to a request for that managed API recorded in
    the history, and each tool of the registry was given to the server. *)
Theorem reachable_state_provenance
  (tokenProvider : list Effect -> Outcome string)
  (armListConnections : list Effect -> Outcome (option (list ArmConnection)))
  (armGetManagedApi : list Effect -> string -> Outcome json)
  (server_tool : list Effect -> string -> option JsError)
  (parseOpenApiSpec : json -> string -> Outcome (list ParsedOperation))
  (s : State) :
  reachable tokenProvider armListConnections armGetManagedApi server_tool
    parseOpenApiSpec s ->
  (forall apiName swagger,
      schemaCache s !! apiName = Some swagger ->
      Js.truthy swagger = true
      /\ exists before rest,
           history s = before ++ ArmGetManagedApi apiName :: rest
           /\ armGetManagedApi before apiName = Returns swagger)
  /\ (forall toolName,
        is_Some (toolRegistry s !! toolName) -> In (ServerTool toolName) (history s)).
Proof.
  intros Hreach.
  destruct (reachable_tracks _ _ _ _ _ _ Hreach) as (evs & <- & Hc & Hr). split.
  - intros apiName swagger Hk. exact (Hc _ _ Hk).
  - intros toolName [ctx Hk]. eauto.
Qed.

Lemma reachable_state_provenance_witness :
  let s :=
    snd (registerToolsForConnection LifecycleFixtures.token_ok
           (LifecycleFixtures.arm_returns LifecycleFixtures.swagger)
           LifecycleFixtures.server_ok LifecycleFixtures.parse_two
           (LifecycleFixtures.makeArmConnectionResponse "office365" "office365")
           initial) in
  schemaCache s !! "office365" = Some LifecycleFixtures.swagger
  /\ (forall apiName swagger,
        schemaCache s !! apiName = Some swagger ->
        Js.truthy swagger = true
        /\ exists before rest,
             history s = before ++ ArmGetManagedApi apiName :: rest
             /\ LifecycleFixtures.arm_returns LifecycleFixtures.swagger before apiName
                = Returns swagger)
  /\ (forall toolName,
        is_Some (toolRegistry s !! toolName) -> In (ServerTool toolName) (history s)).
Proof.
  cbv zeta. split; [vm_compute; reflexivity|].
  apply (reachable_state_provenance LifecycleFixtures.token_ok
           LifecycleFixtures.no_connections
           (LifecycleFixtures.arm_returns LifecycleFixtures.swagger)
           LifecycleFixtures.server_ok LifecycleFixtures.parse_two).
  eapply reachable_step; [apply reachable_initial|apply step_incremental].
Defined.

(** X16 (refresh_tools): a refresh serves no schema from the cache it
    found.  Every schema in the cache after the call is the truthy answer
    to a request sent to ARM during the call, and every entry of the
    registry was there before or was given to the server during the
    call. *)
Theorem refresh_tools_refetches
  (tokenProvider : list Effect -> Outcome string)
  (armListConnections : list Effect -> Outcome (option (list ArmConnection)))
  (armGetManagedApi : list Effect -> string -> Outcome json)
  (server_tool : list Effect -> string -> option JsError)
  (parseOpenApiSpec : json -> string -> Outcome (list ParsedOperation))
  (s : State) :
  let s' := snd (refresh_tools tokenProvider armListConnections armGetManagedApi
                   server_tool parseOpenApiSpec s) in
  exists evs,
    history s' = history s ++ evs
    /\ (forall apiName swagger,
          schemaCache s' !! apiName = Some swagger ->
          fetched_in armGetManagedApi (history s) evs apiName swagger)
    /\ (forall toolName ctx,
          toolRegistry s' !! toolName = Some ctx ->
          toolRegistry s !! toolName = Some ctx \/ In (ServerTool toolName) evs).
Proof.
  cbv zeta. apply Tracks_after_clear, refresh_tools_tracks.
Qed.

(** X17 (fetchApiSchema): what the cache keeps.  A truthy answer is kept:
    the same call made again returns it and changes nothing.  A falsy
    answer and a failure leave the cache as it was, so that the next call
    asks ARM again.  The entries of the other managed APIs are never
    touched. *)
Theorem fetchApiSchema_caches_truthy_answers
  (armGetManagedApi : list Effect -> string -> Outcome json)
  (apiName : string) (s : State) :
  let run := fetchApiSchema armGetManagedApi apiName s in
  (forall other, other <> apiName ->
                 schemaCache (snd run) !! other = schemaCache s !! other)
  /\ match fst run with
     | Returns swagger =>
         if Js.truthy swagger
         then fetchApiSchema armGetManagedApi apiName (snd run)
              = (Returns swagger, snd run)
         else schemaCache (snd run) = schemaCache s
     | Throws _ =>
         schemaCache (snd run) = schemaCache s /\ schemaCache s !! apiName = None
     end.
Proof.
  cbv zeta. destruct (schemaCache s !! apiName) as [cached|] eqn:Hc.
  - rewrite (fetchApiSchema_hit _ _ _ _ Hc). cbn [fst snd]. split; [reflexivity|].
    destruct (Js.truthy cached); [|reflexivity].
    now apply fetchApiSchema_hit.
  - rewrite (fetchApiSchema_miss _ _ _ Hc). cbv zeta.
    destruct (armGetManagedApi _ apiName) as [response|e]; cbn [fst snd].
    + destruct (Js.truthy response) eqn:Ht; rewrite ?Ht.
      * split.
        -- intros other Hne. cbn [schemaCache with_cache].
           now rewrite lookup_insert_ne by congruence.
        -- apply fetchApiSchema_hit. cbn [schemaCache with_cache].
           apply lookup_insert_eq.
      * split; reflexivity.
    + split; [reflexivity|]. split; reflexivity.
Qed.

(** ** The translator, property by property *)

Section TranslatorDelivery.

Import Invoke.

Variable JSON_parse : string -> option json.
Variable params : gmap string json.

Lemma body_step_entry body name prop :
  body_step JSON_parse params body (name, prop)
  = match body_value params name with
    | Some val => <[name := body_entry JSON_parse prop val]> body
    | None => body
    end.
Proof.
  unfold body_step, body_entry, is_object_typed.
  destruct (body_value params name) as [val|]; [|reflexivity].
  destruct val as [| | |s| |]; rewrite ?andb_false_r; try reflexivity.
  cbn [Js.is_string]. rewrite andb_true_r.
  destruct (_ || _); [|reflexivity]. now destruct (JSON_parse s).
Qed.

Lemma body_loop_skip props body k :
  ~ In k props.*1 ->
  foldl (body_step JSON_parse params) body props !! k = body !! k.
Proof.
  revert body. induction props as [|[name prop] props IH]; intros body Hk;
    [reflexivity|].
  cbn [foldl]. rewrite IH by (intros H; apply Hk; now right).
  rewrite body_step_entry. destruct (body_value params name); [|reflexivity].
  apply lookup_insert_ne. intros ->. apply Hk. now left.
Qed.

Lemma body_loop_get props body name prop val :
  NoDup props.*1 -> In (name, prop) props ->
  body_value params name = Some val ->
  foldl (body_step JSON_parse params) body props !! name
  = Some (body_entry JSON_parse prop val).
Proof.
  revert body. induction props as [|[n0 p0] props IH]; intros body Hnd Hin Hval;
    [destruct Hin|].
  rewrite fmap_cons in Hnd. cbn [fst] in Hnd. apply NoDup_cons in Hnd as [Hn0 Hnd].
  cbn [foldl]. destruct Hin as [[= -> ->]|Hin].
  - rewrite body_loop_skip by (intros H; apply Hn0; now apply list_elem_of_In).
    rewrite body_step_entry, Hval. apply lookup_insert_eq.
  - now apply IH.
Qed.

Lemma build_request_body_get op rb name prop val :
  requestBody op = Some rb ->
  NoDup (properties rb).*1 ->
  In (name, prop) (properties rb) ->
  body_value params name = Some val ->
  exists body,
    req_body (build_request JSON_parse op params) = Some body
    /\ req_headers (build_request JSON_parse op params)
       = Some [("Content-Type", "application/json")]
    /\ body !! name = Some (body_entry JSON_parse prop val).
Proof.
  intros Hrb Hnd Hin Hval.
  pose proof (body_loop_get (properties rb) ∅ name prop val Hnd Hin Hval) as Hget.
  unfold build_request. cbv zeta. rewrite param_loop_split, Hrb.
  set (body := foldl (body_step JSON_parse params) ∅ (properties rb)) in *.
  cbn. case_bool_decide as E.
  - rewrite E, lookup_empty in Hget. discriminate.
  - cbn. exists body. now split_and!.
Qed.

End TranslatorDelivery.

Section Collision.

Import Schema.

Context {ZodTypeAny : Type}.
Variable zodForParam : ParsedParameter -> ZodTypeAny.
Variable zodForBodyProp : ParsedBodyProperty -> ZodTypeAny.

(** A body property whose sanitised name is taken goes behind the prefix. *)
Lemma body_loop_collision props (result : gmap string ZodTypeAny) name prop :
  In (name, prop) props -> is_binary prop = false ->
  is_Some (result !! sanitizeKey name) ->
  is_Some (foldl (body_step zodForBodyProp) result props
             !! ("body_" +:+ sanitizeKey name)).
Proof.
  revert result. induction props as [|[n0 p0] props IH]; intros result Hin Hbin Hk;
    [destruct Hin|].
  cbn [foldl]. destruct Hin as [[= -> ->]|Hin].
  - apply body_loop_keeps. unfold body_step. rewrite Hbin. cbv zeta.
    unfold js_in. rewrite (bool_decide_eq_true_2 _ Hk). cbn [orb].
    rewrite lookup_insert_eq. eauto.
  - apply IH; [exact Hin|exact Hbin|].
    unfold body_step. destruct (is_binary p0); [exact Hk|]. cbv zeta.
    rewrite lookup_insert. case_decide; [eauto|exact Hk].
Qed.

End Collision.



(** X19 (generateZodSchema, invokeDynamicTool): a name shared by a parameter
    and a body property.  When the sanitised name of a body property is
    also the one of a parameter, the schema offers both the sanitised
    name and the same name behind [body_]; but the translator fills the
    body property from the sanitised name whenever a value other than
    [null] is supplied there: what is supplied behind [body_] is then not
    read. *)
Theorem collision_body_reads_parameter_key {ZodTypeAny : Type}
  (zodForParam : ParsedParameter -> ZodTypeAny)
  (zodForBodyProp : ParsedBodyProperty -> ZodTypeAny)
  (JSON_parse : string -> option json) (op : ParsedOperation)
  (params : gmap string json) (param : ParsedParameter)
  (rb : ParsedRequestBody) (name : string) (prop : ParsedBodyProperty) (val : json) :
  In param (parameters op) -> p_name param <> "connectionId" ->
  requestBody op = Some rb ->
  NoDup (properties rb).*1 ->
  In (name, prop) (properties rb) -> Schema.is_binary prop = false ->
  sanitizeKey (p_name param) = sanitizeKey name ->
  params !! sanitizeKey name = Some val -> val <> JNull ->
  let schema := Schema.generateZodSchema zodForParam zodForBodyProp op in
  is_Some (schema !! sanitizeKey name)
  /\ is_Some (schema !! ("body_" +:+ sanitizeKey name))
  /\ exists body,
       Invoke.req_body (Invoke.build_request JSON_parse op params) = Some body
       /\ body !! name = Some (body_entry JSON_parse prop val).
Proof.
  intros Hparam Hne Hrb Hnd Hin Hbin Hsame Hval Hnull. cbv zeta.
  assert (Hkey : is_Some (foldl (Schema.param_step zodForParam) ∅ (parameters op)
                            !! sanitizeKey name)).
  { rewrite <- Hsame. now apply param_loop_sets. }
  unfold Schema.generateZodSchema. rewrite Hrb. split_and!.
  - now apply body_loop_keeps.
  - now apply (body_loop_collision _ _ _ name prop).
  - destruct (build_request_body_get JSON_parse params op rb name prop val Hrb Hnd Hin)
      as (body & Hbody & _ & Hget).
    + unfold Invoke.body_value. cbv zeta. rewrite Hval.
      destruct val; try reflexivity. now destruct Hnull.
    + eauto.
Qed.

Lemma collision_body_reads_parameter_key_witness :
  let params : gmap string json :=
    <["name" := JStr "from the query"]> {["body_name" := JStr "from the body"]} in
  let schema :=
    Schema.generateZodSchema SchemaFixtures.ForParam SchemaFixtures.ForBodyProp
      SchemaFixtures.collision in
  is_Some (schema !! "name")
  /\ is_Some (schema !! "body_name")
  /\ exists body,
       Invoke.req_body
         (Invoke.build_request InvokeFixtures.no_json SchemaFixtures.collision params)
       = Some body
       /\ body !! "name" = Some (JStr "from the query").
Proof.
  cbv zeta.
  apply (collision_body_reads_parameter_key SchemaFixtures.ForParam
           SchemaFixtures.ForBodyProp InvokeFixtures.no_json SchemaFixtures.collision
           (<["name" := JStr "from the query"]> {["body_name" := JStr "from the body"]})
           (InvokeFixtures.queryParam "name")
           {| rb_required := true; requiredFields := [];
              properties := [("name", InvokeFixtures.bodyProp "name" false)] |}
           "name" (InvokeFixtures.bodyProp "name" false) (JStr "from the query")).
  - right. left. reflexivity.
  - discriminate.
  - reflexivity.
  - apply (bool_decide_unpack (NoDup _)). vm_compute. exact I.
  - left. reflexivity.
  - reflexivity.
  - reflexivity.
  - vm_compute. reflexivity.
  - discriminate.
Defined.





(** ** The callers of the registration functions *)

Section CallerFacts.

Variable tokenProvider : list Effect -> Outcome string.
Variable armListConnections : list Effect -> Outcome (option (list ArmConnection)).
Variable armGetManagedApi : list Effect -> string -> Outcome json.
Variable server_tool : list Effect -> string -> option JsError.
Variable parseOpenApiSpec : json -> string -> Outcome (list ParsedOperation).
Variable armPutConnection : list Effect -> string -> Outcome ArmConnection.

(** The [try] statement of [configureAllTools] lets nothing out. *)
Lemma register_at_startup_total s :
  exists s' evs,
    register_at_startup tokenProvider armListConnections armGetManagedApi
      server_tool parseOpenApiSpec s = (Returns tt, s')
    /\ history s' = history s ++ evs
    /\ count is_notification evs = 0%nat.
Proof.
  unfold register_at_startup, try_catch, bind, emit.
  pose proof (tracks_registerDynamicTools tokenProvider armListConnections
                armGetManagedApi server_tool parseOpenApiSpec s) as (evs & Hh & _).
  pose proof (respects_registerDynamicTools Quiet tokenProvider armListConnections
                armGetManagedApi server_tool parseOpenApiSpec s) as Hq.
  unfold Quiet in Hq. rewrite Hh, count_app in Hq.
  destruct (registerDynamicTools _ _ _ _ _ s) as [[t|e] s1]; cbn [snd] in *.
  - eexists _, (evs ++ [_]). split; [reflexivity|]. cbn [history record].
    rewrite Hh, <- app_assoc. split; [reflexivity|]. rewrite count_app. cbn. lia.
  - eexists _, (evs ++ [_]). split; [reflexivity|]. cbn [history record].
    rewrite Hh, <- app_assoc. split; [reflexivity|]. rewrite count_app. cbn. lia.
Qed.

(** X22 (configureAllTools): the startup sequence throws only when the
    server refuses one of the four static tools or one of the two
    meta-tools; no failure of the dynamic registration gets out.  When it
    returns, the history holds the four static tools first, then the
    effects of the dynamic registration, then the two meta-tools, and no
    notification was sent. *)
Theorem configureAllTools_contains_dynamic_failures s :
  let run := configureAllTools tokenProvider armListConnections armGetManagedApi
               server_tool parseOpenApiSpec s in
  match fst run with
  | Returns _ =>
      exists evs,
        history (snd run)
        = history s ++ (ServerTool <$> static_tool_names) ++ evs
          ++ (ServerTool <$> meta_tool_names)
        /\ count is_notification evs = 0%nat
  | Throws e =>
      exists h toolName,
        In toolName (static_tool_names ++ meta_tool_names)
        /\ server_tool h toolName = Some e
  end.
Proof.
  cbv zeta.
  unfold configureAllTools, configureStaticTools, configureManagedApiTools,
    configureConnectionTools, configureMetaTools, bind, call_server_tool.
  destruct (server_tool (history s) "list_managed_apis") as [e|] eqn:H1.
  { cbn. exists (history s), "list_managed_apis". split; [cbn; tauto|exact H1]. }
  set (s1 := record (ServerTool "list_managed_apis") s).
  destruct (server_tool (history s1) "put_connection") as [e|] eqn:H2.
  { cbn. exists (history s1), "put_connection". split; [cbn; tauto|exact H2]. }
  set (s2 := record (ServerTool "put_connection") s1).
  destruct (server_tool (history s2) "list_connections") as [e|] eqn:H3.
  { cbn. exists (history s2), "list_connections". split; [cbn; tauto|exact H3]. }
  set (s3 := record (ServerTool "list_connections") s2).
  destruct (server_tool (history s3) "get_consent_link") as [e|] eqn:H4.
  { cbn. exists (history s3), "get_consent_link". split; [cbn; tauto|exact H4]. }
  set (s4 := record (ServerTool "get_consent_link") s3).
  destruct (register_at_startup_total s4) as (s5 & evs & -> & Hh & Hq).
  destruct (server_tool (history s5) "list_dynamic_tools") as [e|] eqn:H5.
  { cbn. exists (history s5), "list_dynamic_tools". split; [cbn; tauto|exact H5]. }
  set (s6 := record (ServerTool "list_dynamic_tools") s5).
  destruct (server_tool (history s6) "refresh_tools") as [e|] eqn:H6.
  { cbn. exists (history s6), "refresh_tools". split; [cbn; tauto|exact H6]. }
  cbn [fst snd]. exists evs. split; [|exact Hq].
  unfold s6. cbn [history record]. rewrite Hh. unfold s4, s3, s2, s1.
  cbn [history record]. rewrite <- !app_assoc. reflexivity.
Qed.


End CallerFacts.

(** ** The user agent *)

Lemma append_empty_r (a : string) : a +:+ "" = a.
Proof.
  induction a as [|c a IH]; [reflexivity|]. rewrite append_cons. now f_equal.
Qed.

Lemma appendMcpClientInfo_appended this info :
  UserAgent._mcpClientInfoAppended this = true ->
  UserAgent.appendMcpClientInfo this info = this.
Proof.
  intros H. unfold UserAgent.appendMcpClientInfo. rewrite H.
  now destruct info.
Qed.

Lemma appendMcpClientInfo_settled this infos :
  UserAgent._mcpClientInfoAppended this = true ->
  foldl UserAgent.appendMcpClientInfo this infos = this.
Proof.
  intros H. induction infos as [|info infos IH]; [reflexivity|].
  cbn [foldl]. now rewrite appendMcpClientInfo_appended.
Qed.

(** X24 (UserAgentComposer): whatever the sequence of client infos it is
    given, the composer appends one of them at most: the first that has a
    truthy name and a truthy version.  The user agent is the one of the
    constructor, followed by [ name/version] of that client info when
    there is one. *)
Theorem userAgent_appends_first_client_info packageVersion infos :
  UserAgent.userAgent
    (foldl UserAgent.appendMcpClientInfo (UserAgent.constructor packageVersion) infos)
  = "ARMConnections.MCP/" +:+ packageVersion +:+ " (local)"
    +:+ default EmptyString (list_find is_Some (UserAgent.suffix <$> infos)
                             ≫= fun found => found.2).
Proof.
  unfold UserAgent.userAgent, UserAgent.constructor.
  set (base := "ARMConnections.MCP/" +:+ packageVersion +:+ " (local)").
  assert (Hbase : "ARMConnections.MCP/" +:+ packageVersion +:+ " (local)"
                    +:+ default EmptyString
                          (list_find is_Some (UserAgent.suffix <$> infos)
                           ≫= fun found => found.2)
                  = base +:+ default EmptyString
                               (list_find is_Some (UserAgent.suffix <$> infos)
                                ≫= fun found => found.2)).
  { unfold base. now rewrite !append_assoc. }
  rewrite Hbase. clear Hbase. generalize base. clear base. intros base.
  induction infos as [|info infos IH].
  - cbn. now rewrite append_empty_r.
  - cbn [foldl fmap list_fmap list_find].
    unfold UserAgent.appendMcpClientInfo at 2. cbn [UserAgent._mcpClientInfoAppended].
    unfold UserAgent.suffix at 1.
    destruct info as [info|]; cbn.
    + destruct (UserAgent.present (UserAgent.name info)) as [name|];
        [destruct (UserAgent.present (UserAgent.version info)) as [version|]|].
      * rewrite decide_True by eauto. cbn.
        now rewrite appendMcpClientInfo_settled.
      * rewrite decide_False by (intros [? [=]]). rewrite IH.
        destruct (list_find _ _) as [[i x]|]; reflexivity.
      * rewrite decide_False by (intros [? [=]]). rewrite IH.
        destruct (list_find _ _) as [[i x]|]; reflexivity.
    + rewrite decide_False by (intros [? [=]]). rewrite IH.
      destruct (list_find _ _) as [[i x]|]; reflexivity.
Qed.

(** ** Tool names that meet *)

Lemma strip_prefix_spec p s rest : strip_prefix p s = Some rest <-> s = p +:+ rest.
Proof.
  revert s. induction p as [|a p IH]; intros s.
  - cbn. rewrite append_nil. split; [now intros [= ->]|now intros ->].
  - destruct s as [|b s]; cbn [strip_prefix].
    + rewrite append_cons. split; discriminate.
    + rewrite append_cons. destruct (Ascii.eqb_spec a b) as [->|Hne].
      * rewrite IH. split; [now intros ->|now intros [= ->]].
      * split; [discriminate|]. intros [= -> _]. now destruct Hne.
Qed.

Lemma startsWith_spec s p : startsWith s p = true <-> exists rest, s = p +:+ rest.
Proof.
  unfold startsWith. destruct (strip_prefix p s) as [rest|] eqn:E.
  - apply strip_prefix_spec in E. split; [eauto|reflexivity].
  - split; [discriminate|]. intros [rest Hrest].
    apply strip_prefix_spec in Hrest. congruence.
Qed.

Section NamesThatMeet.

Variable tokenProvider : list Effect -> Outcome string.
Variable armListConnections : list Effect -> Outcome (option (list ArmConnection)).
Variable armGetManagedApi : list Effect -> string -> Outcome json.
Variable server_tool : list Effect -> string -> option JsError.
Variable parseOpenApiSpec : json -> string -> Outcome (list ParsedOperation).

Lemma reachable_consistent s :
  reachable tokenProvider armListConnections armGetManagedApi server_tool
    parseOpenApiSpec s ->
  registry_consistent (toolRegistry s).
Proof.
  induction 1 as [|s s' _ IH Hstep].
  - intros k v. cbn. now rewrite lookup_empty.
  - eapply step_consistent; eauto.
Qed.

(** X25 (registerToolsForConnection): managed APIs whose names extend one
    another.  In a reachable state, once the registry holds a tool of an
    API whose name starts with [<apiName>_], incremental registration for
    [apiName] takes the tools of [apiName] for registered: it returns
    zeros, logs, and asks neither for a token nor for the schema. *)
Theorem incremental_blocked_by_longer_api_name c conn s k ctx :
  reachable tokenProvider armListConnections armGetManagedApi server_tool
    parseOpenApiSpec s ->
  toolRegistry s !! k = Some ctx ->
  startsWith (apiName (connection ctx)) (apiName conn +:+ "_") = true ->
  extractConnectionInfo c = Returns conn ->
  registerToolsForConnection tokenProvider armGetManagedApi server_tool
    parseOpenApiSpec c s
  = (Returns zeros,
     record (Log "info" ("Tools for " +:+ apiName conn
                         +:+ " already registered, skipping")) s).
Proof.
  intros Hreach Hk Hlong Hconn.
  assert (Hpre : has_prefix (toolRegistry s) (apiName conn +:+ "_") = true).
  { apply has_prefix_spec. exists k, ctx. split; [exact Hk|].
    rewrite (reachable_consistent s Hreach k ctx Hk).
    pose proof (buildToolName_prefix (apiName (connection ctx))
                  (operationId (operation ctx))) as Hown.
    apply startsWith_spec in Hown as [rest ->].
    apply startsWith_spec in Hlong as [more ->].
    apply startsWith_spec. exists (more +:+ "_" +:+ rest).
    now rewrite !append_assoc. }
  pose proof (incremental_call tokenProvider armGetManagedApi server_tool
                parseOpenApiSpec c conn s Hconn) as Hcall.
  cbv zeta in Hcall. now rewrite Hpre in Hcall.
Qed.

(** The first operation of a list that takes a free tool name keeps it. *)
Lemma registerOps_loop_first conn ops registered0 skipped0 s stats s' toolName op :
  registerOps_loop server_tool conn ops registered0 skipped0 s = (Returns stats, s') ->
  toolRegistry s !! toolName = None ->
  List.find (fun op => String.eqb (buildToolName (apiName conn) (operationId op))
                         toolName) ops = Some op ->
  toolRegistry s' !! toolName = Some {| connection := conn; operation := op |}.
Proof.
  revert registered0 skipped0 s.
  induction ops as [|op0 ops IH]; intros registered0 skipped0 s Hrun Hfree Hfind;
    [discriminate|].
  rewrite registerOps_loop_cons in Hrun. cbv zeta in Hrun. cbn [List.find] in Hfind.
  destruct (String.eqb_spec (buildToolName (apiName conn) (operationId op0)) toolName)
    as [Heq|Hne].
  - injection Hfind as ->. rewrite Heq, Hfree in Hrun.
    destruct (server_tool (history s) toolName); [discriminate|].
    pose proof (registerOps_loop_account server_tool conn ops (S registered0) skipped0
                  (with_registry
                     (<[toolName := {| connection := conn; operation := op |}]>
                        (toolRegistry s))
                     (record (ServerTool toolName) s))) as Hacc.
    cbv zeta in Hacc. rewrite Hrun in Hacc. cbn [fst snd] in Hacc.
    destruct Hacc as (_ & Hsub & _).
    eapply lookup_weaken; [|exact Hsub]. cbn. apply lookup_insert_eq.
  - destruct (toolRegistry s !! _) eqn:Hother; [now apply (IH _ _ _ Hrun)|].
    destruct (server_tool (history s) _); [discriminate|].
    apply (IH _ _ _ Hrun); [|exact Hfind].
    cbn. now rewrite lookup_insert_ne.
Qed.

(** X26 (registerOps): operations that share a tool name.  When the call
    returns, a tool name that was free holds the first operation of the
    list that has this name; the later ones were skipped. *)
Theorem registerOps_first_operation_wins conn ops s stats s' toolName op :
  registerOps server_tool conn ops s = (Returns stats, s') ->
  toolRegistry s !! toolName = None ->
  List.find (fun op => String.eqb (buildToolName (apiName conn) (operationId op))
                         toolName) ops = Some op ->
  toolRegistry s' !! toolName = Some {| connection := conn; operation := op |}.
Proof. apply registerOps_loop_first. Qed.

End NamesThatMeet.

Lemma incremental_blocked_by_longer_api_name_witness :
  let s :=
    snd (registerToolsForConnection LifecycleFixtures.token_ok
           (LifecycleFixtures.arm_returns LifecycleFixtures.swagger)
           LifecycleFixtures.server_ok LifecycleFixtures.parse_two
           (LifecycleFixtures.makeArmConnectionResponse "sql-server" "sql_server")
           initial) in
  registerToolsForConnection LifecycleFixtures.token_ok
    (LifecycleFixtures.arm_returns LifecycleFixtures.swagger)
    LifecycleFixtures.server_ok LifecycleFixtures.parse_two
    (LifecycleFixtures.makeArmConnectionResponse "sql" "sql") s
  = (Returns zeros,
     record (Log "info" "Tools for sql already registered, skipping") s).
Proof.
  cbv zeta.
  eapply (incremental_blocked_by_longer_api_name LifecycleFixtures.token_ok
            LifecycleFixtures.no_connections
            (LifecycleFixtures.arm_returns LifecycleFixtures.swagger)
            LifecycleFixtures.server_ok LifecycleFixtures.parse_two
            (LifecycleFixtures.makeArmConnectionResponse "sql" "sql")
            LifecycleFixtures.sql _ "sql_server_send_email").
  - eapply reachable_step; [apply reachable_initial|apply step_incremental].
  - vm_compute. reflexivity.
  - vm_compute. reflexivity.
  - reflexivity.
Defined.

Lemma registerOps_first_operation_wins_witness :
  toolRegistry
    (snd (registerOps LifecycleFixtures.server_ok LifecycleFixtures.office365
            [Fixtures.makeOperation 0 "SendEmail"; Fixtures.makeOperation 1 "sendEmail"]
            initial))
    !! "office365_send_email"
  = Some {| connection := LifecycleFixtures.office365;
            operation := Fixtures.makeOperation 0 "SendEmail" |}.
Proof.
  apply (registerOps_first_operation_wins LifecycleFixtures.server_ok
           LifecycleFixtures.office365
           [Fixtures.makeOperation 0 "SendEmail"; Fixtures.makeOperation 1 "sendEmail"]
           initial (1, 1)%nat).
  - vm_compute. reflexivity.
  - reflexivity.
  - vm_compute. reflexivity.
Defined.

(** ** How often a schema is fetched *)

Section Once.

Variable tokenProvider : list Effect -> Outcome string.
Variable armListConnections : list Effect -> Outcome (option (list ArmConnection)).
Variable armGetManagedApi : list Effect -> string -> Outcome json.
Variable server_tool : list Effect -> string -> option JsError.
Variable parseOpenApiSpec : json -> string -> Outcome (list ParsedOperation).

Variable managedApi : string.

(** ARM always answers a request for [managedApi] with a truthy document. *)
Hypothesis always_answers :
  forall h, exists swagger,
    armGetManagedApi h managedApi = Returns swagger /\ Js.truthy swagger = true.

#[local] Abbreviation once := (FetchedOnce managedApi).

Lemma once_refl s : once s s.
Proof.
  split; [reflexivity|]. split; [reflexivity|]. intros H. left. now split.
Qed.

Lemma once_trans s1 s2 s3 : once s1 s2 -> once s2 s3 -> once s1 s3.
Proof.
  intros (Hsub1 & Hin1 & Hout1) (Hsub2 & Hin2 & Hout2).
  split; [etransitivity; eassumption|]. split.
  - intros [v Hv]. rewrite Hin2, Hin1; eauto.
    exists v. eapply lookup_weaken; eassumption.
  - intros Hnone. destruct (Hout1 Hnone) as [[Hn Hc]|[Hs Hc]].
    + destruct (Hout2 Hn) as [[Hn' Hc']|[Hs' Hc']]; [left|right]; split; auto; lia.
    + right. split.
      * destruct Hs as [v Hv]. exists v. eapply lookup_weaken; eassumption.
      * rewrite (Hin2 Hs). exact Hc.
Qed.

#[local] Instance once_preorder : PreOrder once.
Proof. split; [intros s; apply once_refl|intros s1 s2 s3; apply once_trans]. Qed.

Lemma once_record e s : is_fetch_of managedApi e = false -> once s (record e s).
Proof.
  intros He. unfold FetchedOnce. rewrite count_record, He, Nat.add_0_r.
  split; [reflexivity|]. split; [reflexivity|]. intros H. left. now split.
Qed.

Lemma once_emit e : is_fetch_of managedApi e = false -> respects once (emit e).
Proof. intros He s. now apply once_record. Qed.

Lemma once_fetchApiSchema requested :
  respects once (fetchApiSchema armGetManagedApi requested).
Proof.
  intros s. destruct (schemaCache s !! requested) as [cached|] eqn:Hc.
  - rewrite (fetchApiSchema_hit _ _ _ _ Hc). apply once_refl.
  - rewrite (fetchApiSchema_miss _ _ _ Hc). cbv zeta.
    set (s0 := record (Log "debug" ("Fetching API schema for " +:+ requested)) s).
    set (s1 := record (ArmGetManagedApi requested) s0).
    assert (H0 : once s s0) by now apply once_record.
    destruct (String.eqb_spec requested managedApi) as [->|Hne].
    + destruct (always_answers (history_at_fetch managedApi s)) as (swagger & -> & ->).
      cbn [snd]. unfold FetchedOnce.
      change (history (with_cache _ s1)) with (history s1).
      change (schemaCache (with_cache ?c s1)) with c.
      assert (Hcount : count (is_fetch_of managedApi) (history s1)
                       = S (count (is_fetch_of managedApi) (history s))).
      { unfold s1, s0. rewrite !count_record. cbn [is_fetch_of].
        rewrite String.eqb_refl. lia. }
      rewrite Hcount.
      split; [now apply insert_subseteq|]. split.
      * intros [v Hv]. congruence.
      * intros _. right. split; [rewrite lookup_insert_eq; eauto|lia].
    + assert (H1 : once s s1).
      { etransitivity; [exact H0|]. apply once_record. cbn.
        now apply String.eqb_neq. }
      destruct (armGetManagedApi _ requested) as [response|e]; cbn [snd];
        [|exact H1].
      destruct (Js.truthy response).
      * etransitivity; [exact H1|].
        unfold FetchedOnce.
        change (history (with_cache _ s1)) with (history s1).
        change (schemaCache (with_cache ?c s1)) with c.
        change (schemaCache s1) with (schemaCache s).
        split; [now apply insert_subseteq|].
        rewrite lookup_insert_ne by exact Hne.
        split; [reflexivity|]. intros H. left. now split.
      * etransitivity; [exact H1|]. now apply once_record.
Qed.

Lemma once_registerOps_loop conn ops registered skipped :
  respects once (registerOps_loop server_tool conn ops registered skipped).
Proof.
  revert registered skipped.
  induction ops as [|op ops IH]; intros registered skipped s; [apply once_refl|].
  rewrite registerOps_loop_cons. cbv zeta.
  set (toolName := buildToolName (apiName conn) (operationId op)).
  destruct (toolRegistry s !! toolName); [apply IH|].
  destruct (server_tool (history s) toolName); [apply once_refl|].
  etransitivity; [|apply IH].
  etransitivity; [apply (once_record (ServerTool toolName)); reflexivity|].
  unfold FetchedOnce. cbn [schemaCache history with_registry].
  split; [reflexivity|]. split; [reflexivity|]. intros H. left. now split.
Qed.

Lemma once_scan_connection c tally :
  respects once (scan_connection armGetManagedApi server_tool parseOpenApiSpec c tally).
Proof.
  unfold scan_connection. apply keeps_try_catch; [apply _| |].
  - apply keeps_bind; [apply _|apply keeps_lift, _|]. intros conn.
    apply keeps_bind; [apply _|apply once_fetchApiSchema|]. intros swagger.
    destruct (negb (Js.truthy swagger)).
    + apply keeps_bind; [apply _|now apply once_emit|]. intros _. apply keeps_ret, _.
    + apply keeps_bind; [apply _|apply keeps_lift, _|]. intros allOps.
      apply keeps_bind; [apply _|apply once_registerOps_loop|].
      intros stats. apply keeps_ret, _.
  - intros e. apply keeps_bind; [apply _|now apply once_emit|].
    intros _. apply keeps_ret, _.
Qed.

Lemma once_scan_connections connections tally :
  respects once (scan_connections armGetManagedApi server_tool parseOpenApiSpec
                   connections tally).
Proof.
  revert tally. induction connections as [|c rest IH]; intros tally;
    [apply keeps_ret, _|].
  cbn [scan_connections]. apply keeps_bind; [apply _|apply once_scan_connection|].
  exact IH.
Qed.

Lemma once_registerDynamicTools :
  respects once (registerDynamicTools tokenProvider armListConnections
                   armGetManagedApi server_tool parseOpenApiSpec).
Proof.
  unfold registerDynamicTools.
  apply keeps_bind; [apply _|intros s; now apply once_record|]. intros token.
  apply keeps_bind; [apply _|intros s; now apply once_record|]. intros connResult.
  apply keeps_bind; [apply _|apply once_scan_connections|]. intros tally.
  apply keeps_bind; [apply _|now apply once_emit|]. intros _. apply keeps_ret, _.
Qed.

Lemma once_registerToolsForConnection c :
  respects once (registerToolsForConnection tokenProvider armGetManagedApi
                   server_tool parseOpenApiSpec c).
Proof.
  unfold registerToolsForConnection. apply keeps_try_catch; [apply _| |].
  - apply keeps_bind; [apply _|apply keeps_lift, _|]. intros conn.
    apply keeps_bind; [apply _|intros s; apply once_refl|]. intros registry.
    destruct (has_prefix registry _).
    { apply keeps_bind; [apply _|now apply once_emit|]. intros _. apply keeps_ret, _. }
    apply keeps_bind; [apply _|intros s; now apply once_record|]. intros token.
    apply keeps_bind; [apply _|apply once_fetchApiSchema|]. intros swagger.
    destruct (negb (Js.truthy swagger)).
    { apply keeps_bind; [apply _|now apply once_emit|]. intros _. apply keeps_ret, _. }
    apply keeps_bind; [apply _|apply keeps_lift, _|]. intros allOps.
    apply keeps_bind; [apply _|apply once_registerOps_loop|]. intros stats.
    apply keeps_bind; [apply _| |intros _; apply keeps_ret, _].
    destruct (0 <? fst stats)%nat; [now apply once_emit|apply keeps_ret, _].
  - intros e. apply keeps_bind; [apply _|now apply once_emit|].
    intros _. apply keeps_ret, _.
Qed.

Lemma once_refresh_tools s :
  once (with_cache ∅ s)
    (snd (refresh_tools tokenProvider armListConnections armGetManagedApi
            server_tool parseOpenApiSpec s)).
Proof.
  unfold refresh_tools, try_catch, bind at 1 2. unfold clearSchemaCache at 1.
  pose proof (once_registerDynamicTools (with_cache ∅ s)) as H.
  destruct (registerDynamicTools _ _ _ _ _ (with_cache ∅ s)) as [[t|e] s1];
    cbn [snd] in H; cbn -[FetchedOnce]; [exact H|].
  etransitivity; [exact H|now apply once_record].
Qed.

Lemma once_bound s s' :
  once s s' ->
  (count (is_fetch_of managedApi) (history s')
   <= count (is_fetch_of managedApi) (history s) + 1)%nat
  /\ (is_Some (schemaCache s !! managedApi) ->
      count (is_fetch_of managedApi) (history s')
      = count (is_fetch_of managedApi) (history s)).
Proof.
  intros (_ & Hin & Hout). split; [|exact Hin].
  destruct (schemaCache s !! managedApi) as [v|] eqn:Hv.
  - rewrite Hin by eauto. lia.
  - destruct (Hout eq_refl) as [[_ ->]|[_ ->]]; lia.
Qed.

End Once.

(** X28 (schemaCache): a schema is fetched once.  For a managed API that ARM
    always answers with a truthy document, a startup scan and an
    incremental registration send at most one request for it, however
    many connections use it, and none when its schema is in the cache; a
    refresh sends at most one. *)
Theorem schema_fetched_at_most_once
  (tokenProvider : list Effect -> Outcome string)
  (armListConnections : list Effect -> Outcome (option (list ArmConnection)))
  (armGetManagedApi : list Effect -> string -> Outcome json)
  (server_tool : list Effect -> string -> option JsError)
  (parseOpenApiSpec : json -> string -> Outcome (list ParsedOperation))
  (apiName : string) :
  (forall h, exists swagger,
      armGetManagedApi h apiName = Returns swagger /\ Js.truthy swagger = true) ->
  let requests (s : State) := count (is_fetch_of apiName) (history s) in
  (forall s,
      let s' := snd (registerDynamicTools tokenProvider armListConnections
                       armGetManagedApi server_tool parseOpenApiSpec s) in
      (requests s' <= requests s + 1)%nat
      /\ (is_Some (schemaCache s !! apiName) -> requests s' = requests s))
  /\ (forall c s,
        let s' := snd (registerToolsForConnection tokenProvider armGetManagedApi
                         server_tool parseOpenApiSpec c s) in
        (requests s' <= requests s + 1)%nat
        /\ (is_Some (schemaCache s !! apiName) -> requests s' = requests s))
  /\ (forall s,
        let s' := snd (refresh_tools tokenProvider armListConnections
                         armGetManagedApi server_tool parseOpenApiSpec s) in
        (requests s' <= requests s + 1)%nat).
Proof.
  intros Hanswers. cbv zeta. split_and!.
  - intros s. apply once_bound. now apply once_registerDynamicTools.
  - intros c s. apply once_bound. now apply once_registerToolsForConnection.
  - intros s. refine (proj1 (once_bound apiName (with_cache ∅ s) _ _)).
    now apply once_refresh_tools.
Qed.

Lemma schema_fetched_at_most_once_witness :
  let office365 := LifecycleFixtures.makeArmConnectionResponse "office365" "office365" in
  let shared := LifecycleFixtures.makeArmConnectionResponse "office365-bis" "office365" in
  let s' :=
    snd (registerDynamicTools LifecycleFixtures.token_ok
           (LifecycleFixtures.connections_of [office365; shared])
           (LifecycleFixtures.arm_returns LifecycleFixtures.swagger)
           LifecycleFixtures.server_ok LifecycleFixtures.parse_two initial) in
  (count (is_fetch_of "office365") (history s') <= 1)%nat.
Proof.
  cbv zeta.
  apply (proj1 (proj1 (schema_fetched_at_most_once LifecycleFixtures.token_ok
                         (LifecycleFixtures.connections_of
                            [LifecycleFixtures.makeArmConnectionResponse
                               "office365" "office365";
                             LifecycleFixtures.makeArmConnectionResponse
                               "office365-bis" "office365"])
                         (LifecycleFixtures.arm_returns LifecycleFixtures.swagger)
                         LifecycleFixtures.server_ok LifecycleFixtures.parse_two
                         "office365"
                         (fun h => ex_intro _ LifecycleFixtures.swagger
                                     (conj eq_refl eq_refl)))
                      initial)).
Defined.
